(** * cpu-usage: the snapshot, diff and rank engine of cpus.c, cpu.c and cpup.c

    The three programs sample /proc/stat (and, for cpup, /proc/<pid>/stat)
    every five seconds and print utilisation figures.  This file embeds the
    functions of the three C sources as Rocq functions and states the
    properties of the engine over them.

    Conventions.
    - [uint64_t] values are integers in [0, 2^64); every C [+] and [-] on
      them is written with its wrap-around ([add64], [sub64]).
    - [int] is 32 bits, [long] is 64 bits (the LP64 platforms the programs
      are written for: they scan [uint64_t] with [%lu]).
    - A text file is the list of chunks [fgets] returns, one per line.
    - [(float) load / total * 100] is represented by its operands
      ([ratio]); [percent] is its exact rational value, of which the C
      float is the rounding. *)

From Stdlib Require Import ZArith List Bool Lia Ascii String QArith.
From Stdlib Require Import Sorted Permutation.
From Stdlib Require DecimalString DecimalN.
Import ListNotations.

#[local] Open Scope Z_scope.

(** ** Machine integers *)

Definition UINT64_MOD : Z := 2 ^ 64.
Definition ULONG_MAX : Z := 2 ^ 64 - 1.
Definition LONG_MAX : Z := 2 ^ 63 - 1.
Definition LONG_MIN : Z := - 2 ^ 63.

Definition is_uint64 (z : Z) : Prop := 0 <= z < UINT64_MOD.

(** [a + b] and [a - b] on [uint64_t]. *)
Definition add64 (a b : Z) : Z := (a + b) mod UINT64_MOD.
Definition sub64 (a b : Z) : Z := (a - b) mod UINT64_MOD.

(** Conversion of an integer to [int] (the value is reduced modulo 2^32
    into the signed range, as gcc and clang do). *)
Definition to_int (z : Z) : Z := (z + 2 ^ 31) mod 2 ^ 32 - 2 ^ 31.

(** ** [cputime_t]: the ten counters of a /proc/stat line *)

Record cputime_t : Type := mk_cputime {
  user : Z;
  nice : Z;
  system : Z;
  idle : Z;
  iowait : Z;
  irq : Z;
  softirq : Z;
  steal : Z;
  guest : Z;
  guest_nice : Z
}.

(** The ten fields in declaration order. *)
Definition fields (t : cputime_t) : list Z :=
  [user t; nice t; system t; idle t; iowait t;
   irq t; softirq t; steal t; guest t; guest_nice t].

Definition wf_cputime (t : cputime_t) : Prop := Forall is_uint64 (fields t).

Definition is_uint64b (z : Z) : bool := (0 <=? z) && (z <? UINT64_MOD).

Definition wf_cputimeb (t : cputime_t) : bool := forallb is_uint64b (fields t).

(** [memset(&t, 0, sizeof(cputime_t))]. *)
Definition zero_cputime : cputime_t := mk_cputime 0 0 0 0 0 0 0 0 0 0.

(** ** Aggregator: [get_total], [get_load] and the category sub-totals
    (identical in the three sources) *)

Definition get_total (time : cputime_t) : Z :=
  add64 (add64 (add64 (add64 (add64 (add64 (add64 (add64 (add64
    (user time) (nice time)) (system time))
    (idle time)) (iowait time)) (irq time)) (softirq time))
    (steal time)) (guest time)) (guest_nice time).

Definition get_load (time : cputime_t) : Z :=
  add64 (add64 (add64 (add64 (add64 (add64 (add64
    (user time) (nice time)) (system time))
    (irq time)) (softirq time))
    (steal time)) (guest time)) (guest_nice time).

Definition get_idle (time : cputime_t) : Z := add64 (idle time) (iowait time).
Definition get_iowait (time : cputime_t) : Z := iowait time.
Definition get_system (time : cputime_t) : Z := system time.
Definition get_user (time : cputime_t) : Z := add64 (user time) (nice time).
Definition get_irq (time : cputime_t) : Z := add64 (irq time) (softirq time).
Definition get_guest (time : cputime_t) : Z := add64 (guest time) (guest_nice time).

(** The plain integer sums the two functions compute modulo 2^64. *)
Definition sum_all (t : cputime_t) : Z :=
  user t + nice t + system t + idle t + iowait t
  + irq t + softirq t + steal t + guest t + guest_nice t.

Definition sum_busy (t : cputime_t) : Z :=
  user t + nice t + system t
  + irq t + softirq t + steal t + guest t + guest_nice t.

(** ** Delta engine: [get_diff] *)

(** The macro [DIFF(x)]: [tmp = after->x - before->x;
    diff->x = tmp < 0 ? 0 : tmp;] with [tmp] a [uint64_t]. *)
Definition DIFF (before_x after_x : Z) : Z :=
  let tmp := sub64 after_x before_x in
  if tmp <? 0 then 0 else tmp.

Definition get_diff (before after : cputime_t) : cputime_t :=
  {| user := DIFF (user before) (user after);
     nice := DIFF (nice before) (nice after);
     system := DIFF (system before) (system after);
     idle := DIFF (idle before) (idle after);
     iowait := DIFF (iowait before) (iowait after);
     irq := DIFF (irq before) (irq after);
     softirq := DIFF (softirq before) (softirq after);
     steal := DIFF (steal before) (steal after);
     guest := DIFF (guest before) (guest after);
     guest_nice := DIFF (guest_nice before) (guest_nice after) |}.

(** ** The parts of the C library the sources call *)

(** Modelled from the spec: def.h is not among the sources.  It supplies
    [result_t] with the two values SUCCESS and FAILURE (a read either
    succeeds or fails with SourceUnavailable / MalformedRecord), the loop
    condition TRUE of [main], and the diagnostic macro ERR, which prints
    and changes nothing that is computed. *)
Inductive result_t : Type := SUCCESS | FAILURE.

Definition EXIT_SUCCESS : Z := 0.
Definition EXIT_FAILURE : Z := 1.

(** The outcome of a call that may run into behaviour the C standard
    leaves undefined (a null [FILE *] given to [fclose], a null pointer
    from [strchr] that is dereferenced). *)
Inductive exec (A : Type) : Type :=
| Returns (a : A)
| Undefined_behaviour.
Arguments Returns {A} a.
Arguments Undefined_behaviour {A}.

(** A file as [fopen] and [fgets] show it: [None] when it cannot be
    opened, otherwise the successive lines [fgets] returns. *)
Definition file : Type := option (list string).

Definition newline : string := String "010"%char EmptyString.

(** [isspace] in the C locale. *)
Definition is_space (c : ascii) : bool :=
  let n := N_of_ascii c in
  (n =? 32)%N || ((9 <=? n)%N && (n <=? 13)%N).

Definition digit_of (c : ascii) : option Z :=
  let n := Z.of_N (N_of_ascii c) in
  if (48 <=? n) && (n <=? 57) then Some (n - 48) else None.

Definition is_digit (c : ascii) : bool :=
  match digit_of c with Some _ => true | None => false end.

Fixpoint skip_space (s : string) : string :=
  match s with
  | String c r => if is_space c then skip_space r else s
  | EmptyString => s
  end.

Fixpoint read_digits (s : string) (acc : Z) : Z * string :=
  match s with
  | String c r =>
      match digit_of c with
      | Some d => read_digits r (10 * acc + d)
      | None => (acc, s)
      end
  | EmptyString => (acc, s)
  end.

(** The directives of the [sscanf] formats the sources use. *)
Inductive conversion : Type :=
| C_lu      (* %lu *)
| C_ld      (* %ld *)
| C_c       (* %c *)
| C_skip_d  (* %*d *)
| C_skip_u. (* %*u *)

Inductive directive : Type :=
| Lit (c : ascii)
| Space
| Conv (k : conversion).

Fixpoint parse_format (f : string) : list directive :=
  match f with
  | EmptyString => []
  | String "%" (String "l" (String "u" r)) => Conv C_lu :: parse_format r
  | String "%" (String "l" (String "d" r)) => Conv C_ld :: parse_format r
  | String "%" (String "c" r) => Conv C_c :: parse_format r
  | String "%" (String "*" (String "d" r)) => Conv C_skip_d :: parse_format r
  | String "%" (String "*" (String "u" r)) => Conv C_skip_u :: parse_format r
  | String c r =>
      (if is_space c then Space else Lit c) :: parse_format r
  end.

(** What one conversion does with the input. *)
Inductive scanned : Type :=
| Got (v : option Z) (rest : string)  (* [v] is stored unless suppressed *)
| Matching_failure
| Input_failure.

(** An optionally signed decimal integer after optional white space: the
    subject sequence of %d, %u, %ld and %lu, as sign and magnitude. *)
Inductive int_scan : Type :=
| Int_found (neg : bool) (mag : Z) (rest : string)
| Int_mismatch
| Int_end.

Definition scan_integer (s : string) : int_scan :=
  match skip_space s with
  | EmptyString => Int_end
  | String c r =>
      let '(neg, body) :=
        if Ascii.eqb c "-" then (true, r)
        else if Ascii.eqb c "+" then (false, r)
        else (false, String c r) in
      match body with
      | String d _ =>
          if is_digit d
          then let '(v, rest) := read_digits body 0 in Int_found neg v rest
          else Int_mismatch
      | EmptyString => Int_mismatch
      end
  end.

(** The value [strtoul] gives for a sign and a magnitude. *)
Definition ulong_of (neg : bool) (mag : Z) : Z :=
  if mag >? ULONG_MAX then ULONG_MAX
  else if neg then (- mag) mod UINT64_MOD else mag.

(** The value [strtol] gives for a sign and a magnitude. *)
Definition long_of (neg : bool) (mag : Z) : Z :=
  let v := if neg then - mag else mag in
  Z.max LONG_MIN (Z.min LONG_MAX v).

Definition convert (k : conversion) (s : string) : scanned :=
  match k with
  | C_c =>
      match s with
      | String c r => Got (Some (Z.of_N (N_of_ascii c))) r
      | EmptyString => Input_failure
      end
  | _ =>
      match scan_integer s with
      | Int_found neg mag rest =>
          match k with
          | C_lu => Got (Some (ulong_of neg mag)) rest
          | C_ld => Got (Some (long_of neg mag)) rest
          | _ => Got None rest
          end
      | Int_mismatch => Matching_failure
      | Int_end => Input_failure
      end
  end.

Definition EOF : Z := -1.

(** [sscanf]: the directives are run in order; the result is the number
    of values stored, or EOF when the input ends before anything was
    stored, together with the values in the order of the pointer
    arguments. *)
Fixpoint sscanf_from (fmt : list directive) (s : string) (stored : list Z)
  : Z * list Z :=
  let count := Z.of_nat (List.length stored) in
  match fmt with
  | [] => (count, stored)
  | Space :: fmt' => sscanf_from fmt' (skip_space s) stored
  | Lit c :: fmt' =>
      match s with
      | EmptyString => (if (count =? 0) then EOF else count, stored)
      | String c' s' =>
          if Ascii.eqb c c' then sscanf_from fmt' s' stored
          else (count, stored)
      end
  | Conv k :: fmt' =>
      match convert k s with
      | Got (Some v) rest => sscanf_from fmt' rest (stored ++ [v])
      | Got None rest => sscanf_from fmt' rest stored
      | Matching_failure => (count, stored)
      | Input_failure => (if (count =? 0) then EOF else count, stored)
      end
  end.

Definition sscanf (s format : string) : Z * list Z :=
  sscanf_from (parse_format format) s [].

(** The pointer arguments of a [sscanf] call: the k-th stored value goes
    through the k-th target. *)
Fixpoint store {A : Type} (targets : list (Z -> A -> A)) (vs : list Z) (a : A)
  : A :=
  match targets, vs with
  | t :: ts, v :: vs' => store ts vs' (t v a)
  | _, _ => a
  end.

(** [a[i] = v] on an array held as a list. *)
Fixpoint update {A : Type} (i : nat) (v : A) (l : list A) : list A :=
  match l, i with
  | [], _ => []
  | _ :: r, O => v :: r
  | x :: r, S j => x :: update j v r
  end.

(** ** What the programs print *)

(** The C expression [(float) load / total * 100]. *)
Record ratio : Type := mk_ratio { numerator : Z; denominator : Z }.

(** Its exact value; the printed float is the rounding of this number. *)
Definition percent (r : ratio) : Q :=
  (inject_Z (numerator r) / inject_Z (denominator r) * inject_Z 100)%Q.

(** The arguments of the [printf] of the aggregate line:
    usage, T, I, IO, S, U, IRQ and G. *)
Record report : Type := mk_report {
  r_usage : ratio;
  r_total : Z;
  r_idle : Z;
  r_iowait : Z;
  r_system : Z;
  r_user : Z;
  r_irq : Z;
  r_guest : Z
}.

(** How far a run of [main] has come on a finite list of samples of the
    counter source: it has returned with a status, or it is still in its
    [while (TRUE)] loop, asleep before the next sample. *)
Inductive run (O : Type) : Type :=
| Exited (status : Z) (printed : list O)
| Running (printed : list O).
Arguments Exited {O} status printed.
Arguments Running {O} printed.

(** The pointer arguments [&work->user, ..., &work->guest_nice] of the
    two [sscanf] calls on a /proc/stat line. *)
Definition set_user (v : Z) (t : cputime_t) : cputime_t :=
  mk_cputime v (nice t) (system t) (idle t) (iowait t)
    (irq t) (softirq t) (steal t) (guest t) (guest_nice t).
Definition set_nice (v : Z) (t : cputime_t) : cputime_t :=
  mk_cputime (user t) v (system t) (idle t) (iowait t)
    (irq t) (softirq t) (steal t) (guest t) (guest_nice t).
Definition set_system (v : Z) (t : cputime_t) : cputime_t :=
  mk_cputime (user t) (nice t) v (idle t) (iowait t)
    (irq t) (softirq t) (steal t) (guest t) (guest_nice t).
Definition set_idle (v : Z) (t : cputime_t) : cputime_t :=
  mk_cputime (user t) (nice t) (system t) v (iowait t)
    (irq t) (softirq t) (steal t) (guest t) (guest_nice t).
Definition set_iowait (v : Z) (t : cputime_t) : cputime_t :=
  mk_cputime (user t) (nice t) (system t) (idle t) v
    (irq t) (softirq t) (steal t) (guest t) (guest_nice t).
Definition set_irq (v : Z) (t : cputime_t) : cputime_t :=
  mk_cputime (user t) (nice t) (system t) (idle t) (iowait t)
    v (softirq t) (steal t) (guest t) (guest_nice t).
Definition set_softirq (v : Z) (t : cputime_t) : cputime_t :=
  mk_cputime (user t) (nice t) (system t) (idle t) (iowait t)
    (irq t) v (steal t) (guest t) (guest_nice t).
Definition set_steal (v : Z) (t : cputime_t) : cputime_t :=
  mk_cputime (user t) (nice t) (system t) (idle t) (iowait t)
    (irq t) (softirq t) v (guest t) (guest_nice t).
Definition set_guest (v : Z) (t : cputime_t) : cputime_t :=
  mk_cputime (user t) (nice t) (system t) (idle t) (iowait t)
    (irq t) (softirq t) (steal t) v (guest_nice t).
Definition set_guest_nice (v : Z) (t : cputime_t) : cputime_t :=
  mk_cputime (user t) (nice t) (system t) (idle t) (iowait t)
    (irq t) (softirq t) (steal t) (guest t) v.

Definition cputime_targets : list (Z -> cputime_t -> cputime_t) :=
  [set_user; set_nice; set_system; set_idle; set_iowait;
   set_irq; set_softirq; set_steal; set_guest; set_guest_nice].

(** The format of the aggregate line and of a core line. *)
Definition aggregate_format : string :=
  "cpu %lu %lu %lu %lu %lu %lu %lu %lu %lu %lu".
Definition core_format : string :=
  "cpu%*u %lu %lu %lu %lu %lu %lu %lu %lu %lu %lu".

(** [sscanf(line, format, &work->user, ...)] : the return value and the
    record the call leaves behind. *)
Definition scan_cputime (line format : string) (work : cputime_t)
  : Z * cputime_t :=
  let '(n, vs) := sscanf line format in
  (n, store cputime_targets vs work).

(** ** cpus.c: the whole system only *)

Module Cpus.

Definition read_stat (f : file) (cpu : cputime_t) : result_t * cputime_t :=
  match f with
  | None => (FAILURE, cpu)                       (* fopen *)
  | Some [] => (FAILURE, cpu)                    (* fgets *)
  | Some (line :: _) =>
      let cpu := zero_cputime in                 (* memset *)
      let '(n, cpu) := scan_cputime line aggregate_format cpu in
      if n <? 4 then (FAILURE, cpu) else (SUCCESS, cpu)
  end.

Definition show_result (before after : cputime_t) : report :=
  let diff := get_diff before after in
  let total := get_total diff in
  let load := get_load diff in
  let idle := get_idle diff in
  let iowait := get_iowait diff in
  let system := get_system diff in
  let user := get_user diff in
  let irq := get_irq diff in
  let guest := get_guest diff in
  let total := if total =? 0 then 1 else total in
  mk_report (mk_ratio load total) total idle iowait system user irq guest.

(** The body of [while (TRUE)], once per remaining sample.  The result
    of [read_stat] is not looked at. *)
Fixpoint main_loop (before after : cputime_t) (samples : list file)
  (printed : list report) : run report :=
  match samples with
  | [] => Running printed
  | f :: rest =>
      let '(_, after) := read_stat f after in
      let printed := printed ++ [show_result before after] in
      let before := after in
      main_loop before after rest printed
  end.

(** [main]; [before] and [after] are uninitialised locals, so their
    first contents are arguments. *)
Definition main (before after : cputime_t) (samples : list file)
  : run report :=
  match samples with
  | [] => Running []
  | f :: rest =>
      let '(_, before) := read_stat f before in
      main_loop before after rest []
  end.

End Cpus.

(** ** cpu.c: the whole system and every core *)

Module Cpu.

Record cpu_t : Type := mk_cpu {
  num : nat;                (* number of cores *)
  times : list cputime_t    (* [num + 1] records; the aggregate is last *)
}.

(** [malloc] gives memory of indeterminate content: [uninit] is what the
    [num + 1] records hold at first. *)
Definition new_cpu_t (num : nat) (uninit : nat -> cputime_t) : cpu_t :=
  mk_cpu num (map uninit (seq 0 (num + 1))).

(** The [for] loop over the core lines, [i] counting up. *)
Fixpoint read_cores (remaining i : nat) (lines : list string)
  (times : list cputime_t) : result_t * list cputime_t :=
  match remaining with
  | O => (SUCCESS, times)
  | S k =>
      match lines with
      | [] => (FAILURE, times)                   (* fgets *)
      | line :: rest =>
          let '(n, work) :=
            scan_cputime line core_format (nth i times zero_cputime) in
          let times := update i work times in
          if n <? 4 then (FAILURE, times)
          else read_cores k (S i) rest times
      end
  end.

Definition read_stat (f : file) (cpu : cpu_t) : result_t * cpu_t :=
  match f with
  | None => (FAILURE, cpu)
  | Some [] => (FAILURE, cpu)
  | Some (line :: rest) =>
      (* memset(cpu->times, 0, sizeof(cputime_t) * (cpu->num + 1)) *)
      let times := repeat zero_cputime (num cpu + 1)
                   ++ skipn (num cpu + 1) (times cpu) in
      let '(n, work) :=
        scan_cputime line aggregate_format
          (nth (num cpu) times zero_cputime) in
      let times := update (num cpu) work times in
      if n <? 4 then (FAILURE, mk_cpu (num cpu) times)
      else if (1 <? num cpu)%nat then
        let '(result, times) := read_cores (num cpu) 0 rest times in
        (result, mk_cpu (num cpu) times)
      else (SUCCESS, mk_cpu (num cpu) times)
  end.

(** One core's [printf("%5.1f%%", (float) load / total * 100)]. *)
Definition core_usage (before after : cputime_t) : ratio :=
  let diff := get_diff before after in
  let total := get_total diff in
  let load := get_load diff in
  let total := if total =? 0 then 1 else total in
  mk_ratio load total.

Definition show_result (before after : cpu_t) : report * list ratio :=
  let num := num before in
  let diff := get_diff (nth num (times before) zero_cputime)
                       (nth num (times after) zero_cputime) in
  let total := get_total diff in
  let load := get_load diff in
  let idle := get_idle diff in
  let iowait := get_iowait diff in
  let system := get_system diff in
  let user := get_user diff in
  let irq := get_irq diff in
  let guest := get_guest diff in
  let total := if total =? 0 then 1 else total in
  (mk_report (mk_ratio load total) total idle iowait system user irq guest,
   if (1 <? num)%nat
   then map (fun i => core_usage (nth i (times before) zero_cputime)
                                 (nth i (times after) zero_cputime))
            (seq 0 num)
   else []).

Fixpoint main_loop (before after : cpu_t) (samples : list file)
  (printed : list (report * list ratio)) : run (report * list ratio) :=
  match samples with
  | [] => Running printed
  | f :: rest =>
      match read_stat f after with
      | (FAILURE, _) => Exited EXIT_FAILURE printed        (* goto error *)
      | (SUCCESS, after) =>
          let printed := printed ++ [show_result before after] in
          main_loop after before rest printed              (* SWAP *)
      end
  end.

Definition main (num : nat) (uninit_after uninit_before : nat -> cputime_t)
  (samples : list file) : run (report * list ratio) :=
  let after := new_cpu_t num uninit_after in
  let before := new_cpu_t num uninit_before in
  match samples with
  | [] => Running []
  | f :: rest =>
      match read_stat f before with
      | (FAILURE, _) => Exited EXIT_FAILURE []
      | (SUCCESS, before) => main_loop before after rest []
      end
  end.

End Cpu.

(** ** [qsort]

    The library function is known by its contract only (ISO C 7.22.5.2):
    the array is permuted into ascending order of the comparison function,
    which must order the elements consistently; the order of elements that
    compare equal is unspecified. *)

Definition consistent {A : Type} (cmp : A -> A -> Z) (l : list A) : Prop :=
  (forall x y, In x l -> In y l -> Z.sgn (cmp y x) = - Z.sgn (cmp x y))
  /\ (forall x y z, In x l -> In y l -> In z l ->
        cmp x y <= 0 -> cmp y z <= 0 -> cmp x z <= 0).

Class Qsort : Type := {
  qsort : forall {A : Type}, (A -> A -> Z) -> list A -> list A;
  qsort_permutes :
    forall (A : Type) (cmp : A -> A -> Z) (l : list A),
      Permutation l (qsort cmp l);
  qsort_sorts :
    forall (A : Type) (cmp : A -> A -> Z) (l : list A),
      consistent cmp l ->
      StronglySorted (fun x y => cmp x y <= 0) (qsort cmp l)
}.

(** A sorting function that meets the contract, to run the programs
    with: insertion sort, which keeps equal elements in their order, as
    the merge sort of glibc does. *)
Fixpoint insert_sorted {A : Type} (cmp : A -> A -> Z) (x : A) (l : list A)
  : list A :=
  match l with
  | [] => [x]
  | y :: r => if cmp x y <=? 0 then x :: l else y :: insert_sorted cmp x r
  end.

Definition insertion_sort {A : Type} (cmp : A -> A -> Z) (l : list A)
  : list A :=
  fold_right (insert_sorted cmp) [] l.

(** ** cpup.c: the bookkeeping of the process array *)

Module Slots.

Definition INIT_PROCS : Z := 1024.
Definition INT_MAX : Z := 2 ^ 31 - 1.

(** The part of [cpu_t] that keeps the array of samples: the three
    counters and, for every entry of [procs], whether it holds a pointer
    that [xmalloc] gave ([false]: the entry was never set).  [xmalloc]
    and [xrealloc] are taken to return: they leave the program when the
    memory is used up. *)
Record cpu_t : Type := mk_cpu {
  proc_num : Z;
  alloc_num : Z;
  array_num : Z;
  procs : list bool
}.

(** [new_cpu_t] sets [proc_num] and [array_num] and allocates the array.
    It does not assign [alloc_num], which holds what [malloc] left there,
    [uninit]; the entries of the array are not set either. *)
Definition new_cpu_t (uninit : Z) : cpu_t :=
  mk_cpu 0 uninit INIT_PROCS (repeat false (Z.to_nat INIT_PROCS)).

Definition ensure_next_proc (cpu : cpu_t) : exec cpu_t :=
  let grown :=
    if array_num cpu =? proc_num cpu then
      if INT_MAX <? array_num cpu * 2
      then Undefined_behaviour               (* overflow of the [int] *)
      else
        (* xrealloc: the entries there are stay, the new ones are unset *)
        Returns (mk_cpu (proc_num cpu) (alloc_num cpu) (array_num cpu * 2)
                   (procs cpu
                    ++ repeat false (Z.to_nat (array_num cpu * 2)
                                     - List.length (procs cpu))))
    else Returns cpu in
  match grown with
  | Undefined_behaviour => Undefined_behaviour
  | Returns cpu =>
      if alloc_num cpu =? proc_num cpu then
        if (0 <=? alloc_num cpu) && (alloc_num cpu <? array_num cpu)
        then Returns (mk_cpu (proc_num cpu) (alloc_num cpu + 1)
                        (array_num cpu)
                        (update (Z.to_nat (alloc_num cpu)) true (procs cpu)))
        else Undefined_behaviour             (* a write outside the array *)
      else Returns cpu
  end.

(** What /proc/<pid>/stat is for [read_pid_stat]. *)
Inductive record : Type :=
| Unopened      (* fopen fails *)
| Empty         (* fgets fails *)
| Unparsable    (* parse_stat returns FAILURE *)
| Parsable.     (* parse_stat returns SUCCESS *)

(** An entry of /proc: a name that does not start with a digit, or the
    directory of a process. *)
Inductive entry : Type :=
| Other_name
| Numeric (r : record).

(** [process = cpu->procs[cpu->proc_num]; if (read_pid_stat(process, pid)
    == SUCCESS) cpu->proc_num++;] : with a line at hand [read_pid_stat]
    writes through [process]. *)
Definition use_slot (r : record) (cpu : cpu_t) : exec cpu_t :=
  if negb ((0 <=? proc_num cpu) && (proc_num cpu <? array_num cpu))
  then Undefined_behaviour                   (* a read outside the array *)
  else
    let allocated := nth (Z.to_nat (proc_num cpu)) (procs cpu) false in
    match r with
    | Unopened => Undefined_behaviour        (* fclose(NULL) *)
    | Empty => Returns cpu
    | Unparsable =>
        if allocated then Returns cpu else Undefined_behaviour
    | Parsable =>
        if allocated
        then Returns (mk_cpu (proc_num cpu + 1) (alloc_num cpu)
                        (array_num cpu) (procs cpu))
        else Undefined_behaviour
    end.

(** The [while ((dent = readdir(dir)) != NULL)] loop. *)
Fixpoint read_entries (entries : list entry) (cpu : cpu_t) : exec cpu_t :=
  match entries with
  | [] => Returns cpu
  | Other_name :: rest => read_entries rest cpu
  | Numeric r :: rest =>
      match ensure_next_proc cpu with
      | Undefined_behaviour => Undefined_behaviour
      | Returns cpu =>
          match use_slot r cpu with
          | Undefined_behaviour => Undefined_behaviour
          | Returns cpu => read_entries rest cpu
          end
      end
  end.

(** [read_process] with a directory that opens; [qsort] changes the
    order of the first [proc_num] pointers, which are all set. *)
Definition read_process (entries : list entry) (cpu : cpu_t) : exec cpu_t :=
  let cpu := mk_cpu 0 (alloc_num cpu) (array_num cpu) (procs cpu) in
  read_entries entries cpu.

(** One [read_process] after the other on the same buffer. *)
Fixpoint read_processes (reads : list (list entry)) (cpu : cpu_t)
  : exec cpu_t :=
  match reads with
  | [] => Returns cpu
  | entries :: rest =>
      match read_process entries cpu with
      | Undefined_behaviour => Undefined_behaviour
      | Returns cpu => read_processes rest cpu
      end
  end.

(** [delete_cpu_t]: [free(cpu->procs[i])] for [i < alloc_num]; the
    result is the number of samples freed. *)
Definition delete_cpu_t (cpu : cpu_t) : exec Z :=
  if alloc_num cpu <=? 0 then Returns 0
  else if (alloc_num cpu <=? array_num cpu)
          && forallb (fun b => b) (firstn (Z.to_nat (alloc_num cpu))
                                     (procs cpu))
  then Returns (alloc_num cpu)
  else Undefined_behaviour.                  (* free of an unset pointer *)

End Slots.

(** ** cpup.c: the whole system, every core and the busiest processes *)

Module Cpup.

Definition PR_NAME_LEN : nat := 16.
Definition DISPLAY_PROCESS_NUM : nat := 10.

Record process_t : Type := mk_process {
  pid : Z;
  comm : string;
  state : ascii;
  load : Z;
  utime : Z;
  stime : Z;
  cutime : Z;
  cstime : Z;
  priority : Z;
  nice : Z
}.

(** [procs] holds the [proc_num] samples that are in use.  The spare
    slots behind them are never read before they are written; the
    bookkeeping of the allocation ([alloc_num], which [new_cpu_t] leaves
    unset, and [array_num]) is kept apart, in [Slots.cpu_t]. *)
Record cpu_t : Type := mk_cpu {
  cpu_num : nat;
  times : list cputime_t;
  procs : list process_t
}.

Definition proc_num (cpu : cpu_t) : nat := List.length (procs cpu).

Definition new_cpu_t (num : nat) (uninit : nat -> cputime_t) : cpu_t :=
  mk_cpu num (map uninit (seq 0 (num + 1))) [].

Definition comp_pid (a b : process_t) : Z := to_int (pid a - pid b).

Definition comp_load (a b : process_t) : Z :=
  to_int (sub64 (load b) (load a)).

Fixpoint read_cores (remaining i : nat) (lines : list string)
  (times : list cputime_t) : result_t * list cputime_t :=
  match remaining with
  | O => (SUCCESS, times)
  | S k =>
      match lines with
      | [] => (FAILURE, times)
      | line :: rest =>
          let '(n, work) :=
            scan_cputime line core_format (nth i times zero_cputime) in
          let times := update i work times in
          if n <? 4 then (FAILURE, times)
          else read_cores k (S i) rest times
      end
  end.

Definition read_stat (f : file) (cpu : cpu_t) : result_t * cpu_t :=
  match f with
  | None => (FAILURE, cpu)
  | Some [] => (FAILURE, cpu)
  | Some (line :: rest) =>
      (* memset(cpu->times, 0, sizeof(cputime_t) * cpu->cpu_num) *)
      let times := repeat zero_cputime (cpu_num cpu)
                   ++ skipn (cpu_num cpu) (times cpu) in
      let '(n, work) :=
        scan_cputime line aggregate_format
          (nth (cpu_num cpu) times zero_cputime) in
      let times := update (cpu_num cpu) work times in
      if n <? 4 then (FAILURE, mk_cpu (cpu_num cpu) times (procs cpu))
      else if (1 <? cpu_num cpu)%nat then
        let '(result, times) := read_cores (cpu_num cpu) 0 rest times in
        (result, mk_cpu (cpu_num cpu) times (procs cpu))
      else (SUCCESS, mk_cpu (cpu_num cpu) times (procs cpu))
  end.

(** [memset(proc, 0, sizeof(process_t))]. *)
Definition zero_process : process_t :=
  mk_process 0 EmptyString "000"%char 0 0 0 0 0 0 0.

Definition set_pid (v : Z) (p : process_t) : process_t :=
  mk_process v (comm p) (state p) (load p) (utime p) (stime p)
    (cutime p) (cstime p) (priority p) (nice p).
Definition set_comm (v : string) (p : process_t) : process_t :=
  mk_process (pid p) v (state p) (load p) (utime p) (stime p)
    (cutime p) (cstime p) (priority p) (nice p).
Definition set_state (v : Z) (p : process_t) : process_t :=
  mk_process (pid p) (comm p) (ascii_of_N (Z.to_N v)) (load p) (utime p)
    (stime p) (cutime p) (cstime p) (priority p) (nice p).
Definition set_load (v : Z) (p : process_t) : process_t :=
  mk_process (pid p) (comm p) (state p) v (utime p) (stime p)
    (cutime p) (cstime p) (priority p) (nice p).
Definition set_utime (v : Z) (p : process_t) : process_t :=
  mk_process (pid p) (comm p) (state p) (load p) v (stime p)
    (cutime p) (cstime p) (priority p) (nice p).
Definition set_stime (v : Z) (p : process_t) : process_t :=
  mk_process (pid p) (comm p) (state p) (load p) (utime p) v
    (cutime p) (cstime p) (priority p) (nice p).
Definition set_cutime (v : Z) (p : process_t) : process_t :=
  mk_process (pid p) (comm p) (state p) (load p) (utime p) (stime p)
    v (cstime p) (priority p) (nice p).
Definition set_cstime (v : Z) (p : process_t) : process_t :=
  mk_process (pid p) (comm p) (state p) (load p) (utime p) (stime p)
    (cutime p) v (priority p) (nice p).
Definition set_priority (v : Z) (p : process_t) : process_t :=
  mk_process (pid p) (comm p) (state p) (load p) (utime p) (stime p)
    (cutime p) (cstime p) v (nice p).
Definition set_nice (v : Z) (p : process_t) : process_t :=
  mk_process (pid p) (comm p) (state p) (load p) (utime p) (stime p)
    (cutime p) (cstime p) (priority p) v.

(** [&proc->state, &proc->utime, ..., &proc->nice]. *)
Definition process_targets : list (Z -> process_t -> process_t) :=
  [set_state; set_utime; set_stime; set_cutime; set_cstime;
   set_priority; set_nice].

Definition process_format : string :=
  "%c%*d %*d %*d %*d %*d %*u %*u %*u %*u %*u %lu %lu %lu %lu %ld %ld ".

(** [strchr(s, c) + 1]: what follows the first [c]. *)
Fixpoint after_first (c : ascii) (s : string) : option string :=
  match s with
  | EmptyString => None
  | String c' r => if Ascii.eqb c' c then Some r else after_first c r
  end.

(** [strrchr(s, c) - s]: the offset of the last [c]. *)
Fixpoint last_offset (c : ascii) (s : string) : option nat :=
  match s with
  | EmptyString => None
  | String c' r =>
      match last_offset c r with
      | Some i => Some (S i)
      | None => if Ascii.eqb c' c then Some O else None
      end
  end.

(** [s + n]. *)
Fixpoint advance (n : nat) (s : string) : string :=
  match n, s with
  | O, _ => s
  | S k, String _ r => advance k r
  | S _, EmptyString => EmptyString
  end.

Definition parse_stat (line : string) (proc : process_t)
  : exec (result_t * process_t) :=
  match after_first "(" line with
  | None => Undefined_behaviour          (* strchr gave NULL *)
  | Some line =>
      match last_offset ")" line with
      | None => Undefined_behaviour      (* strrchr gave NULL *)
      | Some len =>
          let tmp := len in
          let len :=
            if (PR_NAME_LEN <=? len)%nat then (PR_NAME_LEN - 1)%nat
            else len in
          let proc := set_comm (substring 0 len line) proc in
          if (String.length line <? tmp + 2)%nat
          then Undefined_behaviour       (* tmp + 2 is behind the NUL *)
          else
            let line := advance (tmp + 2) line in
            let '(n, vs) := sscanf line process_format in
            let proc := store process_targets vs proc in
            if negb (n =? 7) then Returns (FAILURE, proc)
            else Returns (SUCCESS, proc)
      end
  end.

(** The process side of the counter source: the names [readdir] yields
    for /proc ([None] when [opendir] fails) and /proc/<pid>/stat. *)
Record proc_fs : Type := mk_proc_fs {
  proc_dir : option (list string);
  pid_stat : Z -> file
}.

(** On a failed [fopen] the function jumps to [error:], where it calls
    [fclose(file)] with [file == NULL]. *)
Definition read_pid_stat (fs : proc_fs) (proc : process_t) (pid : Z)
  : exec (result_t * process_t) :=
  match pid_stat fs pid with
  | None => Undefined_behaviour                  (* fclose(NULL) *)
  | Some [] => Returns (FAILURE, proc)           (* fgets *)
  | Some (line :: _) =>
      let proc := zero_process in                (* memset *)
      let proc := set_pid pid proc in
      parse_stat line proc
  end.

(** [atoi] of a name that starts with a digit (glibc: [(int) strtol]). *)
Definition atoi (name : string) : Z :=
  to_int (Z.min LONG_MAX (fst (read_digits name 0))).

Definition starts_with_digit (name : string) : bool :=
  match name with
  | String c _ => is_digit c
  | EmptyString => false
  end.

(** The [while ((dent = readdir(dir)) != NULL)] loop.  The slot
    [cpu->procs[cpu->proc_num]] is overwritten by [read_pid_stat] before
    it is read, so its old content is not tracked. *)
Fixpoint read_entries (fs : proc_fs) (names : list string)
  (procs : list process_t) : exec (list process_t) :=
  match names with
  | [] => Returns procs
  | d_name :: rest =>
      if starts_with_digit d_name then
        let pid := atoi d_name in
        match read_pid_stat fs zero_process pid with
        | Undefined_behaviour => Undefined_behaviour
        | Returns (SUCCESS, process) =>
            read_entries fs rest (procs ++ [process])   (* proc_num++ *)
        | Returns (FAILURE, _) => read_entries fs rest procs
        end
      else read_entries fs rest procs
  end.

(** What the bookkeeping of the process array sees of a directory
    entry: whether [read_process] calls [ensure_next_proc] for it, and
    how far [read_pid_stat] gets with its record. *)
Definition entry_of (fs : proc_fs) (d_name : string) : Slots.entry :=
  if starts_with_digit d_name then
    Slots.Numeric
      match pid_stat fs (atoi d_name) with
      | None => Slots.Unopened
      | Some [] => Slots.Empty
      | Some (line :: _) =>
          match parse_stat line (set_pid (atoi d_name) zero_process) with
          | Returns (SUCCESS, _) => Slots.Parsable
          | _ => Slots.Unparsable
          end
      end
  else Slots.Other_name.

Section WithQsort.
Context {Q : Qsort}.

Definition read_process (fs : proc_fs) (cpu : cpu_t)
  : exec (result_t * cpu_t) :=
  let cpu := mk_cpu (cpu_num cpu) (times cpu) [] in       (* proc_num = 0 *)
  match proc_dir fs with
  | None => Returns (FAILURE, cpu)                        (* opendir *)
  | Some names =>
      match read_entries fs names (procs cpu) with
      | Undefined_behaviour => Undefined_behaviour
      | Returns procs =>
          Returns (SUCCESS,
                   mk_cpu (cpu_num cpu) (times cpu) (qsort comp_pid procs))
      end
  end.

(** The cursor [j] of the merge walk: [before->procs + j], moved on while
    [j < before->proc_num && before->procs[j]->pid < a->pid]. *)
Fixpoint move_cursor (a_pid : Z) (before : list process_t)
  : list process_t :=
  match before with
  | b :: rest => if pid b <? a_pid then move_cursor a_pid rest else before
  | [] => []
  end.

(** The first [for] loop of [show_result_process]: [after] is walked in
    order, every [a->load] is set, and [j] is kept from one [a] to the
    next.  The result is both [list] and the new content of
    [after->procs], whose elements it points to. *)
Fixpoint load_loop (before after : list process_t) : list process_t :=
  match after with
  | [] => []
  | a :: rest =>
      let a := set_load (add64 (utime a) (stime a)) a in
      let before := move_cursor (pid a) before in
      let a :=
        match before with
        | b :: _ =>
            if pid a =? pid b
            then set_load (sub64 (load a) (add64 (utime b) (stime b))) a
            else a
        | [] => a
        end in
      a :: load_loop before rest
  end.

(** One line of the process table: the arguments of its [printf];
    [row_prio] is [None] where the text  rt  is printed. *)
Record row : Type := mk_row {
  row_pid : Z;
  row_prio : option Z;
  row_nice : Z;
  row_state : ascii;
  row_usage : ratio;
  row_load : Z;
  row_comm : string
}.

Definition show_row (total : Z) (p : process_t) : row :=
  let prio :=
    if (priority p >? 999) || (priority p <? -99) then None
    else Some (priority p) in
  mk_row (pid p) prio (nice p) (state p)
    (mk_ratio (load p) total) (load p) (comm p).

(** The process count that is printed, the table, and [after] with the
    loads written into its samples. *)
Definition show_result_process (total : Z) (before after : cpu_t)
  : (nat * list row) * cpu_t :=
  let num := proc_num after in
  let list := load_loop (procs before) (procs after) in
  let after := mk_cpu (cpu_num after) (times after) list in
  let list := qsort comp_load list in
  let display :=
    if (num <? DISPLAY_PROCESS_NUM)%nat then num else DISPLAY_PROCESS_NUM in
  ((num, map (show_row total) (firstn display list)), after).

Definition show_result_cpus (before after : cpu_t) : list ratio :=
  let num := cpu_num before in
  map (fun i =>
         let diff := get_diff (nth i (times before) zero_cputime)
                              (nth i (times after) zero_cputime) in
         let total := get_total diff in
         let load := get_load diff in
         let total := if total =? 0 then 1 else total in
         mk_ratio load total)
      (seq 0 num).

(** What one cycle prints. *)
Record cycle : Type := mk_cycle {
  c_report : report;
  c_cores : list ratio;
  c_processes : nat * list row
}.

Definition show_result (before after : cpu_t) : cycle * cpu_t :=
  let num := cpu_num before in
  let diff := get_diff (nth num (times before) zero_cputime)
                       (nth num (times after) zero_cputime) in
  let total := get_total diff in
  let load := get_load diff in
  let idle := get_idle diff in
  let iowait := get_iowait diff in
  let system := get_system diff in
  let user := get_user diff in
  let irq := get_irq diff in
  let guest := get_guest diff in
  let total := if total =? 0 then 1 else total in
  let line :=
    mk_report (mk_ratio load total) total idle iowait system user irq guest in
  let cores :=
    if (1 <? num)%nat then show_result_cpus before after else [] in
  let '(table, after) := show_result_process total before after in
  (mk_cycle line cores table, after).

(** One sample of both counter sources. *)
Record sample : Type := mk_sample {
  stat : file;
  processes : proc_fs
}.

(** [read_stat(x) != SUCCESS || read_process(x) != SUCCESS], with the
    buffer the two calls leave. *)
Definition read_both (s : sample) (cpu : cpu_t) : exec (result_t * cpu_t) :=
  match read_stat (stat s) cpu with
  | (FAILURE, cpu) => Returns (FAILURE, cpu)
  | (SUCCESS, cpu) => read_process (processes s) cpu
  end.

(** [read_process] on the bookkeeping of the array: [proc_num = 0],
    then the loop over the entries when the directory opens. *)
Definition read_process_slots (fs : proc_fs) (slots : Slots.cpu_t)
  : exec Slots.cpu_t :=
  match proc_dir fs with
  | None =>
      Returns (Slots.mk_cpu 0 (Slots.alloc_num slots)
                 (Slots.array_num slots) (Slots.procs slots))
  | Some names => Slots.read_process (map (entry_of fs) names) slots
  end.

(** A buffer of [main]: the records and samples, and the bookkeeping of
    the array the samples live in. *)
Definition buffer : Type := (cpu_t * Slots.cpu_t)%type.

(** [read_stat(x) != SUCCESS || read_process(x) != SUCCESS] on a buffer
    of [main]. *)
Definition read_buffer (s : sample) (b : buffer)
  : exec (result_t * buffer) :=
  match read_stat (stat s) (fst b) with
  | (FAILURE, cpu) => Returns (FAILURE, (cpu, snd b))
  | (SUCCESS, cpu) =>
      match read_process (processes s) cpu with
      | Undefined_behaviour => Undefined_behaviour
      | Returns (r, cpu) =>
          match read_process_slots (processes s) (snd b) with
          | Undefined_behaviour => Undefined_behaviour
          | Returns slots => Returns (r, (cpu, slots))
          end
      end
  end.

(** The way out at [error:]
    [delete_cpu_t(before); delete_cpu_t(after); return result;] *)
Definition leave (before after : buffer) (printed : list cycle)
  : exec (run cycle) :=
  match Slots.delete_cpu_t (snd before) with
  | Undefined_behaviour => Undefined_behaviour
  | Returns _ =>
      match Slots.delete_cpu_t (snd after) with
      | Undefined_behaviour => Undefined_behaviour
      | Returns _ => Returns (Exited EXIT_FAILURE printed)
      end
  end.

Fixpoint main_loop (before after : buffer) (samples : list sample)
  (printed : list cycle) : exec (run cycle) :=
  match samples with
  | [] => Returns (Running printed)
  | s :: rest =>
      match read_buffer s after with
      | Undefined_behaviour => Undefined_behaviour
      | Returns (FAILURE, after) => leave before after printed (* goto error *)
      | Returns (SUCCESS, after) =>
          let '(out, cpu) := show_result (fst before) (fst after) in
          main_loop (cpu, snd after) before rest (printed ++ [out]) (* SWAP *)
      end
  end.

(** [alloc_after] and [alloc_before] are what [malloc] left in the
    [alloc_num] of the two buffers. *)
Definition main (num : nat) (uninit_after uninit_before : nat -> cputime_t)
  (alloc_after alloc_before : Z) (samples : list sample)
  : exec (run cycle) :=
  let after := (new_cpu_t num uninit_after, Slots.new_cpu_t alloc_after) in
  let before := (new_cpu_t num uninit_before, Slots.new_cpu_t alloc_before) in
  match samples with
  | [] => Returns (Running [])
  | s :: rest =>
      match read_buffer s before with
      | Undefined_behaviour => Undefined_behaviour
      | Returns (FAILURE, before) => leave before after []
      | Returns (SUCCESS, before) => main_loop before after rest []
      end
  end.

End WithQsort.

End Cpup.

(** ** Vocabulary of the properties *)

(** Ascending by process id. *)
Definition pid_sorted (l : list Cpup.process_t) : Prop :=
  StronglySorted (fun a b => Cpup.pid a <= Cpup.pid b) l.

(** The load basis [utime + stime] of a sample. *)
Definition basis (p : Cpup.process_t) : Z :=
  add64 (Cpup.utime p) (Cpup.stime p).

(** The sample of process [v] in a list, if it has one. *)
Definition find_pid (v : Z) (l : list Cpup.process_t)
  : option Cpup.process_t :=
  find (fun b => Cpup.pid b =? v) l.

(** The load of [a] against the samples [before], as the merge walk
    leaves it: the basis of a new process, the uint64 difference of the
    two bases otherwise. *)
Definition walked_load (before : list Cpup.process_t) (a : Cpup.process_t)
  : Z :=
  match find_pid (Cpup.pid a) before with
  | None => basis a
  | Some b => sub64 (basis a) (basis b)
  end.

(** The load of [a] as the specification words it: the difference of the
    two bases, clamped to 0 when the earlier basis is the larger one. *)
Definition clamped_load (before : list Cpup.process_t) (a : Cpup.process_t)
  : Z :=
  match find_pid (Cpup.pid a) before with
  | None => basis a
  | Some b => if basis a <? basis b then 0 else basis a - basis b
  end.

(** The order the specification gives the table: load descending, and
    process id ascending among equal loads. *)
Definition ranked (l : list Cpup.row) : Prop :=
  StronglySorted
    (fun r1 r2 =>
       Cpup.row_load r2 < Cpup.row_load r1
       \/ (Cpup.row_load r1 = Cpup.row_load r2
           /\ Cpup.row_pid r1 < Cpup.row_pid r2)) l.

(** The same order on the samples the rows are printed from. *)
Definition ranked_before (a b : Cpup.process_t) : Prop :=
  Cpup.load b < Cpup.load a
  \/ (Cpup.load a = Cpup.load b /\ Cpup.pid a < Cpup.pid b).

(** Strictly ascending by process id: sorted, and no process id twice. *)
Definition pid_strictly_sorted (l : list Cpup.process_t) : Prop :=
  StronglySorted (fun a b => Cpup.pid a < Cpup.pid b) l.

(** Load descending, whatever the order among equal loads. *)
Definition load_descending (l : list Cpup.row) : Prop :=
  StronglySorted (fun r1 r2 => Cpup.row_load r2 <= Cpup.row_load r1) l.

(** A sample of a running process with the given ticks, for the
    examples. *)
Definition sample_process (pid utime stime : Z) : Cpup.process_t :=
  Cpup.mk_process pid "p" "R" 0 utime stime 0 0 20 0.

(** A snapshot that holds the given process samples. *)
Definition snapshot_of (procs : list Cpup.process_t) : Cpup.cpu_t :=
  Cpup.mk_cpu 1 [zero_cputime; zero_cputime] procs.

(** The table of [show_result_process]. *)
Definition table_of (Q : Qsort) (total : Z) (before after : Cpup.cpu_t)
  : list Cpup.row :=
  snd (fst (Cpup.show_result_process total before after)).

(** What the aggregator owes for a delta [d]: the usage is load over
    total; a zero total is replaced by 1 and the percentage is then 0; a
    positive total gives a percentage between 0 and 100. *)
Definition usage_ok (d : cputime_t) (u : ratio) : Prop :=
  numerator u = get_load d
  /\ (get_total d = 0 -> denominator u = 1 /\ (percent u == 0)%Q)
  /\ (0 < get_total d ->
      denominator u = get_total d
      /\ (0 <= percent u)%Q /\ (percent u <= inject_Z 100)%Q).

(** The directives of a format that store a value. *)
Definition storing (d : directive) : bool :=
  match d with
  | Conv C_lu | Conv C_ld | Conv C_c => true
  | _ => false
  end.

(** The record of process [pid] can be read without running into
    undefined behaviour: it opens, and if it has a line, the line has its
    parentheses and something behind them. *)
Definition record_readable (fs : Cpup.proc_fs) (pid : Z) : Prop :=
  exists r p, Cpup.read_pid_stat fs Cpup.zero_process pid = Returns (r, p).

(** The names [readdir] yields denote process ids: what starts with a
    digit is a non-negative [int]. *)
Definition names_are_pids (names : list string) : Prop :=
  Forall (fun name =>
            Cpup.starts_with_digit name = true -> 0 <= Cpup.atoi name)
    names.

(** A /proc/<pid>/stat line as the kernel writes it. *)
Definition stat_line (pid comm rest : string) : string :=
  (pid ++ " (" ++ comm ++ ") " ++ rest ++ newline)%string.

(** ** Vocabulary of the further properties *)

(** Field by field [a + b] on [uint64_t]: a delta put back on a sample. *)
Definition add_cputime (a b : cputime_t) : cputime_t :=
  {| user := add64 (user a) (user b);
     nice := add64 (nice a) (nice b);
     system := add64 (system a) (system b);
     idle := add64 (idle a) (idle b);
     iowait := add64 (iowait a) (iowait b);
     irq := add64 (irq a) (irq b);
     softirq := add64 (softirq a) (softirq b);
     steal := add64 (steal a) (steal b);
     guest := add64 (guest a) (guest b);
     guest_nice := add64 (guest_nice a) (guest_nice b) |}.

(** The line printed when nothing was counted: usage 0 over the floor 1,
    T:1 and 0 in every category. *)
Definition idle_report : report :=
  mk_report (mk_ratio 0 1) 1 0 0 0 0 0 0.

(** [g] on every two neighbours of a list, in order. *)
Fixpoint consecutive {A B : Type} (g : A -> A -> B) (l : list A) : list B :=
  match l with
  | x :: (y :: _) as rest => g x y :: consecutive g rest
  | _ => []
  end.

(** What [read_stat] of cpu.c makes of a sample of /proc/stat on a
    machine with [num] cores: its result and the buffer it leaves, read
    into a cleared buffer. *)
Definition cpu_read (num : nat) (f : file) : result_t * Cpu.cpu_t :=
  Cpu.read_stat f (Cpu.new_cpu_t num (fun _ => zero_cputime)).

Definition cpu_readable (num : nat) (f : file) : Prop :=
  fst (cpu_read num f) = SUCCESS.

(** The number of fields a core line yields. *)
Definition core_fields (line : string) : Z := fst (sscanf line core_format).

(** A buffer of cpu.c for [n] cores: [n + 1] records. *)
Definition cpu_buffer (n : nat) (cpu : Cpu.cpu_t) : Prop :=
  Cpu.num cpu = n /\ List.length (Cpu.times cpu) = (n + 1)%nat.

(** The ten fields a line leaves in a cleared record: the values it
    yields under [format], then 0. *)
Definition fields_of_line (line format : string) : list Z :=
  let vs := snd (sscanf line format) in
  vs ++ repeat 0 (10 - List.length vs).

(** The buffer [read_stat] of cpu.c fills from a sample. *)
Definition cpu_snapshot (num : nat) (f : file) : Cpu.cpu_t :=
  snd (cpu_read num f).

(** How a run ends on the samples it was given: still running when all
    of them were read, left with EXIT_FAILURE when one was not. *)
Definition run_end {O : Type} (unread : list file) (printed : list O)
  : run O :=
  match unread with
  | [] => Running printed
  | _ :: _ => Exited EXIT_FAILURE printed
  end.

(** The first of the samples left, if there is one, cannot be read. *)
Definition stops_at (num : nat) (unread : list file) : Prop :=
  match unread with
  | [] => True
  | f :: _ => fst (cpu_read num f) = FAILURE
  end.

(** The records [after] of cpus.c holds after each read of a run, the
    failed reads included. *)
Fixpoint cpus_records (after : cputime_t) (samples : list file)
  : list cputime_t :=
  match samples with
  | [] => []
  | f :: rest =>
      let after := snd (Cpus.read_stat f after) in
      after :: cpus_records after rest
  end.

(** The record a sample with a first line leaves in cpus.c. *)
Definition cpus_snapshot (f : file) : cputime_t :=
  snd (Cpus.read_stat f zero_cputime).

(** The sample has a first line. *)
Definition has_line (f : file) : Prop :=
  exists line rest, f = Some (line :: rest).

(** [fopen] or [fgets] fails on the sample. *)
Definition no_line (f : file) : Prop := f = None \/ f = Some [].

(** A sample with its load put aside: what the merge walk does not
    touch. *)
Definition without_load (p : Cpup.process_t) : Cpup.process_t :=
  Cpup.set_load 0 p.

(** The character [c] occurs in [s]. *)
Fixpoint has_char (c : ascii) (s : string) : bool :=
  match s with
  | EmptyString => false
  | String c' r => Ascii.eqb c' c || has_char c r
  end.

(** A /proc/<pid>/stat line in its parts: what stands before the first
    opening parenthesis, the command name, the closing parenthesis, one
    more character, and the fields. *)
Definition stat_record (pre comm : string) (sep : ascii) (tail : string)
  : string :=
  (pre ++ String "(" (comm ++ String ")" (String sep tail)))%string.

(** The first [n] characters of a string. *)
Definition prefix (n : nat) (s : string) : string := substring 0 n s.

(** The sample that the loop of [read_process] takes from a directory
    entry: none for a name that does not start with a digit or whose
    record is not accepted. *)
Definition collected_from (fs : Cpup.proc_fs) (d_name : string)
  : list Cpup.process_t :=
  if Cpup.starts_with_digit d_name then
    match Cpup.read_pid_stat fs Cpup.zero_process (Cpup.atoi d_name) with
    | Returns (SUCCESS, p) => [p]
    | _ => []
    end
  else [].

(** The samples of a whole listing, in the order of the listing. *)
Definition collected (fs : Cpup.proc_fs) (names : list string)
  : list Cpup.process_t :=
  flat_map (collected_from fs) names.

(** Every record of the listing can be read. *)
Definition all_readable (fs : Cpup.proc_fs) (names : list string) : Prop :=
  Forall (fun name =>
            Cpup.starts_with_digit name = true ->
            record_readable fs (Cpup.atoi name)) names.

(** cpu.c, [show_title]: behind the fixed heading, one column  cpu<i>
    per core when there is more than one core; the result is the list of
    the indices printed. *)
Definition show_title (num : nat) : list nat :=
  if (1 <? num)%nat then seq 0 num else [].

(** The names of a sample's listing are process ids. *)
Definition listing_is_pids (s : Cpup.sample) : Prop :=
  forall names,
    Cpup.proc_dir (Cpup.processes s) = Some names -> names_are_pids names.

(** The lines a run has printed so far. *)
Definition printed_lines {O : Type} (r : run O) : list O :=
  match r with
  | Exited _ printed => printed
  | Running printed => printed
  end.

(** The size of the line buffer that [fgets] fills. *)
Definition LINE_BUFFER_SIZE : nat := 1024.

(** [fgets] returns the line whole: it fits the buffer with its end. *)
Definition fits_line_buffer (line : string) : Prop :=
  (String.length line < LINE_BUFFER_SIZE)%nat.

(** [fgets(line, room + 1, file)] on what is left of a file: the
    characters up to the first newline and that newline, [room] of them
    at most, and what is left behind them. *)
Fixpoint fgets (room : nat) (content : string) : string * string :=
  match room, content with
  | S k, String c r =>
      if Ascii.eqb c "010" then (String c EmptyString, r)
      else let '(line, rest) := fgets k r in (String c line, rest)
  | _, _ => (EmptyString, content)
  end.

(** The chunks that one [fgets(line, sizeof(line), file)] after the other
    returns until the file is at its end.  Every chunk takes a character
    at least, so [fuel] characters of content need no more calls. *)
Fixpoint fgets_all (fuel : nat) (content : string) : list string :=
  match fuel, content with
  | S f, String _ _ =>
      let '(line, rest) := fgets (LINE_BUFFER_SIZE - 1) content in
      line :: fgets_all f rest
  | _, _ => []
  end.

(** A file of the given content, as [fopen] and [fgets] show it. *)
Definition lines_read (content : string) : list string :=
  fgets_all (String.length content) content.

(** A counter as the kernel prints it: in decimal, without sign. *)
Definition decimal (n : N) : string :=
  DecimalString.NilEmpty.string_of_uint (N.to_uint n).

(** A signed field as the kernel prints it. *)
Definition decimal_int (z : Z) : string :=
  DecimalString.NilEmpty.string_of_int (Z.to_int z).

(** Counters in a row, each behind one blank. *)
Fixpoint numerals (vs : list N) : string :=
  match vs with
  | [] => EmptyString
  | v :: rest => (" " ++ decimal v ++ numerals rest)%string
  end.

(** Signed fields in a row, each behind one blank. *)
Fixpoint signed_numerals (zs : list Z) : string :=
  match zs with
  | [] => EmptyString
  | z :: rest => (" " ++ decimal_int z ++ signed_numerals rest)%string
  end.

(** A line of /proc/stat as the kernel writes it: the label, the
    counters, the end of the line. *)
Definition counters_line (label : string) (vs : list N) : string :=
  (label ++ numerals vs ++ newline)%string.

(** The aggregate line: the label  cpu  and one more blank. *)
Definition aggregate_line (vs : list N) : string := counters_line "cpu " vs.

(** The line of core [i]. *)
Definition core_line (i : N) (vs : list N) : string :=
  counters_line ("cpu" ++ decimal i) vs.

(** The ten fields of a record read from counters: the first ten of
    them, 0 where there are fewer. *)
Definition counters (vs : list N) : list Z :=
  let zs := map Z.of_N (firstn 10 vs) in
  zs ++ repeat 0 (10 - List.length zs).

(** The value of a numeral, digit after digit from [acc]. *)
Fixpoint horner (d : Decimal.uint) (acc : Z) : Z :=
  match d with
  | Decimal.Nil => acc
  | Decimal.D0 l => horner l (10 * acc + 0)
  | Decimal.D1 l => horner l (10 * acc + 1)
  | Decimal.D2 l => horner l (10 * acc + 2)
  | Decimal.D3 l => horner l (10 * acc + 3)
  | Decimal.D4 l => horner l (10 * acc + 4)
  | Decimal.D5 l => horner l (10 * acc + 5)
  | Decimal.D6 l => horner l (10 * acc + 6)
  | Decimal.D7 l => horner l (10 * acc + 7)
  | Decimal.D8 l => horner l (10 * acc + 8)
  | Decimal.D9 l => horner l (10 * acc + 9)
  end.

(** The input does not go on with a digit. *)
Definition no_digit_ahead (s : string) : Prop :=
  match s with
  | EmptyString => True
  | String c _ => is_digit c = false
  end.

(** The [n] pairs  white space, %lu  at the end of the two formats. *)
Fixpoint lu_fields (n : nat) : list directive :=
  match n with
  | O => []
  | S k => Space :: Conv C_lu :: lu_fields k
  end.

(** The lines of the cores [i], [i + 1], ... *)
Fixpoint core_lines (i : N) (cores : list (list N)) : list string :=
  match cores with
  | [] => []
  | vs :: rest => core_line i vs :: core_lines (N.succ i) rest
  end.

(** /proc/stat as the kernel writes it: the aggregate line, one line for
    each core, then lines on other matters. *)
Definition proc_stat (agg : list N) (cores : list (list N))
  (others : list string) : file :=
  Some (aggregate_line agg :: core_lines 0 cores ++ others).

(** The lines of the counters fit the line buffer. *)
Definition lines_fit (agg : list N) (cores : list (list N)) : Prop :=
  Forall fits_line_buffer (aggregate_line agg :: core_lines 0 cores).

(** Every counter of the line fits [unsigned long], and there are at
    least the four that every kernel prints. *)
Definition counter_row (vs : list N) : Prop :=
  (4 <= List.length vs)%nat /\ Forall (fun v => (v < 2 ^ 64)%N) vs.

(** A line of /proc/<pid>/stat as the kernel writes it: the process id,
    the command name in parentheses, the state, and the numeric fields,
    each behind one blank. *)
Definition pid_stat_line (pid : N) (comm : string) (state : ascii)
  (values : list Z) : string :=
  (decimal pid ++ " ("
   ++ comm ++ String ")" (String " "
        (String state (signed_numerals values ++ newline))))%string.

(** The fields of the line in the order of proc(5): the ten fields from
    ppid to cmajflt, which the program skips, the four times, priority
    and nice, and the fields behind them. *)
Definition stat_values (skipped : list Z)
  (utime stime cutime cstime priority nice : Z) (more : list Z) : list Z :=
  skipped ++ [utime; stime; cutime; cstime; priority; nice] ++ more.

(** The value a conversion stores for a numeral, if it stores one. *)
Definition stored_value (k : conversion) (z : Z) : list Z :=
  match k with
  | C_lu => [ulong_of (z <? 0) (Z.abs z)]
  | C_ld => [long_of (z <? 0) (Z.abs z)]
  | _ => []
  end.

(** The conversions of an integer. *)
Definition integer_conversion (k : conversion) : bool :=
  match k with C_c => false | _ => true end.

(** A command name that a line of text can hold: without a newline, at
    which [fgets] stops, and without a NUL, at which the C string ends. *)
Definition command_name (comm : string) : Prop :=
  has_char "010" comm = false /\ has_char "000" comm = false.

(** A state character: not the closing parenthesis, which [strrchr]
    looks for, and neither a newline nor a NUL. *)
Definition state_char (c : ascii) : Prop :=
  c <> ")"%char /\ c <> "010"%char /\ c <> "000"%char.







(** The bookkeeping is in order: the counters are in line, the array has
    [array_num] entries, and the entries that are set are the first
    [alloc_num]. *)
Definition slots_in_order (cpu : Slots.cpu_t) : Prop :=
  0 <= Slots.proc_num cpu <= Slots.alloc_num cpu
  /\ Slots.alloc_num cpu <= Slots.array_num cpu <= Slots.INT_MAX
  /\ 0 < Slots.array_num cpu
  /\ Z.of_nat (List.length (Slots.procs cpu)) = Slots.array_num cpu
  /\ forall i : nat,
       nth i (Slots.procs cpu) false = true
       <-> Z.of_nat i < Slots.alloc_num cpu.

(** The record can be opened. *)
Definition opened (e : Slots.entry) : Prop := e <> Slots.Numeric Slots.Unopened.

(** A listing of /proc that an [int] can count twice over. *)
Definition countable (entries : list Slots.entry) : Prop :=
  Forall opened entries /\ Z.of_nat (List.length entries) < 2 ^ 30.

(** The entry does not make [read_pid_stat] write a sample. *)
Definition writes_nothing (e : Slots.entry) : Prop :=
  e = Slots.Other_name \/ e = Slots.Numeric Slots.Empty.

(** * Properties *)

(** ** Facts on the machine integers, the delta engine and the
    aggregator *)

Lemma add64_range a b : is_uint64 (add64 a b).
Proof. unfold is_uint64, add64, UINT64_MOD. apply Z.mod_pos_bound. lia. Qed.

Lemma sub64_range a b : is_uint64 (sub64 a b).
Proof. unfold is_uint64, sub64, UINT64_MOD. apply Z.mod_pos_bound. lia. Qed.

Lemma sub64_exact a b : 0 <= a - b < UINT64_MOD -> sub64 a b = a - b.
Proof. intros H. unfold sub64. now apply Z.mod_small. Qed.

Lemma sub64_wrapped a b :
  is_uint64 a -> is_uint64 b -> a < b -> sub64 a b = a - b + UINT64_MOD.
Proof.
  unfold is_uint64, sub64, UINT64_MOD. intros Ha Hb Hlt.
  symmetry. apply Z.mod_unique with (q := -1); lia.
Qed.

Lemma to_int_small z : - 2 ^ 31 <= z < 2 ^ 31 -> to_int z = z.
Proof. intros H. unfold to_int. rewrite Z.mod_small; lia. Qed.

Lemma is_uint64b_spec z : is_uint64b z = true <-> is_uint64 z.
Proof. unfold is_uint64b, is_uint64. rewrite andb_true_iff. lia. Qed.

Lemma wf_cputimeb_spec t : wf_cputimeb t = true -> wf_cputime t.
Proof.
  unfold wf_cputimeb, wf_cputime. rewrite forallb_forall, Forall_forall.
  intros H x Hx. apply is_uint64b_spec. now apply H.
Qed.

Lemma DIFF_is_sub64 b a : DIFF b a = sub64 a b.
Proof.
  unfold DIFF. pose proof (sub64_range a b) as [H _].
  destruct (Z.ltb_spec (sub64 a b) 0); [lia | reflexivity].
Qed.

Lemma DIFF_monotone b a :
  is_uint64 a -> is_uint64 b -> b <= a -> DIFF b a = a - b.
Proof.
  intros Ha Hb Hle. rewrite DIFF_is_sub64. apply sub64_exact.
  unfold is_uint64 in *. lia.
Qed.

Lemma DIFF_wraps b a :
  is_uint64 a -> is_uint64 b -> a < b -> DIFF b a = a - b + UINT64_MOD.
Proof. intros Ha Hb Hlt. rewrite DIFF_is_sub64. now apply sub64_wrapped. Qed.

Lemma get_diff_wf before after : wf_cputime (get_diff before after).
Proof.
  unfold wf_cputime, fields, get_diff; simpl.
  repeat constructor; rewrite DIFF_is_sub64; apply sub64_range.
Qed.

Lemma add64_congr a a' b :
  a mod UINT64_MOD = a' mod UINT64_MOD -> add64 a b = (a' + b) mod UINT64_MOD.
Proof.
  intros H. unfold add64.
  rewrite <- (Zplus_mod_idemp_l a), H, Zplus_mod_idemp_l. reflexivity.
Qed.

Lemma add64_congr_mod a a' b :
  a mod UINT64_MOD = a' mod UINT64_MOD ->
  add64 a b mod UINT64_MOD = (a' + b) mod UINT64_MOD.
Proof.
  intros H. rewrite <- (add64_congr a a' b H). unfold add64.
  apply Z.mod_mod. unfold UINT64_MOD. lia.
Qed.

Lemma get_total_sum t : get_total t = sum_all t mod UINT64_MOD.
Proof.
  unfold get_total, sum_all.
  apply add64_congr. repeat apply add64_congr_mod. reflexivity.
Qed.

Lemma get_load_sum t : get_load t = sum_busy t mod UINT64_MOD.
Proof.
  unfold get_load, sum_busy.
  apply add64_congr. repeat apply add64_congr_mod. reflexivity.
Qed.

Lemma wf_fields t :
  wf_cputime t ->
  0 <= user t /\ 0 <= nice t /\ 0 <= system t /\ 0 <= idle t /\
  0 <= iowait t /\ 0 <= irq t /\ 0 <= softirq t /\ 0 <= steal t /\
  0 <= guest t /\ 0 <= guest_nice t.
Proof.
  unfold wf_cputime, fields, is_uint64. intros H.
  repeat match goal with
         | H : Forall _ (_ :: _) |- _ => inversion H; subst; clear H
         end.
  repeat split; lia.
Qed.

(** C1, the part the code does deliver: a counter that did not decrease
    yields its plain difference. *)
Lemma get_diff_monotone before after :
  wf_cputime before -> wf_cputime after ->
  Forall2 Z.le (fields before) (fields after) ->
  fields (get_diff before after)
  = map (fun p => snd p - fst p) (combine (fields before) (fields after)).
Proof.
  unfold wf_cputime, fields, get_diff; simpl. intros Hb Ha Hle.
  repeat match goal with
         | H : Forall _ (_ :: _) |- _ => inversion H; subst; clear H
         | H : Forall2 _ (_ :: _) (_ :: _) |- _ => inversion H; subst; clear H
         end.
  rewrite !DIFF_monotone by assumption. reflexivity.
Qed.

(** C1 (code defect).  [tmp] is unsigned, so [tmp < 0] never holds and a
    decreasing counter is not clamped: with every counter going from 1 to
    0 the delta is 2^64 - 1 in every field, not the all-zero record. *)
Theorem get_diff_decreasing_wraps :
  let before := mk_cputime 1 1 1 1 1 1 1 1 1 1 in
  let after := zero_cputime in
  fields (get_diff before after) = repeat ULONG_MAX 10
  /\ get_diff before after <> zero_cputime.
Proof.
  split; [vm_compute; reflexivity | discriminate].
Qed.

Lemma total_load_identity_exact d :
  wf_cputime d -> sum_all d < UINT64_MOD ->
  get_total d = sum_all d /\ get_load d = sum_busy d
  /\ get_total d = get_load d + idle d + iowait d.
Proof.
  intros Hwf Hsmall. pose proof (wf_fields d Hwf) as Hpos.
  assert (Ht : get_total d = sum_all d).
  { rewrite get_total_sum. apply Z.mod_small. unfold sum_all in *. lia. }
  assert (Hl : get_load d = sum_busy d).
  { rewrite get_load_sum. apply Z.mod_small.
    unfold sum_all, sum_busy in *. lia. }
  rewrite Ht, Hl. unfold sum_all, sum_busy. repeat split. lia.
Qed.

(** C4.  [get_total] is the (uint64) sum of the ten fields, [get_load] the
    (uint64) sum of the eight fields other than idle and iowait, and
    total == load + idle + iowait in the program's arithmetic, for every
    record; the three equalities are exact integer equalities whenever the
    ten fields sum to less than 2^64. *)
Theorem total_load_identity (d : cputime_t) :
  wf_cputime d ->
  get_total d = sum_all d mod UINT64_MOD
  /\ get_load d = sum_busy d mod UINT64_MOD
  /\ get_total d = add64 (add64 (get_load d) (idle d)) (iowait d)
  /\ (sum_all d < UINT64_MOD ->
      get_total d = sum_all d /\ get_load d = sum_busy d
      /\ get_total d = get_load d + idle d + iowait d).
Proof.
  intros Hwf. pose proof (wf_fields d Hwf) as Hpos.
  split; [apply get_total_sum |].
  split; [apply get_load_sum |].
  split.
  - rewrite get_total_sum.
    rewrite (add64_congr (add64 (get_load d) (idle d))
               (sum_busy d + idle d) (iowait d)).
    + unfold sum_all, sum_busy. f_equal. lia.
    + apply add64_congr_mod. rewrite get_load_sum.
      apply Z.mod_mod. unfold UINT64_MOD. lia.
  - intros Hsmall. now apply total_load_identity_exact.
Qed.

Lemma total_load_identity_witness :
  let d := mk_cputime 20 0 10 20 0 0 0 0 0 0 in
  get_total d = 50 /\ get_load d = 30
  /\ get_total d = get_load d + idle d + iowait d.
Proof.
  intros d.
  assert (Hwf : wf_cputime d).
  { apply wf_cputimeb_spec. vm_compute. reflexivity. }
  destruct (total_load_identity d Hwf) as (_ & _ & _ & Hexact).
  destruct Hexact as (Ht & Hl & Hid); [vm_compute; reflexivity |].
  split; [exact Ht | split; [exact Hl | exact Hid]].
Defined.

(** ** The two sorting functions meet the contract of [qsort] *)

Section InsertionSort.
Context {A : Type} (cmp : A -> A -> Z).

Let le (x y : A) : Prop := cmp x y <= 0.

Lemma insert_sorted_perm x l : Permutation (x :: l) (insert_sorted cmp x l).
Proof.
  induction l as [| y r IH]; simpl; [reflexivity |].
  destruct (cmp x y <=? 0); [reflexivity |].
  rewrite perm_swap. now apply perm_skip.
Qed.

Lemma insertion_sort_perm l : Permutation l (insertion_sort cmp l).
Proof.
  induction l as [| x r IH]; simpl; [constructor |].
  rewrite <- insert_sorted_perm. now apply perm_skip.
Qed.

Lemma insert_sorted_In x l z : In z (insert_sorted cmp x l) -> z = x \/ In z l.
Proof.
  intros H.
  apply (Permutation_in _ (Permutation_sym (insert_sorted_perm x l))) in H.
  destruct H; auto.
Qed.

Lemma insert_sorted_sorted (univ : list A) x l :
  consistent cmp univ -> In x univ -> incl l univ ->
  StronglySorted le l -> StronglySorted le (insert_sorted cmp x l).
Proof.
  intros [Hanti Htrans] Hx.
  induction l as [| y r IH]; intros Hincl Hs; simpl.
  - repeat constructor.
  - assert (Hy : In y univ) by (apply Hincl; now left).
    assert (Hr : incl r univ) by (intros z Hz; apply Hincl; now right).
    inversion Hs as [| ? ? Hsr Hall]; subst.
    destruct (Z.leb_spec (cmp x y) 0) as [Hle | Hgt].
    + constructor; [exact Hs |].
      constructor; [exact Hle |].
      rewrite Forall_forall in *. intros z Hz.
      apply (Htrans x y z); auto. now apply Hall.
    + constructor; [now apply IH |].
      rewrite Forall_forall in *. intros z Hz.
      apply insert_sorted_In in Hz. destruct Hz as [-> | Hz]; [| now apply Hall].
      unfold le. specialize (Hanti x y Hx Hy). lia.
Qed.

Lemma insertion_sort_sorted l :
  consistent cmp l -> StronglySorted le (insertion_sort cmp l).
Proof.
  intros Hc.
  assert (H : forall l', incl l' l -> StronglySorted le (insertion_sort cmp l')).
  { induction l' as [| x r IH]; intros Hincl; simpl; [constructor |].
    apply (insert_sorted_sorted l); auto.
    - apply Hincl. now left.
    - intros z Hz. apply Hincl. right.
      now apply (Permutation_in _ (Permutation_sym (insertion_sort_perm r))).
    - apply IH. intros z Hz. apply Hincl. now right. }
  apply H, incl_refl.
Qed.

Lemma consistent_perm l l' :
  Permutation l l' -> consistent cmp l -> consistent cmp l'.
Proof.
  intros Hp [Hanti Htrans].
  assert (Hin : forall z, In z l' -> In z l).
  { intros z. apply Permutation_in. now symmetry. }
  split.
  - intros x y Hx Hy. apply Hanti; auto.
  - intros x y z Hx Hy Hz. apply Htrans; auto.
Qed.

End InsertionSort.

(** Insertion sort: elements that compare equal keep their order. *)
#[local] Instance stable_qsort : Qsort := {|
  qsort := @insertion_sort;
  qsort_permutes := @insertion_sort_perm;
  qsort_sorts := @insertion_sort_sorted
|}.

(** ** The merge walk of the process ranker *)

Lemma set_load_twice v w p :
  Cpup.set_load v (Cpup.set_load w p) = Cpup.set_load v p.
Proof. destruct p; reflexivity. Qed.

Lemma find_skip {A : Type} (f : A -> bool) l1 l2 :
  Forall (fun x => f x = false) l1 -> find f (l1 ++ l2) = find f l2.
Proof.
  induction 1 as [| x l Hx _ IH]; simpl; [reflexivity |].
  now rewrite Hx.
Qed.

Lemma find_all_false {A : Type} (f : A -> bool) l :
  Forall (fun x => f x = false) l -> find f l = None.
Proof.
  intros H. rewrite <- (app_nil_r l). now rewrite find_skip.
Qed.

Lemma move_cursor_split v bs :
  exists dropped,
    bs = dropped ++ Cpup.move_cursor v bs
    /\ Forall (fun b => Cpup.pid b < v) dropped
    /\ match Cpup.move_cursor v bs with
       | b :: _ => v <= Cpup.pid b
       | [] => True
       end.
Proof.
  induction bs as [| b r IH]; simpl.
  - exists []. repeat split; constructor.
  - destruct (Z.ltb_spec (Cpup.pid b) v) as [Hlt | Hge].
    + destruct IH as (d & Heq & Hd & Hhead).
      exists (b :: d). repeat split; [simpl; now f_equal | now constructor | exact Hhead].
    + exists []. repeat split; [constructor | exact Hge].
Qed.

Lemma pid_sorted_app_r l1 l2 : pid_sorted (l1 ++ l2) -> pid_sorted l2.
Proof.
  unfold pid_sorted. induction l1 as [| x l IH]; simpl; [auto |].
  intros H. inversion H; subst. auto.
Qed.

Lemma load_loop_from pre after :
  forall bs,
    pid_sorted (pre ++ bs) -> pid_sorted after ->
    (forall b a, In b pre -> In a after -> Cpup.pid b < Cpup.pid a) ->
    Cpup.load_loop bs after
    = map (fun a => Cpup.set_load (walked_load (pre ++ bs) a) a) after.
Proof.
  revert pre. induction after as [| a rest IH]; intros pre bs Hb Ha Hpre;
    [reflexivity |].
  inversion Ha as [| ? ? Hrest Hall]; subst.
  rewrite Forall_forall in Hall.
  destruct (move_cursor_split (Cpup.pid a) bs) as (d & Hsplit & Hd & Hhead).
  cbn [Cpup.load_loop map].
  replace (Cpup.pid (Cpup.set_load (add64 (Cpup.utime a) (Cpup.stime a)) a))
    with (Cpup.pid a) by (destruct a; reflexivity).
  set (bs' := Cpup.move_cursor (Cpup.pid a) bs) in *.
  assert (Hfind : find_pid (Cpup.pid a) (pre ++ bs) = find_pid (Cpup.pid a) bs').
  { rewrite Hsplit, app_assoc. apply find_skip.
    apply Forall_app. split.
    - rewrite Forall_forall. intros b Hin. apply Z.eqb_neq.
      specialize (Hpre b a Hin (or_introl eq_refl)). lia.
    - rewrite Forall_forall in *. intros b Hin. apply Z.eqb_neq.
      specialize (Hd b Hin). lia. }
  f_equal.
  - unfold walked_load. rewrite Hfind.
    destruct bs' as [| b r] eqn:Ebs; [destruct a; reflexivity |].
    unfold find_pid. cbn [find].
    rewrite (Z.eqb_sym (Cpup.pid b)).
    destruct (Z.eqb_spec (Cpup.pid a) (Cpup.pid b)) as [Heq | Hne].
    + rewrite set_load_twice. unfold basis. destruct a; reflexivity.
    + replace (find (fun b0 => Cpup.pid b0 =? Cpup.pid a) r) with
        (@None Cpup.process_t); [destruct a; reflexivity |].
      symmetry. apply find_all_false.
      rewrite Forall_forall. intros x Hx. apply Z.eqb_neq.
      assert (Hs : pid_sorted (b :: r)).
      { apply (pid_sorted_app_r (pre ++ d)).
        rewrite <- app_assoc, <- Hsplit. exact Hb. }
      inversion Hs as [| ? ? _ Hbr]; subst.
      rewrite Forall_forall in Hbr. specialize (Hbr x Hx). lia.
  - rewrite (IH (pre ++ d) bs').
    + rewrite <- app_assoc, <- Hsplit. reflexivity.
    + rewrite <- app_assoc, <- Hsplit. exact Hb.
    + exact Hrest.
    + intros b a' Hin Hin'. specialize (Hall a' Hin').
      apply in_app_or in Hin. destruct Hin as [Hin | Hin].
      * specialize (Hpre b a Hin (or_introl eq_refl)). lia.
      * rewrite Forall_forall in Hd. specialize (Hd b Hin). lia.
Qed.

(** C2 (amended).  For two process lists sorted ascending by process id
    the merge walk gives every sample of [after] the load [walked_load]:
    a process id found only in [after] gets utime + stime, and one found
    in both gets the difference of the two sums in unsigned 64-bit
    arithmetic, which is the plain difference when the earlier sum is not
    the larger one and the difference plus 2^64, not 0, when it is. *)
Theorem process_load_delta (before after : list Cpup.process_t) :
  pid_sorted before -> pid_sorted after ->
  Cpup.load_loop before after
  = map (fun a => Cpup.set_load (walked_load before a) a) after
  /\ forall a, In a after ->
       match find_pid (Cpup.pid a) before with
       | None => walked_load before a = basis a
       | Some b =>
           (basis b <= basis a -> walked_load before a = basis a - basis b)
           /\ (basis a < basis b ->
               walked_load before a = basis a - basis b + UINT64_MOD)
       end.
Proof.
  intros Hb Ha. split.
  - apply (load_loop_from [] after before); auto.
    intros b a [].
  - intros a _. unfold walked_load.
    destruct (find_pid (Cpup.pid a) before) as [b |]; [| reflexivity].
    pose proof (add64_range (Cpup.utime a) (Cpup.stime a)) as Hra.
    pose proof (add64_range (Cpup.utime b) (Cpup.stime b)) as Hrb.
    fold (basis a) in Hra. fold (basis b) in Hrb. split; intros H.
    + apply sub64_exact. unfold is_uint64 in *. lia.
    + now apply sub64_wrapped.
Qed.

Lemma pid_sorted_singleton p : pid_sorted [p].
Proof. repeat constructor. Qed.

Lemma process_load_delta_witness :
  let before := [sample_process 10 3 2] in
  let after := [sample_process 10 20 5; sample_process 11 30 10] in
  map Cpup.load (Cpup.load_loop before after) = [20; 40].
Proof.
  intros before after.
  assert (Hb : pid_sorted before) by apply pid_sorted_singleton.
  assert (Ha : pid_sorted after).
  { unfold after, pid_sorted. repeat constructor. simpl. lia. }
  destruct (process_load_delta before after Hb Ha) as [Heq _].
  rewrite Heq. reflexivity.
Defined.

(** C2, the claim as the specification words it, fails where the earlier
    sum is the larger one: process 1 goes from 5 ticks to 3, and its load
    is 2^64 - 2 where the clamp would give 0. *)
Lemma process_load_not_clamped :
  let before := [sample_process 1 5 0] in
  let after := [sample_process 1 3 0] in
  pid_sorted before /\ pid_sorted after
  /\ map Cpup.load (Cpup.load_loop before after) = [2 ^ 64 - 2]
  /\ map (clamped_load before) after = [0].
Proof.
  repeat split; try apply pid_sorted_singleton.
Qed.

(** ** The ranking *)

Lemma load_loop_length before after :
  List.length (Cpup.load_loop before after) = List.length after.
Proof.
  revert before. induction after as [| a r IH]; intros before; simpl;
    [reflexivity | now rewrite IH].
Qed.

Lemma load_loop_range before after :
  Forall (fun p => is_uint64 (Cpup.load p)) (Cpup.load_loop before after).
Proof.
  revert before. induction after as [| a r IH]; intros before;
    cbn [Cpup.load_loop]; constructor; [| apply IH].
  destruct (Cpup.move_cursor _ before) as [| b ?].
  - apply add64_range.
  - destruct (_ =? _); [apply sub64_range | apply add64_range].
Qed.

Lemma to_int_mod64 z : to_int (z mod UINT64_MOD) = to_int z.
Proof.
  unfold to_int, UINT64_MOD. f_equal.
  rewrite (Z.mod_eq z (2 ^ 64)) by lia.
  replace (z - 2 ^ 64 * (z / 2 ^ 64) + 2 ^ 31)
    with (z + 2 ^ 31 + (- (2 ^ 32 * (z / 2 ^ 64))) * 2 ^ 32) by lia.
  apply Z.mod_add. lia.
Qed.

(** With loads below 2^31 the comparator is the plain difference. *)
Lemma comp_load_small a b :
  0 <= Cpup.load a < 2 ^ 31 -> 0 <= Cpup.load b < 2 ^ 31 ->
  Cpup.comp_load a b = Cpup.load b - Cpup.load a.
Proof.
  intros Ha Hb. unfold Cpup.comp_load, sub64.
  rewrite to_int_mod64. apply to_int_small. lia.
Qed.

Section SortedLists.
Context {A B : Type}.

Lemma firstn_In (n : nat) (l : list A) x : In x (firstn n l) -> In x l.
Proof.
  revert l. induction n as [| n IH]; intros [| y l]; simpl; try tauto.
  intros [-> | H]; auto.
Qed.

Lemma StronglySorted_firstn (R : A -> A -> Prop) n l :
  StronglySorted R l -> StronglySorted R (firstn n l).
Proof.
  intros H. revert n. induction H as [| x l Hs IH Hall]; intros [| n]; simpl;
    try constructor; auto.
  rewrite Forall_forall in *. intros y Hy.
  apply Hall. eapply firstn_In, Hy.
Qed.

Lemma StronglySorted_map (f : A -> B) (R : B -> B -> Prop) l :
  StronglySorted (fun x y => R (f x) (f y)) l -> StronglySorted R (map f l).
Proof.
  induction 1 as [| x l Hs IH Hall]; simpl; constructor; auto.
  rewrite Forall_forall in *. intros y Hy.
  apply in_map_iff in Hy. destruct Hy as (z & <- & Hz). auto.
Qed.

Lemma StronglySorted_within (R R' : A -> A -> Prop) l :
  (forall x y, In x l -> In y l -> R x y -> R' x y) ->
  StronglySorted R l -> StronglySorted R' l.
Proof.
  intros Himp H. induction H as [| x l Hs IH Hall]; constructor.
  - apply IH. intros y z Hy Hz. apply Himp; now right.
  - rewrite Forall_forall in *. intros y Hy.
    apply Himp; [now left | now right | auto].
Qed.

End SortedLists.

Lemma comp_load_consistent l :
  Forall (fun p => 0 <= Cpup.load p < 2 ^ 31) l ->
  consistent Cpup.comp_load l.
Proof.
  rewrite Forall_forall. intros H. split.
  - intros x y Hx Hy.
    rewrite !comp_load_small by auto.
    rewrite <- Z.sgn_opp. f_equal. lia.
  - intros x y z Hx Hy Hz.
    rewrite !comp_load_small by auto. lia.
Qed.

Lemma load_loop_keeps_samples before after :
  map without_load (Cpup.load_loop before after) = map without_load after.
Proof.
  revert before. induction after as [| a rest IH]; intros before;
    [reflexivity |].
  cbn [Cpup.load_loop map]. rewrite IH. f_equal.
  destruct (Cpup.move_cursor _ before) as [| b r].
  - apply set_load_twice.
  - destruct (_ =? _); unfold without_load; now rewrite !set_load_twice.
Qed.

Lemma without_load_pid p : Cpup.pid (without_load p) = Cpup.pid p.
Proof. destruct p; reflexivity. Qed.

Lemma load_loop_pids before after :
  map Cpup.pid (Cpup.load_loop before after) = map Cpup.pid after.
Proof.
  assert (H : forall l, map Cpup.pid l = map Cpup.pid (map without_load l)).
  { intros l. rewrite map_map. apply map_ext. intros p.
    now rewrite without_load_pid. }
  rewrite (H (Cpup.load_loop before after)), (H after).
  now rewrite load_loop_keeps_samples.
Qed.

Lemma pid_strictly_sorted_by_pids l l' :
  map Cpup.pid l = map Cpup.pid l' ->
  pid_strictly_sorted l -> pid_strictly_sorted l'.
Proof.
  unfold pid_strictly_sorted. revert l'.
  induction l as [| x l IH]; intros [| y l'] Heq Hs; try discriminate;
    [constructor |].
  cbn [map] in Heq. injection Heq as Hxy Hrest.
  inversion Hs as [| ? ? Hsl Hall]; subst.
  constructor; [now apply IH |].
  rewrite Forall_forall in *. intros z Hz.
  apply (in_map Cpup.pid) in Hz. rewrite <- Hrest in Hz.
  apply in_map_iff in Hz. destruct Hz as (w & Hw & Hin).
  specialize (Hall w Hin). lia.
Qed.

(** C3, the part the code does deliver.  The table has min(10, number of
    after-processes) rows, and they are the first rows of the array the
    sort left, a rearrangement of the samples of the merge walk.
    Whenever every load is below 2^31, so that the comparator's
    conversion to int keeps the sign of the difference, that array is in
    load-descending order: the table is the top of the ranking, and no
    sample left out has a higher load than one that is shown. *)
Theorem ranking_length_and_order (Q : Qsort) (total : Z)
  (before after : Cpup.cpu_t) :
  let walked := Cpup.load_loop (Cpup.procs before) (Cpup.procs after) in
  let table := snd (fst (Cpup.show_result_process total before after)) in
  List.length table = Nat.min 10 (List.length (Cpup.procs after))
  /\ exists sorted,
       Permutation walked sorted
       /\ table = map (Cpup.show_row total) (firstn 10 sorted)
       /\ (Forall (fun p => Cpup.load p < 2 ^ 31) walked ->
           StronglySorted (fun a b => Cpup.load b <= Cpup.load a) sorted
           /\ load_descending table).
Proof.
  intros walked table.
  pose proof (qsort_permutes _ Cpup.comp_load walked) as Hperm.
  assert (Hlen : List.length (qsort Cpup.comp_load walked)
                 = List.length (Cpup.procs after)).
  { rewrite <- (Permutation_length Hperm). apply load_loop_length. }
  assert (Htable :
            table = map (Cpup.show_row total)
                      (firstn (Nat.min 10 (List.length (Cpup.procs after)))
                         (qsort Cpup.comp_load walked))).
  { unfold table, Cpup.show_result_process, Cpup.proc_num,
      Cpup.DISPLAY_PROCESS_NUM. cbn [fst snd]. fold walked.
    destruct (Nat.ltb_spec (List.length (Cpup.procs after)) 10);
      do 2 f_equal; lia. }
  assert (Hten :
            table = map (Cpup.show_row total)
                      (firstn 10 (qsort Cpup.comp_load walked))).
  { rewrite Htable. f_equal.
    destruct (Nat.le_ge_cases 10 (List.length (Cpup.procs after))) as [H | H].
    - now rewrite Nat.min_l.
    - rewrite Nat.min_r by exact H.
      rewrite !firstn_all2; [reflexivity | lia | lia]. }
  split.
  - rewrite Htable, length_map, length_firstn, Hlen. lia.
  - exists (qsort Cpup.comp_load walked).
    split; [exact Hperm | split; [exact Hten |]].
    intros Hsmall.
    assert (Hrange : Forall (fun p => 0 <= Cpup.load p < 2 ^ 31) walked).
    { pose proof (load_loop_range (Cpup.procs before) (Cpup.procs after))
        as Hr. fold walked in Hr.
      rewrite Forall_forall in *. intros p Hp.
      specialize (Hr p Hp). specialize (Hsmall p Hp).
      unfold is_uint64 in Hr. lia. }
    assert (Hsorted :
              StronglySorted (fun a b => Cpup.load b <= Cpup.load a)
                (qsort Cpup.comp_load walked)).
    { apply (StronglySorted_within (fun x y => Cpup.comp_load x y <= 0)).
      - rewrite Forall_forall in Hrange. intros x y Hx Hy Hc.
        apply (Permutation_in _ (Permutation_sym Hperm)) in Hx, Hy.
        rewrite comp_load_small in Hc by auto. lia.
      - apply qsort_sorts, comp_load_consistent, Hrange. }
    split; [exact Hsorted |].
    rewrite Hten. unfold load_descending.
    apply StronglySorted_map, StronglySorted_firstn.
    exact Hsorted.
Qed.

Lemma ranking_length_and_order_witness :
  let before := snapshot_of [sample_process 10 3 2] in
  let after := snapshot_of [sample_process 10 20 5; sample_process 11 30 10] in
  let table := table_of stable_qsort 50 before after in
  List.length table = 2%nat
  /\ map (fun r => (Cpup.row_pid r, Cpup.row_load r)) table = [(11, 40); (10, 20)]
  /\ load_descending table.
Proof.
  intros before after table.
  destruct (ranking_length_and_order stable_qsort 50 before after)
    as (Hlen & sorted & _ & _ & Horder).
  split; [exact Hlen |]. split; [vm_compute; reflexivity |].
  apply Horder.
  repeat (apply Forall_cons; [vm_compute; reflexivity |]). apply Forall_nil.
Defined.

(** Insertion of a sample with a lower process id than all of a ranked
    list keeps the list ranked: the sample goes in front of the samples
    of its own load. *)
Lemma insert_sorted_ranked x l :
  Forall (fun p => 0 <= Cpup.load p < 2 ^ 31) (x :: l) ->
  StronglySorted ranked_before l ->
  Forall (fun y => Cpup.pid x < Cpup.pid y) l ->
  StronglySorted ranked_before (insert_sorted Cpup.comp_load x l).
Proof.
  intros Hsmall Hs Hpid.
  pose proof (Forall_inv Hsmall) as Hx.
  induction Hs as [| y r Hr IH Hall]; cbn [insert_sorted].
  - constructor; constructor.
  - pose proof (Forall_inv (Forall_inv_tail Hsmall)) as Hy.
    rewrite comp_load_small by assumption.
    destruct (Z.leb_spec (Cpup.load y - Cpup.load x) 0) as [Hle | Hgt].
    + constructor; [now constructor |].
      rewrite Forall_forall in *. intros z [<- | Hz].
      * unfold ranked_before.
        specialize (Hpid y (or_introl eq_refl)). lia.
      * specialize (Hall z Hz). specialize (Hpid z (or_intror Hz)).
        unfold ranked_before in *. lia.
    + constructor.
      * apply IH; [| exact (Forall_inv_tail Hpid)].
        apply Forall_cons; [exact Hx |].
        exact (Forall_inv_tail (Forall_inv_tail Hsmall)).
      * rewrite Forall_forall in *. intros z Hz.
        apply insert_sorted_In in Hz. destruct Hz as [-> | Hz].
        -- unfold ranked_before. lia.
        -- now apply Hall.
Qed.

Lemma insertion_sort_ranked l :
  Forall (fun p => 0 <= Cpup.load p < 2 ^ 31) l ->
  pid_strictly_sorted l ->
  StronglySorted ranked_before (insertion_sort Cpup.comp_load l).
Proof.
  intros Hsmall Hs.
  induction Hs as [| x l Hl IH Hall]; [constructor |].
  change (insertion_sort Cpup.comp_load (x :: l))
    with (insert_sorted Cpup.comp_load x (insertion_sort Cpup.comp_load l)).
  pose proof (insertion_sort_perm Cpup.comp_load l) as Hperm.
  apply insert_sorted_ranked.
  - apply Forall_cons; [exact (Forall_inv Hsmall) |].
    rewrite Forall_forall. intros z Hz.
    apply (Permutation_in _ (Permutation_sym Hperm)) in Hz.
    pose proof (Forall_inv_tail Hsmall) as Ht.
    rewrite Forall_forall in Ht. now apply Ht.
  - apply IH. exact (Forall_inv_tail Hsmall).
  - rewrite Forall_forall in *. intros z Hz.
    apply (Permutation_in _ (Permutation_sym Hperm)) in Hz.
    now apply Hall.
Qed.

(** C3, the order among equal loads.  [comp_load] returns 0 for equal
    loads, so that order is the one the sort leaves.  A sort that keeps
    equal elements in their order, as the merge sort of glibc does,
    leaves them as [read_process] sorted them: with loads below 2^31 and
    no process id twice the table is in the order of the specification,
    load descending and process id ascending among equal loads. *)
Lemma ranking_ties_by_pid (total : Z) (before after : Cpup.cpu_t) :
  Forall (fun p => Cpup.load p < 2 ^ 31)
    (Cpup.load_loop (Cpup.procs before) (Cpup.procs after)) ->
  pid_strictly_sorted (Cpup.procs after) ->
  ranked (table_of stable_qsort total before after).
Proof.
  intros Hsmall Hpids.
  set (walked := Cpup.load_loop (Cpup.procs before) (Cpup.procs after)) in *.
  assert (Hrange : Forall (fun p => 0 <= Cpup.load p < 2 ^ 31) walked).
  { pose proof (load_loop_range (Cpup.procs before) (Cpup.procs after))
      as Hr. fold walked in Hr.
    rewrite Forall_forall in *. intros p Hp.
    specialize (Hr p Hp). specialize (Hsmall p Hp).
    unfold is_uint64 in Hr. lia. }
  assert (Hwalked : pid_strictly_sorted walked).
  { apply (pid_strictly_sorted_by_pids (Cpup.procs after));
      [| exact Hpids].
    symmetry. apply load_loop_pids. }
  unfold table_of, Cpup.show_result_process, ranked. cbn [fst snd].
  fold walked.
  apply StronglySorted_map, StronglySorted_firstn.
  exact (insertion_sort_ranked walked Hrange Hwalked).
Qed.

Lemma ranking_ties_by_pid_witness :
  let before := snapshot_of [sample_process 1 0 0] in
  let after := snapshot_of [sample_process 1 5 0; sample_process 2 5 0;
                            sample_process 3 9 0] in
  map (fun r => (Cpup.row_pid r, Cpup.row_load r))
    (table_of stable_qsort 1 before after) = [(3, 9); (1, 5); (2, 5)]
  /\ ranked (table_of stable_qsort 1 before after).
Proof.
  intros before after. split; [vm_compute; reflexivity |].
  apply ranking_ties_by_pid.
  - repeat (apply Forall_cons; [vm_compute; reflexivity |]). apply Forall_nil.
  - unfold pid_strictly_sorted.
    repeat (apply SSorted_cons;
            [| repeat (apply Forall_cons; [vm_compute; reflexivity |]);
               apply Forall_nil]).
    apply SSorted_nil.
Defined.

Lemma sgn_opposite u v :
  (u < 0 /\ 0 < v) \/ (0 < u /\ v < 0) \/ (u = 0 /\ v = 0) ->
  Z.sgn v = - Z.sgn u.
Proof.
  intros H.
  destruct (Z.sgn_spec u) as [[? ->] | [[? ->] | [? ->]]];
    destruct (Z.sgn_spec v) as [[? ->] | [[? ->] | [? ->]]]; lia.
Qed.

(** The sorted table of two samples when the comparator puts the first
    strictly before the second. *)
Lemma table_of_two (Q : Qsort) total before after x y :
  Cpup.load_loop (Cpup.procs before) (Cpup.procs after) = [x; y] ->
  Cpup.comp_load x y < 0 -> Cpup.comp_load y x > 0 ->
  Cpup.comp_load x x = 0 -> Cpup.comp_load y y = 0 ->
  table_of Q total before after
  = [Cpup.show_row total x; Cpup.show_row total y].
Proof.
  intros Hwalk Hxy Hyx Hxx Hyy.
  assert (Hnum : Cpup.proc_num after = 2%nat).
  { unfold Cpup.proc_num.
    rewrite <- (load_loop_length (Cpup.procs before)), Hwalk. reflexivity. }
  unfold table_of, Cpup.show_result_process. cbn [fst snd].
  rewrite Hwalk, Hnum. cbn [Nat.ltb Nat.leb Cpup.DISPLAY_PROCESS_NUM].
  assert (Hc : consistent Cpup.comp_load [x; y]).
  { split.
    - intros a b [<- | [<- | []]] [<- | [<- | []]];
        apply sgn_opposite; lia.
    - intros a b c [<- | [<- | []]] [<- | [<- | []]] [<- | [<- | []]]; lia. }
  pose proof (qsort_sorts _ Cpup.comp_load [x; y] Hc) as Hs.
  pose proof (qsort_permutes _ Cpup.comp_load [x; y]) as Hp.
  apply Permutation_length_2_inv in Hp. destruct Hp as [Heq | Heq];
    rewrite Heq in *.
  - reflexivity.
  - inversion Hs as [| ? ? _ Hall]; subst.
    inversion Hall; subst. lia.
Qed.

(** C3.  The ranking is not by load descending when two loads lie 2^31
    or more apart.  [comp_load] converts the uint64 difference of the
    loads to [int]: for a process that has used 2^31 + 1 ticks and an
    idle one it returns 2^31 - 1, a positive value, where its comment
    promises a negative one for a > b.  Every qsort that meets the C
    contract then puts the idle process first: the table is neither in
    the order of the specification nor in load-descending order. *)
Theorem ranking_reversed_for_far_loads :
  let idle := sample_process 1 0 0 in
  let busy := sample_process 2 (2 ^ 31 + 1) 0 in
  let before := snapshot_of [idle] in
  let after := snapshot_of [idle; busy] in
  Cpup.load_loop (Cpup.procs before) (Cpup.procs after)
  = [idle; Cpup.set_load (2 ^ 31 + 1) busy]
  /\ Cpup.comp_load (Cpup.set_load (2 ^ 31 + 1) busy) idle = 2 ^ 31 - 1
  /\ forall Q : Qsort,
       map (fun r => (Cpup.row_pid r, Cpup.row_load r))
         (table_of Q 1 before after) = [(1, 0); (2, 2 ^ 31 + 1)]
       /\ ~ load_descending (table_of Q 1 before after)
       /\ ~ ranked (table_of Q 1 before after).
Proof.
  intros idle busy before after.
  assert (Hwalk : Cpup.load_loop (Cpup.procs before) (Cpup.procs after)
                  = [idle; Cpup.set_load (2 ^ 31 + 1) busy])
    by (vm_compute; reflexivity).
  split; [exact Hwalk |]. split; [vm_compute; reflexivity |].
  intros Q.
  assert (Ht : table_of Q 1 before after
               = [Cpup.show_row 1 idle;
                  Cpup.show_row 1 (Cpup.set_load (2 ^ 31 + 1) busy)]).
  { apply (table_of_two Q 1 before after _ _ Hwalk);
      vm_compute; reflexivity. }
  rewrite Ht. split; [vm_compute; reflexivity | split].
  - intros H. inversion H as [| ? ? _ Hall]; subst.
    inversion Hall as [| ? ? Hr _]; subst.
    vm_compute in Hr. apply Hr. reflexivity.
  - intros H. inversion H as [| ? ? _ Hall]; subst.
    inversion Hall as [| ? ? Hr _]; subst.
    vm_compute in Hr. destruct Hr as [Hr | [Hr _]]; discriminate Hr.
Qed.

(** ** The aggregator *)

Lemma percent_bounds n t :
  0 <= n <= t -> 0 < t ->
  (0 <= percent (mk_ratio n t))%Q /\ (percent (mk_ratio n t) <= inject_Z 100)%Q.
Proof.
  intros Hn Ht. destruct t as [| p | p]; try lia.
  unfold percent, Qle, Qdiv, Qmult, Qinv, inject_Z; simpl.
  rewrite ?Pos.mul_1_r, ?Z.mul_1_r. split; lia.
Qed.

Lemma percent_zero t : (percent (mk_ratio 0 t) == 0)%Q.
Proof. unfold percent, Qeq, Qdiv, Qmult; simpl. reflexivity. Qed.

Lemma usage_ok_floor d :
  wf_cputime d -> sum_all d < UINT64_MOD ->
  usage_ok d
    (mk_ratio (get_load d) (if get_total d =? 0 then 1 else get_total d)).
Proof.
  intros Hwf Hsmall.
  destruct (total_load_identity_exact d Hwf Hsmall) as (Ht & Hl & _).
  pose proof (wf_fields d Hwf) as Hpos.
  assert (Hle : 0 <= get_load d <= get_total d).
  { rewrite Ht, Hl. unfold sum_all, sum_busy. lia. }
  unfold usage_ok. cbn [numerator denominator].
  split; [reflexivity |]. split.
  - intros H0. rewrite H0. cbn [Z.eqb]. split; [reflexivity |].
    replace (get_load d) with 0 by lia. apply percent_zero.
  - intros Hpos'. destruct (Z.eqb_spec (get_total d) 0) as [H0 | _]; [lia |].
    split; [reflexivity |]. now apply percent_bounds.
Qed.

(** C5 (amended).  For every delta whose ten fields sum to less than
    2^64, in cpus.c and in cpu.c alike: the usage is load over total; if
    the total is 0 the denominator is 1 and the percentage is 0; if the
    total is positive the percentage lies between 0 and 100. *)
Theorem usage_floor_and_bounds (b a : Cpu.cpu_t) :
  let before := nth (Cpu.num b) (Cpu.times b) zero_cputime in
  let after := nth (Cpu.num b) (Cpu.times a) zero_cputime in
  let d := get_diff before after in
  sum_all d < UINT64_MOD ->
  usage_ok d (r_usage (Cpus.show_result before after))
  /\ usage_ok d (r_usage (fst (Cpu.show_result b a)))
  /\ usage_ok d (Cpu.core_usage before after).
Proof.
  intros before after d Hsmall.
  pose proof (usage_ok_floor d (get_diff_wf before after) Hsmall) as H.
  split; [exact H | split; exact H].
Qed.

Lemma usage_floor_and_bounds_witness :
  let before := mk_cputime 100 0 50 800 20 5 0 0 0 0 in
  let after := mk_cputime 120 0 60 820 20 5 0 0 0 0 in
  let u := r_usage (Cpus.show_result before after) in
  numerator u = 30 /\ denominator u = 50 /\ (percent u == inject_Z 60)%Q
  /\ (percent u <= inject_Z 100)%Q.
Proof.
  intros before after u.
  destruct (usage_floor_and_bounds (Cpu.mk_cpu 0 [before]) (Cpu.mk_cpu 0 [after]))
    as ((Hn & _ & Hpos) & _); [vm_compute; reflexivity |].
  destruct Hpos as (Hd & _ & Hle); [vm_compute; reflexivity |].
  split; [exact Hn |]. split; [exact Hd |].
  split; [vm_compute; reflexivity | exact Hle].
Defined.

(** C5, the claim as the specification words it, fails for a delta whose
    fields sum to 2^64 or more.  With user = 2^64 - 1 and idle = 1 the
    total wraps to 0 and is replaced by 1, yet the load is 2^64 - 1 and
    the percentage is not 0; with idle = 2 the total is 1 and the
    percentage is far above 100. *)
Lemma usage_wraps_counterexample :
  let before := zero_cputime in
  let after1 := mk_cputime ULONG_MAX 0 0 1 0 0 0 0 0 0 in
  let after2 := mk_cputime ULONG_MAX 0 0 2 0 0 0 0 0 0 in
  let u1 := r_usage (Cpus.show_result before after1) in
  let u2 := r_usage (Cpus.show_result before after2) in
  (get_diff before after1 = after1 /\ get_total after1 = 0
   /\ denominator u1 = 1 /\ ~ (percent u1 == 0)%Q)
  /\ (get_diff before after2 = after2 /\ get_total after2 = 1
      /\ ~ (percent u2 <= inject_Z 100)%Q).
Proof.
  repeat split; try (vm_compute; reflexivity);
    intros H; vm_compute in H; try discriminate H; now apply H.
Qed.

(** C10.  The total that [show_result] of cpup.c hands to
    [show_result_process] is the aggregate total with 0 replaced by 1: it
    is at least 1 (it is 1 when the aggregate delta sums to 0), and it is
    the denominator of every usage in the process table. *)
Theorem process_total_is_floored (Q : Qsort) (before after : Cpup.cpu_t) :
  let num := Cpup.cpu_num before in
  let d := get_diff (nth num (Cpup.times before) zero_cputime)
                    (nth num (Cpup.times after) zero_cputime) in
  let total := if get_total d =? 0 then 1 else get_total d in
  let table := Cpup.c_processes (fst (Cpup.show_result before after)) in
  1 <= total < UINT64_MOD
  /\ (get_total d = 0 -> total = 1)
  /\ table = fst (Cpup.show_result_process total before after)
  /\ Forall (fun r => denominator (Cpup.row_usage r) = total
                      /\ 1 <= denominator (Cpup.row_usage r))
       (snd table).
Proof.
  intros num d total table.
  assert (Hrange : 1 <= total < UINT64_MOD).
  { unfold total. pose proof (get_total_sum d) as Hs.
    assert (Hb : 0 <= get_total d < UINT64_MOD).
    { rewrite Hs. apply Z.mod_pos_bound. unfold UINT64_MOD. lia. }
    destruct (Z.eqb_spec (get_total d) 0); unfold UINT64_MOD in *; lia. }
  assert (Htable : table = fst (Cpup.show_result_process total before after)).
  { unfold table, Cpup.show_result. fold num. fold d. fold total.
    destruct (Cpup.show_result_process total before after) as [t af].
    reflexivity. }
  split; [exact Hrange |].
  split; [intros H0; unfold total; now rewrite H0 |].
  split; [exact Htable |].
  rewrite Htable. unfold Cpup.show_result_process. cbn [fst snd].
  rewrite Forall_forall. intros r Hr.
  apply in_map_iff in Hr. destruct Hr as (p & <- & _).
  cbn [Cpup.show_row Cpup.row_usage denominator]. lia.
Qed.

(** ** Fatal errors in [main] *)

Lemma cpus_main_loop_runs before after samples printed :
  exists printed',
    Cpus.main_loop before after samples printed = Running printed'
    /\ List.length printed' = (List.length printed + List.length samples)%nat.
Proof.
  revert before after printed.
  induction samples as [| f rest IH]; intros before after printed; simpl.
  - exists printed. split; [reflexivity | lia].
  - destruct (Cpus.read_stat f after) as [r after'].
    destruct (IH after' after' (printed ++ [Cpus.show_result before after']))
      as (p & Hp & Hlen).
    exists p. split; [exact Hp |].
    rewrite Hlen, length_app. simpl. lia.
Qed.

(** C6 (code defect).  [main] of cpus.c drops the result of [read_stat]:
    whatever the samples are it never returns, and it prints one line per
    cycle even when the source could not be opened at all, here twice in a
    row, where the line is computed from the uninitialised [before] and
    [after]. *)
Theorem cpus_main_never_aborts :
  (forall before after samples,
      exists printed,
        Cpus.main before after samples = Running printed
        /\ List.length printed = Nat.pred (List.length samples))
  /\ (forall before after,
         Cpus.read_stat None after = (FAILURE, after)
         /\ Cpus.main before after [None; None]
            = Running [Cpus.show_result before after]).
Proof.
  split.
  - intros before after [| f rest]; simpl.
    + exists []. split; reflexivity.
    + destruct (Cpus.read_stat f before) as [r before'].
      destruct (cpus_main_loop_runs before' after rest []) as (p & Hp & Hlen).
      exists p. split; [exact Hp | exact Hlen].
  - intros before after. split; reflexivity.
Qed.

(** cpu.c and cpup.c do what the claim says: the first read that fails
    ends the run with EXIT_FAILURE, and no later sample is looked at. *)
Lemma cpu_main_loop_aborts before after f rest printed :
  fst (Cpu.read_stat f after) = FAILURE ->
  Cpu.main_loop before after (f :: rest) printed = Exited EXIT_FAILURE printed.
Proof.
  intros H. simpl. destruct (Cpu.read_stat f after) as [[|] c]; simpl in H;
    [discriminate | reflexivity].
Qed.

Lemma cpu_main_aborts num ua ub f rest :
  fst (Cpu.read_stat f (Cpu.new_cpu_t num ub)) = FAILURE ->
  Cpu.main num ua ub (f :: rest) = Exited EXIT_FAILURE [].
Proof.
  intros H. unfold Cpu.main.
  destruct (Cpu.read_stat f (Cpu.new_cpu_t num ub)) as [[|] c]; simpl in H;
    [discriminate | reflexivity].
Qed.

Lemma cpu_main_exit_status num ua ub samples status printed :
  Cpu.main num ua ub samples = Exited status printed ->
  status = EXIT_FAILURE /\ status <> 0.
Proof.
  assert (Hloop : forall later before after acc,
             Cpu.main_loop before after later acc = Exited status printed ->
             status = EXIT_FAILURE).
  { intros later. induction later as [| f rest IH];
      intros before after acc; simpl; [discriminate |].
    destruct (Cpu.read_stat f after) as [[|] c]; [apply IH |].
    intros H. now inversion H. }
  unfold Cpu.main. destruct samples as [| f rest]; [discriminate |].
  destruct (Cpu.read_stat f _) as [[|] c].
  - intros H. apply Hloop in H. subst. split; [reflexivity | discriminate].
  - intros H. inversion H. split; [reflexivity | discriminate].
Qed.

Lemma cpup_main_loop_aborts (Q : Qsort) before after s rest printed
  (left : Cpup.buffer) (freed_before freed_after : Z) :
  Cpup.read_buffer s after = Returns (FAILURE, left) ->
  Slots.delete_cpu_t (snd before) = Returns freed_before ->
  Slots.delete_cpu_t (snd left) = Returns freed_after ->
  Cpup.main_loop before after (s :: rest) printed
  = Returns (Exited EXIT_FAILURE printed).
Proof.
  intros H Hb Ha. cbn [Cpup.main_loop]. rewrite H.
  unfold Cpup.leave. now rewrite Hb, Ha.
Qed.

Lemma cpup_read_both_failures (Q : Qsort) s cpu :
  (fst (Cpup.read_stat (Cpup.stat s) cpu) = FAILURE ->
   exists cpu', Cpup.read_both s cpu = Returns (FAILURE, cpu'))
  /\ (fst (Cpup.read_stat (Cpup.stat s) cpu) = SUCCESS ->
      Cpup.proc_dir (Cpup.processes s) = None ->
      exists cpu', Cpup.read_both s cpu = Returns (FAILURE, cpu')).
Proof.
  unfold Cpup.read_both.
  destruct (Cpup.read_stat (Cpup.stat s) cpu) as [[|] c]; simpl; split;
    try discriminate.
  - intros _ Hdir. unfold Cpup.read_process. rewrite Hdir. eauto.
  - intros _. eauto.
Qed.

(** ** Reading /proc/stat *)

Lemma convert_stores k s v rest :
  convert k s = Got (Some v) rest -> storing (Conv k) = true.
Proof.
  destruct k; simpl; try reflexivity;
    destruct (scan_integer s); discriminate.
Qed.

(** [sscanf] returns the number of values it stored, or EOF having
    stored none, and stores at most one value per storing directive. *)
Lemma sscanf_from_count fmt :
  forall s stored n vs,
    sscanf_from fmt s stored = (n, vs) ->
    (n = Z.of_nat (List.length vs) \/ (n = EOF /\ vs = []))
    /\ (List.length vs
        <= List.length stored + List.length (filter storing fmt))%nat.
Proof.
  induction fmt as [| d fmt IH]; intros s stored n vs H.
  - simpl in H. inversion H; subst. split; [now left | simpl; lia].
  - assert (Hstop :
              forall c, (c, stored) = (n, vs) ->
                        c = Z.of_nat (List.length stored) ->
                        (n = Z.of_nat (List.length vs) \/ (n = EOF /\ vs = []))
                        /\ (List.length vs
                            <= List.length stored
                               + List.length (filter storing (d :: fmt)))%nat).
    { intros c Hc ->. inversion Hc; subst. split; [now left | lia]. }
    assert (Hend :
              (if Z.of_nat (List.length stored) =? 0 then EOF
               else Z.of_nat (List.length stored), stored) = (n, vs) ->
              (n = Z.of_nat (List.length vs) \/ (n = EOF /\ vs = []))
              /\ (List.length vs
                  <= List.length stored
                     + List.length (filter storing (d :: fmt)))%nat).
    { intros Hc. inversion Hc; subst. split; [| lia].
      destruct (Z.eqb_spec (Z.of_nat (List.length vs)) 0) as [H0 | H0].
      - right. split; [reflexivity |]. destruct vs; [reflexivity | discriminate].
      - now left. }
    destruct d as [c | | k]; cbn [sscanf_from] in H.
    + destruct s as [| c' s']; [now apply Hend |].
      destruct (Ascii.eqb c c'); [| now apply (Hstop _ H)].
      apply IH in H. cbn [filter storing]. exact H.
    + apply IH in H. cbn [filter storing]. exact H.
    + destruct (convert k s) as [[v |] rest | |] eqn:Hk.
      * apply IH in H. cbn [filter]. rewrite (convert_stores _ _ _ _ Hk).
        rewrite length_app in H. simpl in *. split; [tauto | lia].
      * apply IH in H. cbn [filter]. destruct (storing (Conv k)); simpl; split;
          try tauto; lia.
      * now apply (Hstop _ H).
      * now apply Hend.
Qed.

Lemma sscanf_cputime_count line format n vs :
  sscanf line format = (n, vs) ->
  List.length (filter storing (parse_format format)) = 10%nat ->
  (n = Z.of_nat (List.length vs) \/ (n = EOF /\ vs = []))
  /\ (List.length vs <= 10)%nat.
Proof.
  intros H Hfmt. apply sscanf_from_count in H. rewrite Hfmt in H. exact H.
Qed.

(** Stored into a zeroed record, the values fill the leading fields and
    the other fields stay 0. *)
Lemma store_into_zero vs :
  (List.length vs <= 10)%nat ->
  fields (store cputime_targets vs zero_cputime)
  = vs ++ repeat 0 (10 - List.length vs).
Proof.
  intros H.
  do 11 (destruct vs as [| ? vs]; [reflexivity |]).
  simpl in H. lia.
Qed.

(** C7, as far as cpus.c goes: the read succeeds exactly when at least
    four fields were stored, and then the fields that the line does not
    have are 0. *)
Lemma cpus_read_stat_defaults line rest cpu :
  let n := fst (sscanf line aggregate_format) in
  let vs := snd (sscanf line aggregate_format) in
  (fst (Cpus.read_stat (Some (line :: rest)) cpu) = SUCCESS <-> 4 <= n)
  /\ (4 <= n ->
      n = Z.of_nat (List.length vs)
      /\ fields (snd (Cpus.read_stat (Some (line :: rest)) cpu))
         = vs ++ repeat 0 (10 - List.length vs)).
Proof.
  intros n vs. unfold Cpus.read_stat, scan_cputime.
  destruct (sscanf line aggregate_format) as [n' vs'] eqn:Hs.
  subst n vs. cbn [fst snd].
  destruct (sscanf_cputime_count _ _ _ _ Hs eq_refl) as [Hn Hlen].
  split.
  - destruct (Z.ltb_spec n' 4); cbn [fst]; split; intros; try lia;
      try reflexivity; discriminate.
  - intros H4. split.
    + destruct Hn as [Hn | [Hn _]]; [exact Hn | unfold EOF in Hn; lia].
    + destruct (Z.ltb_spec n' 4); [lia |]. cbn [snd].
      now apply store_into_zero.
Qed.

Section Update.
Context {A : Type}.

Lemma nth_update_same (i : nat) (v d : A) l :
  (i < List.length l)%nat -> nth i (update i v l) d = v.
Proof.
  revert i. induction l as [| x l IH]; intros [| i] H; simpl in *;
    try lia; auto.
  apply IH. lia.
Qed.

Lemma nth_update_other (i j : nat) (v d : A) l :
  i <> j -> nth j (update i v l) d = nth j l d.
Proof.
  revert i j. induction l as [| x l IH]; intros [| i] [| j] H; simpl;
    try reflexivity; try lia.
  apply IH. lia.
Qed.

End Update.

Lemma cpu_read_cores_above k :
  forall i lines times r times' j,
    Cpu.read_cores k i lines times = (r, times') ->
    (i + k <= j)%nat ->
    nth j times' zero_cputime = nth j times zero_cputime.
Proof.
  induction k as [| k IH]; intros i lines times r times' j H Hj; simpl in H.
  - now inversion H.
  - destruct lines as [| line rest]; [now inversion H |].
    destruct (scan_cputime line core_format (nth i times zero_cputime))
      as [n work].
    destruct (n <? 4).
    + inversion H; subst. apply nth_update_other. lia.
    + apply IH with (j := j) in H; [| lia].
      rewrite H. apply nth_update_other. lia.
Qed.

Lemma cpu_read_stat_unfold line rest cpu :
  Cpu.read_stat (Some (line :: rest)) cpu
  = let times := repeat zero_cputime (Cpu.num cpu + 1)
                   ++ skipn (Cpu.num cpu + 1) (Cpu.times cpu) in
    let scanned := sscanf line aggregate_format in
    let work := store cputime_targets (snd scanned)
                  (nth (Cpu.num cpu) times zero_cputime) in
    let times := update (Cpu.num cpu) work times in
    if fst scanned <? 4 then (FAILURE, Cpu.mk_cpu (Cpu.num cpu) times)
    else if (1 <? Cpu.num cpu)%nat then
      (fst (Cpu.read_cores (Cpu.num cpu) 0 rest times),
       Cpu.mk_cpu (Cpu.num cpu)
         (snd (Cpu.read_cores (Cpu.num cpu) 0 rest times)))
    else (SUCCESS, Cpu.mk_cpu (Cpu.num cpu) times).
Proof.
  unfold Cpu.read_stat, scan_cputime.
  destruct (sscanf line aggregate_format) as [n vs]. cbn [fst snd].
  destruct (n <? 4); [reflexivity |].
  destruct (1 <? Cpu.num cpu)%nat; [| reflexivity].
  destruct (Cpu.read_cores _ _ _ _). reflexivity.
Qed.

(** C7, as far as cpu.c goes: a read that succeeded stored at least four
    fields of the aggregate line, and the aggregate fields the line does
    not have are 0. *)
Lemma cpu_read_stat_defaults line rest cpu cpu' :
  List.length (Cpu.times cpu) = (Cpu.num cpu + 1)%nat ->
  Cpu.read_stat (Some (line :: rest)) cpu = (SUCCESS, cpu') ->
  let n := fst (sscanf line aggregate_format) in
  let vs := snd (sscanf line aggregate_format) in
  4 <= n
  /\ fields (nth (Cpu.num cpu) (Cpu.times cpu') zero_cputime)
     = vs ++ repeat 0 (10 - List.length vs).
Proof.
  intros Hlen H n vs. rewrite cpu_read_stat_unfold in H.
  cbv zeta in H. fold n vs in H.
  assert (Hvs : (List.length vs <= 10)%nat).
  { apply (sscanf_cputime_count line aggregate_format n vs);
      [apply surjective_pairing | reflexivity]. }
  rewrite skipn_all2, app_nil_r, nth_repeat in H by lia.
  set (times1 := update (Cpu.num cpu) (store cputime_targets vs zero_cputime)
                   (repeat zero_cputime (Cpu.num cpu + 1))) in H.
  assert (H1 : fields (nth (Cpu.num cpu) times1 zero_cputime)
               = vs ++ repeat 0 (10 - List.length vs)).
  { unfold times1. rewrite nth_update_same.
    - now apply store_into_zero.
    - rewrite repeat_length. lia. }
  destruct (Z.ltb_spec n 4) as [Hlt | Hge]; [discriminate H |].
  split; [exact Hge |].
  destruct (1 <? Cpu.num cpu)%nat.
  - injection H as Hr <-. cbn [Cpu.times].
    rewrite (cpu_read_cores_above (Cpu.num cpu) 0 rest times1
               (fst (Cpu.read_cores (Cpu.num cpu) 0 rest times1))
               (snd (Cpu.read_cores (Cpu.num cpu) 0 rest times1))
               (Cpu.num cpu));
      [exact H1 | apply surjective_pairing | lia].
  - injection H as <-. exact H1.
Qed.

(** C7 (code defect).  [read_stat] of cpup.c clears [cpu_num] records,
    one fewer than cpu.c, so the aggregate record, which is the last of
    the [cpu_num + 1], is never cleared: on a line with four fields the
    read succeeds and the six trailing fields of the aggregate keep what
    the buffer held before (here 7), where cpu.c and cpus.c leave 0. *)
Theorem cpup_read_stat_keeps_stale_aggregate :
  let stale := mk_cputime 9 9 9 9 7 7 7 7 7 7 in
  let line := ("cpu 1 2 3 4" ++ newline)%string in
  let cpup := Cpup.read_stat (Some [line]) (Cpup.new_cpu_t 1 (fun _ => stale)) in
  let cpu := Cpu.read_stat (Some [line]) (Cpu.new_cpu_t 1 (fun _ => stale)) in
  let cpus := Cpus.read_stat (Some [line]) stale in
  sscanf line aggregate_format = (4, [1; 2; 3; 4])
  /\ fst cpup = SUCCESS
  /\ fields (nth 1 (Cpup.times (snd cpup)) zero_cputime)
     = [1; 2; 3; 4; 7; 7; 7; 7; 7; 7]
  /\ fst cpu = SUCCESS
  /\ fields (nth 1 (Cpu.times (snd cpu)) zero_cputime)
     = [1; 2; 3; 4; 0; 0; 0; 0; 0; 0]
  /\ cpus = (SUCCESS, mk_cputime 1 2 3 4 0 0 0 0 0 0).
Proof.
  repeat split; vm_compute; reflexivity.
Qed.

(** ** Collecting the processes *)

Lemma store_keeps_pid targets vs p :
  Forall (fun t => forall v q, Cpup.pid (t v q) = Cpup.pid q) targets ->
  Cpup.pid (store targets vs p) = Cpup.pid p.
Proof.
  intros H. revert vs p.
  induction H as [| t ts Ht _ IH]; intros [| v vs] p; simpl; auto.
  now rewrite IH.
Qed.

Lemma parse_stat_keeps_pid line proc r proc' :
  Cpup.parse_stat line proc = Returns (r, proc') ->
  Cpup.pid proc' = Cpup.pid proc.
Proof.
  unfold Cpup.parse_stat.
  destruct (Cpup.after_first "(" line) as [l |]; [| discriminate].
  destruct (Cpup.last_offset ")" l) as [len |]; [| discriminate].
  destruct (_ <? _)%nat; [discriminate |].
  destruct (sscanf _ Cpup.process_format) as [n vs].
  assert (Hpid : forall q,
             Cpup.pid (store Cpup.process_targets vs q) = Cpup.pid q).
  { intros q. apply store_keeps_pid.
    unfold Cpup.process_targets. repeat constructor. }
  destruct (negb (n =? 7)); intros H;
    match type of H with
    | Returns (_, ?t) = _ =>
        assert (E : t = proc') by congruence; rewrite <- E
    end;
    rewrite Hpid; reflexivity.
Qed.

Lemma read_pid_stat_pid fs slot pid proc :
  Cpup.read_pid_stat fs slot pid = Returns (SUCCESS, proc) ->
  Cpup.pid proc = pid.
Proof.
  unfold Cpup.read_pid_stat.
  destruct (Cpup.pid_stat fs pid) as [[| line rest] |]; try discriminate.
  intros H. apply parse_stat_keeps_pid in H. exact H.
Qed.

(** What the loop collects: the samples it started with, then one
    sample per readable entry, under the process id the name denotes. *)
Lemma read_entries_pids fs names :
  forall procs procs',
    Cpup.read_entries fs names procs = Returns procs' ->
    forall p, In p procs' ->
      In p procs
      \/ exists name, In name names
                      /\ Cpup.starts_with_digit name = true
                      /\ Cpup.pid p = Cpup.atoi name.
Proof.
  induction names as [| name rest IH]; intros procs procs' H p Hp;
    cbn [Cpup.read_entries] in H.
  - injection H as <-. now left.
  - destruct (Cpup.starts_with_digit name) eqn:Hd.
    + destruct (Cpup.read_pid_stat fs Cpup.zero_process (Cpup.atoi name))
        as [[[|] q] |] eqn:Hq; [| | discriminate].
      * destruct (IH _ _ H p Hp) as [Hin | (nm & Hnm & Hdig & Hpid)].
        -- apply in_app_or in Hin. destruct Hin as [Hin | [<- | []]];
             [now left |].
           right. exists name. repeat split; [now left | exact Hd |].
           now apply read_pid_stat_pid in Hq.
        -- right. exists nm. repeat split; [now right | exact Hdig | exact Hpid].
      * destruct (IH _ _ H p Hp) as [Hin | (nm & Hnm & Hdig & Hpid)];
          [now left |].
        right. exists nm. repeat split; [now right | exact Hdig | exact Hpid].
    + destruct (IH _ _ H p Hp) as [Hin | (nm & Hnm & Hdig & Hpid)];
        [now left |].
      right. exists nm. repeat split; [now right | exact Hdig | exact Hpid].
Qed.

Lemma to_int_range z : - 2 ^ 31 <= to_int z < 2 ^ 31.
Proof.
  unfold to_int.
  pose proof (Z.mod_pos_bound (z + 2 ^ 31) (2 ^ 32) ltac:(lia)). lia.
Qed.

(** On non-negative process ids the comparator is the plain difference. *)
Lemma comp_pid_small a b :
  0 <= Cpup.pid a < 2 ^ 31 -> 0 <= Cpup.pid b < 2 ^ 31 ->
  Cpup.comp_pid a b = Cpup.pid a - Cpup.pid b.
Proof. intros Ha Hb. unfold Cpup.comp_pid. apply to_int_small. lia. Qed.

Lemma comp_pid_consistent l :
  Forall (fun p => 0 <= Cpup.pid p < 2 ^ 31) l ->
  consistent Cpup.comp_pid l.
Proof.
  rewrite Forall_forall. intros H. split.
  - intros x y Hx Hy. rewrite !comp_pid_small by auto.
    rewrite <- Z.sgn_opp. f_equal. lia.
  - intros x y z Hx Hy Hz. rewrite !comp_pid_small by auto. lia.
Qed.

Lemma read_entries_completes fs names :
  Forall (fun name =>
            Cpup.starts_with_digit name = true ->
            record_readable fs (Cpup.atoi name)) names ->
  forall procs, exists procs', Cpup.read_entries fs names procs = Returns procs'.
Proof.
  induction 1 as [| name rest Hname _ IH]; intros procs;
    cbn [Cpup.read_entries]; [eauto |].
  destruct (Cpup.starts_with_digit name); [| apply IH].
  destruct (Hname eq_refl) as (r & p & ->).
  destruct r; apply IH.
Qed.

Lemma read_process_pid_sorted (Q : Qsort) names procs :
  names_are_pids names ->
  (forall p, In p procs ->
     exists name, In name names
                  /\ Cpup.starts_with_digit name = true
                  /\ Cpup.pid p = Cpup.atoi name) ->
  pid_sorted (qsort Cpup.comp_pid procs).
Proof.
  intros Hnames Hprocs.
  assert (Hrange : Forall (fun p => 0 <= Cpup.pid p < 2 ^ 31) procs).
  { rewrite Forall_forall. intros p Hp.
    destruct (Hprocs p Hp) as (name & Hin & Hd & ->).
    unfold names_are_pids in Hnames. rewrite Forall_forall in Hnames.
    specialize (Hnames name Hin Hd).
    pose proof (to_int_range
                  (Z.min LONG_MAX (fst (read_digits name 0)))) as Hr.
    fold (Cpup.atoi name) in Hr. lia. }
  pose proof (qsort_permutes _ Cpup.comp_pid procs) as Hperm.
  unfold pid_sorted.
  apply (StronglySorted_within (fun x y => Cpup.comp_pid x y <= 0)).
  - rewrite Forall_forall in Hrange. intros x y Hx Hy Hc.
    apply (Permutation_in _ (Permutation_sym Hperm)) in Hx, Hy.
    rewrite comp_pid_small in Hc by auto. lia.
  - apply qsort_sorts, comp_pid_consistent, Hrange.
Qed.

(** C9.  When the names that [readdir] yields are process ids, every
    run of [read_process] that returns leaves the samples sorted
    ascending by process id, whatever the order of the names; and it does
    return, with SUCCESS, whenever every record can be read. *)
Theorem read_process_sorted (Q : Qsort) (fs : Cpup.proc_fs)
  (cpu : Cpup.cpu_t) (names : list string) :
  Cpup.proc_dir fs = Some names ->
  names_are_pids names ->
  (forall r cpu',
      Cpup.read_process fs cpu = Returns (r, cpu') ->
      pid_sorted (Cpup.procs cpu'))
  /\ (Forall (fun name =>
                Cpup.starts_with_digit name = true ->
                record_readable fs (Cpup.atoi name)) names ->
      exists cpu',
        Cpup.read_process fs cpu = Returns (SUCCESS, cpu')
        /\ pid_sorted (Cpup.procs cpu')).
Proof.
  intros Hdir Hnames.
  assert (Hsorted : forall procs,
             Cpup.read_entries fs names [] = Returns procs ->
             pid_sorted (qsort Cpup.comp_pid procs)).
  { intros procs Hread. apply (read_process_pid_sorted Q names); auto.
    intros p Hp.
    destruct (read_entries_pids fs names [] procs Hread p Hp) as [[] | H].
    exact H. }
  unfold Cpup.read_process. rewrite Hdir. cbn [Cpup.procs Cpup.cpu_num Cpup.times].
  split.
  - intros r cpu'.
    destruct (Cpup.read_entries fs names []) as [procs |]; [| discriminate].
    intros H. injection H as _ <-. cbn [Cpup.procs]. now apply Hsorted.
  - intros Hreadable.
    destruct (read_entries_completes fs names Hreadable []) as (procs & Hp).
    rewrite Hp. eexists. split; [reflexivity |].
    cbn [Cpup.procs]. now apply Hsorted.
Qed.

Lemma read_process_sorted_witness :
  let fs :=
    Cpup.mk_proc_fs
      (Some ["self"; "30"; "7"; "1"]%string)
      (fun pid =>
         if pid =? 30
         then Some [stat_line "30" "sh"
                      "S 1 30 30 0 -1 4194304 10 0 0 0 5 6 0 0 20 0 1"]
         else if pid =? 7
         then Some [stat_line "7" "kworker/0:1" "I 2 0"]
         else Some [stat_line "1" "init"
                      "S 0 1 1 0 -1 4194560 1 2 3 4 10 20 0 0 20 0 1"]) in
  let cpu := snapshot_of [] in
  exists cpu',
    @Cpup.read_process stable_qsort fs cpu = Returns (SUCCESS, cpu')
    /\ map Cpup.pid (Cpup.procs cpu') = [1; 30]
    /\ pid_sorted (Cpup.procs cpu').
Proof.
  intros fs cpu.
  assert (Hnames : names_are_pids ["self"; "30"; "7"; "1"]%string).
  { unfold names_are_pids.
    repeat (apply Forall_cons; [intros _; vm_compute; discriminate |]).
    apply Forall_nil. }
  destruct (read_process_sorted stable_qsort fs cpu _ eq_refl Hnames)
    as [Hsorted _].
  eexists. split; [vm_compute; reflexivity |].
  split; [vm_compute; reflexivity |].
  apply (Hsorted SUCCESS). vm_compute. reflexivity.
Defined.

(** C8, the half the code delivers: a record that opens but does not
    yield seven fields is left out and the loop goes on. *)
Lemma read_entries_skips_unparsable fs name rest procs proc :
  Cpup.starts_with_digit name = true ->
  Cpup.read_pid_stat fs Cpup.zero_process (Cpup.atoi name)
  = Returns (FAILURE, proc) ->
  Cpup.read_entries fs (name :: rest) procs
  = Cpup.read_entries fs rest procs.
Proof. intros Hd Hr. cbn [Cpup.read_entries]. now rewrite Hd, Hr. Qed.

Lemma read_entries_undefined fs pre :
  forall name post procs,
    Forall (fun n => Cpup.starts_with_digit n = true ->
                     record_readable fs (Cpup.atoi n)) pre ->
    Cpup.starts_with_digit name = true ->
    Cpup.pid_stat fs (Cpup.atoi name) = None ->
    Cpup.read_entries fs (pre ++ name :: post) procs = Undefined_behaviour.
Proof.
  induction pre as [| n pre IH]; intros name post procs Hpre Hd Hnone;
    cbn [app Cpup.read_entries].
  - rewrite Hd. unfold Cpup.read_pid_stat. now rewrite Hnone.
  - inversion Hpre as [| ? ? Hn Hrest]; subst.
    destruct (Cpup.starts_with_digit n); [| now apply IH].
    destruct (Hn eq_refl) as (r & p & ->).
    destruct r; now apply IH.
Qed.

(** Whenever the record of a listed process cannot be opened (and the
    earlier ones could be read), [read_process] does not return. *)
Lemma read_process_undefined (Q : Qsort) fs cpu pre name post :
  Cpup.proc_dir fs = Some (pre ++ name :: post) ->
  Forall (fun n => Cpup.starts_with_digit n = true ->
                   record_readable fs (Cpup.atoi n)) pre ->
  Cpup.starts_with_digit name = true ->
  Cpup.pid_stat fs (Cpup.atoi name) = None ->
  Cpup.read_process fs cpu = Undefined_behaviour.
Proof.
  intros Hdir Hpre Hd Hnone. unfold Cpup.read_process. rewrite Hdir.
  cbn [Cpup.procs].
  now rewrite (read_entries_undefined fs pre name post [] Hpre Hd Hnone).
Qed.

(** C8 (code defect).  Process 42 is listed but is gone when its record
    is opened: [read_pid_stat] jumps to [error:] and hands the null
    [file] to [fclose], so the collection does not return SUCCESS, it
    does not return at all.  [read_stat] of the same file returns FAILURE
    before that label.  Had the record opened with too few fields, the
    process would have been left out and the collection would have
    succeeded with process 1 alone. *)
Theorem read_process_vanished_process (Q : Qsort) (cpu : Cpup.cpu_t) :
  let init :=
    stat_line "1" "init" "S 0 1 1 0 -1 4194560 1 2 3 4 10 20 0 0 20 0 1" in
  let vanished :=
    Cpup.mk_proc_fs (Some ["1"; "42"]%string)
      (fun pid => if pid =? 1 then Some [init] else None) in
  let short :=
    Cpup.mk_proc_fs (Some ["1"; "42"]%string)
      (fun pid => if pid =? 1 then Some [init]
                  else Some [stat_line "42" "gone" "Z 1 2"]) in
  Cpup.read_pid_stat vanished Cpup.zero_process 42 = Undefined_behaviour
  /\ Cpup.read_process vanished cpu = Undefined_behaviour
  /\ exists cpu',
       Cpup.read_process short cpu = Returns (SUCCESS, cpu')
       /\ map Cpup.pid (Cpup.procs cpu') = [1].
Proof.
  intros init vanished short. split; [reflexivity |]. split.
  - apply (read_process_undefined Q vanished cpu ["1"%string]
             "42"%string []); try reflexivity.
    apply Forall_cons; [| apply Forall_nil].
    intros _. eexists _, _. vm_compute. reflexivity.
  - unfold Cpup.read_process. cbn [Cpup.proc_dir short Cpup.procs].
    match goal with
    | |- context [Cpup.read_entries ?f ?n ?p] =>
        let v := eval vm_compute in (Cpup.read_entries f n p) in
        replace (Cpup.read_entries f n p) with v by (vm_compute; reflexivity)
    end.
    eexists. split; [reflexivity |]. cbn [Cpup.procs].
    match goal with
    | |- map _ (qsort _ [?p]) = _ =>
        pose proof (qsort_permutes _ Cpup.comp_pid [p]) as Hperm
    end.
    apply Permutation_length_1_inv in Hperm. rewrite Hperm.
    reflexivity.
Qed.

(** * Further properties of the code *)

(** ** Deltas *)

Lemma add64_sub64 b a : is_uint64 a -> add64 b (sub64 a b) = a.
Proof.
  unfold is_uint64, add64, sub64, UINT64_MOD. intros Ha.
  rewrite Zplus_mod_idemp_r.
  replace (b + (a - b)) with a by lia. now apply Z.mod_small.
Qed.

Lemma sub64_chain a b c : sub64 c a = add64 (sub64 b a) (sub64 c b).
Proof.
  unfold add64, sub64, UINT64_MOD.
  rewrite <- Zplus_mod. f_equal. lia.
Qed.

Lemma sub64_self a : sub64 a a = 0.
Proof. unfold sub64. now rewrite Z.sub_diag. Qed.

Lemma cputime_eq (x y : cputime_t) : fields x = fields y -> x = y.
Proof.
  destruct x as [x0 x1 x2 x3 x4 x5 x6 x7 x8 x9].
  destruct y as [y0 y1 y2 y3 y4 y5 y6 y7 y8 y9].
  unfold fields; simpl. intros H.
  injection H as -> -> -> -> -> -> -> -> -> ->. reflexivity.
Qed.

Lemma get_diff_fields before after :
  fields (get_diff before after)
  = [sub64 (user after) (user before); sub64 (nice after) (nice before);
     sub64 (system after) (system before); sub64 (idle after) (idle before);
     sub64 (iowait after) (iowait before); sub64 (irq after) (irq before);
     sub64 (softirq after) (softirq before);
     sub64 (steal after) (steal before); sub64 (guest after) (guest before);
     sub64 (guest_nice after) (guest_nice before)].
Proof.
  unfold fields, get_diff; cbn [user nice system idle iowait irq softirq
                                   steal guest guest_nice].
  now rewrite !DIFF_is_sub64.
Qed.

Lemma get_diff_self x : get_diff x x = zero_cputime.
Proof.
  apply cputime_eq. rewrite get_diff_fields, !sub64_self. reflexivity.
Qed.

(** X1.  Nothing is lost in a delta: put back on [before], field by
    field in uint64 arithmetic, it gives [after] again, also where a
    counter went down. *)
Theorem get_diff_restores_after (before after : cputime_t) :
  wf_cputime after ->
  add_cputime before (get_diff before after) = after.
Proof.
  intros Hwf.
  destruct before as [b0 b1 b2 b3 b4 b5 b6 b7 b8 b9].
  destruct after as [a0 a1 a2 a3 a4 a5 a6 a7 a8 a9].
  unfold wf_cputime, fields in Hwf.
  cbn [user nice system idle iowait irq softirq steal guest guest_nice]
    in Hwf.
  repeat match goal with
         | H : Forall _ (_ :: _) |- _ => inversion H; subst; clear H
         end.
  unfold add_cputime, get_diff.
  cbn [user nice system idle iowait irq softirq steal guest guest_nice].
  rewrite !DIFF_is_sub64, !add64_sub64 by assumption. reflexivity.
Qed.

Lemma get_diff_restores_after_witness :
  let before := mk_cputime 100 0 50 800 20 5 0 0 0 0 in
  let after := mk_cputime 120 0 60 820 19 5 0 0 0 0 in
  iowait (get_diff before after) = 2 ^ 64 - 1
  /\ add_cputime before (get_diff before after) = after.
Proof.
  intros before after. split; [vm_compute; reflexivity |].
  apply get_diff_restores_after.
  apply wf_cputimeb_spec. vm_compute. reflexivity.
Defined.

(** X2.  Deltas add up: the delta from [a] to [c] is the field-wise
    uint64 sum of the delta from [a] to [b] and the delta from [b] to
    [c], for any three samples. *)
Theorem get_diff_composes (a b c : cputime_t) :
  get_diff a c = add_cputime (get_diff a b) (get_diff b c).
Proof.
  unfold add_cputime, get_diff.
  cbn [user nice system idle iowait irq softirq steal guest guest_nice].
  rewrite !DIFF_is_sub64. f_equal; apply sub64_chain.
Qed.

(** ** The printed line *)

(** cpu.c and cpup.c build their aggregate line as cpus.c does, from the
    last record of the two buffers. *)
Lemma cpu_report_is_cpus_report (b a : Cpu.cpu_t) :
  fst (Cpu.show_result b a)
  = Cpus.show_result (nth (Cpu.num b) (Cpu.times b) zero_cputime)
      (nth (Cpu.num b) (Cpu.times a) zero_cputime).
Proof. reflexivity. Qed.

Lemma cpup_report_is_cpus_report (Q : Qsort) (b a : Cpup.cpu_t) :
  Cpup.c_report (fst (Cpup.show_result b a))
  = Cpus.show_result (nth (Cpup.cpu_num b) (Cpup.times b) zero_cputime)
      (nth (Cpup.cpu_num b) (Cpup.times a) zero_cputime).
Proof.
  unfold Cpup.show_result.
  destruct (Cpup.show_result_process _ b a) as [table after'].
  reflexivity.
Qed.

Lemma cpup_cores_are_core_usages (Q : Qsort) (b a : Cpup.cpu_t) :
  Cpup.c_cores (fst (Cpup.show_result b a)) = snd (Cpu.show_result
    (Cpu.mk_cpu (Cpup.cpu_num b) (Cpup.times b))
    (Cpu.mk_cpu (Cpup.cpu_num a) (Cpup.times a))).
Proof.
  unfold Cpup.show_result.
  destruct (Cpup.show_result_process _ b a) as [table after'].
  reflexivity.
Qed.

Lemma cpus_show_result_self x : Cpus.show_result x x = idle_report.
Proof.
  unfold Cpus.show_result. rewrite get_diff_self. vm_compute. reflexivity.
Qed.

Lemma core_usage_self x : Cpu.core_usage x x = mk_ratio 0 1.
Proof.
  unfold Cpu.core_usage. rewrite get_diff_self. vm_compute. reflexivity.
Qed.

Lemma cpu_cores_self (c : Cpu.cpu_t) :
  Forall (fun u => u = mk_ratio 0 1) (snd (Cpu.show_result c c)).
Proof.
  unfold Cpu.show_result. cbn [snd].
  destruct (1 <? Cpu.num c)%nat; [| constructor].
  rewrite Forall_forall. intros u Hu.
  apply in_map_iff in Hu. destruct Hu as (i & <- & _).
  apply core_usage_self.
Qed.

(** X3.  Two identical samples print the idle line in every variant:
    usage 0 over the denominator 1, T:1 although the total is 0, 0 in
    every category, and 0 over 1 for every core. *)
Theorem identical_samples_print_idle (Q : Qsort) :
  (forall x : cputime_t, Cpus.show_result x x = idle_report)
  /\ (forall c : Cpu.cpu_t,
         fst (Cpu.show_result c c) = idle_report
         /\ Forall (fun u => u = mk_ratio 0 1) (snd (Cpu.show_result c c)))
  /\ (forall c : Cpup.cpu_t,
         Cpup.c_report (fst (Cpup.show_result c c)) = idle_report
         /\ Forall (fun u => u = mk_ratio 0 1)
              (Cpup.c_cores (fst (Cpup.show_result c c)))).
Proof.
  split; [exact cpus_show_result_self |]. split.
  - intros c. split; [| apply cpu_cores_self].
    rewrite cpu_report_is_cpus_report. apply cpus_show_result_self.
  - intros c. split.
    + rewrite cpup_report_is_cpus_report. apply cpus_show_result_self.
    + rewrite cpup_cores_are_core_usages. apply cpu_cores_self.
Qed.

Lemma mod_mod64 x : (x mod UINT64_MOD) mod UINT64_MOD = x mod UINT64_MOD.
Proof. apply Z.mod_mod. unfold UINT64_MOD. lia. Qed.

Lemma mod_add_congr x x' y y' :
  x mod UINT64_MOD = x' mod UINT64_MOD ->
  y mod UINT64_MOD = y' mod UINT64_MOD ->
  (x + y) mod UINT64_MOD = (x' + y') mod UINT64_MOD.
Proof.
  intros Hx Hy. rewrite Zplus_mod, Hx, Hy, <- Zplus_mod. reflexivity.
Qed.

(** X4.  The categories of the printed line against its total, in every
    variant: T is I + S + U + IRQ + G plus the steal ticks, which no
    category shows, in uint64 arithmetic whenever the total is not 0; and
    when the ten fields of the delta sum below 2^64 the equality is exact,
    IO is part of I, and the load behind the usage is S + U + IRQ + G
    plus steal. *)
Theorem report_categories (Q : Qsort) (before after : cputime_t) :
  let d := get_diff before after in
  let r := Cpus.show_result before after in
  (forall b a : Cpu.cpu_t,
      nth (Cpu.num b) (Cpu.times b) zero_cputime = before ->
      nth (Cpu.num b) (Cpu.times a) zero_cputime = after ->
      fst (Cpu.show_result b a) = r)
  /\ (forall b a : Cpup.cpu_t,
         nth (Cpup.cpu_num b) (Cpup.times b) zero_cputime = before ->
         nth (Cpup.cpu_num b) (Cpup.times a) zero_cputime = after ->
         Cpup.c_report (fst (Cpup.show_result b a)) = r)
  /\ (get_total d <> 0 ->
      r_total r
      = (r_idle r + r_system r + r_user r + r_irq r + r_guest r + steal d)
        mod UINT64_MOD)
  /\ (sum_all d < UINT64_MOD ->
      get_total d
      = r_idle r + r_system r + r_user r + r_irq r + r_guest r + steal d
      /\ 0 <= r_iowait r <= r_idle r
      /\ numerator (r_usage r)
         = r_system r + r_user r + r_irq r + r_guest r + steal d).
Proof.
  intros d r.
  split; [intros b a <- <-; apply cpu_report_is_cpus_report |].
  split; [intros b a <- <-; apply cpup_report_is_cpus_report |].
  pose proof (wf_fields d (get_diff_wf before after)) as Hpos.
  unfold r, Cpus.show_result. fold d.
  cbn [r_total r_idle r_system r_user r_irq r_guest r_iowait r_usage
         numerator].
  split.
  - intros Hnz. destruct (Z.eqb_spec (get_total d) 0) as [H0 | _]; [easy |].
    rewrite get_total_sum.
    unfold get_idle, get_system, get_user, get_irq, get_guest, add64, sum_all.
    replace (user d + nice d + system d + idle d + iowait d + irq d
             + softirq d + steal d + guest d + guest_nice d)
      with (idle d + iowait d + system d + (user d + nice d)
            + (irq d + softirq d) + (guest d + guest_nice d) + steal d)
      by lia.
    repeat (apply mod_add_congr;
            [| first [reflexivity | symmetry; apply mod_mod64]]).
    symmetry. apply mod_mod64.
  - intros Hsmall.
    destruct (total_load_identity_exact d (get_diff_wf before after) Hsmall)
      as (Ht & Hl & _).
    unfold get_idle, get_system, get_user, get_irq, get_guest, get_iowait,
      add64.
    unfold sum_all in Hsmall.
    rewrite !Z.mod_small by (unfold UINT64_MOD in *; lia).
    rewrite Ht, Hl. unfold sum_all, sum_busy. lia.
Qed.

Lemma report_categories_witness :
  let before := mk_cputime 100 0 50 800 20 5 0 3 0 0 in
  let after := mk_cputime 120 0 60 820 20 5 0 7 0 0 in
  let r := Cpus.show_result before after in
  r_total r = 54
  /\ r_idle r + r_system r + r_user r + r_irq r + r_guest r = 50
  /\ numerator (r_usage r) = 34.
Proof.
  intros before after r.
  destruct (report_categories stable_qsort before after)
    as (_ & _ & Hmod & Hexact).
  destruct Hexact as (Ht & _ & Hl); [vm_compute; reflexivity |].
  split; [vm_compute; reflexivity |].
  split; [vm_compute; reflexivity | exact Hl].
Defined.

(** ** Reading /proc/stat, all of it *)

Lemma length_update {A : Type} (i : nat) (v : A) l :
  List.length (update i v l) = List.length l.
Proof.
  revert i. induction l as [| x l IH]; intros [| i]; simpl; auto.
Qed.

(** The two copies of the loop over the core lines are the same
    function. *)
Lemma cpup_read_cores_is_cpu k :
  forall i lines times,
    Cpup.read_cores k i lines times = Cpu.read_cores k i lines times.
Proof.
  induction k as [| k IH]; intros i lines times; [reflexivity |].
  cbn [Cpup.read_cores Cpu.read_cores].
  destruct lines as [| line rest]; [reflexivity |].
  destruct (scan_cputime line core_format (nth i times zero_cputime))
    as [n work].
  destruct (n <? 4); [reflexivity | apply IH].
Qed.

Lemma scan_cputime_count line format work :
  fst (scan_cputime line format work) = fst (sscanf line format).
Proof.
  unfold scan_cputime. destruct (sscanf line format). reflexivity.
Qed.

Lemma scan_cputime_record line format work :
  snd (scan_cputime line format work)
  = store cputime_targets (snd (sscanf line format)) work.
Proof.
  unfold scan_cputime. destruct (sscanf line format). reflexivity.
Qed.

(** The loop over the core lines succeeds exactly when there are enough
    lines and each of them yields four fields. *)
Lemma read_cores_success k :
  forall i lines times,
    fst (Cpu.read_cores k i lines times) = SUCCESS
    <-> (k <= List.length lines)%nat
        /\ Forall (fun l => 4 <= core_fields l) (firstn k lines).
Proof.
  induction k as [| k IH]; intros i lines times.
  - cbn [Cpu.read_cores fst firstn]. split; [split; [lia | constructor] | reflexivity].
  - cbn [Cpu.read_cores]. destruct lines as [| line rest].
    + cbn [fst List.length firstn]. split; [discriminate | intros [H _]; lia].
    + pose proof (scan_cputime_count line core_format
                    (nth i times zero_cputime)) as Hn.
      destruct (scan_cputime line core_format (nth i times zero_cputime))
        as [n work]. cbn [fst] in Hn.
      cbn [List.length firstn].
      assert (Hline : core_fields line = n) by (symmetry; exact Hn).
      destruct (Z.ltb_spec n 4) as [Hlt | Hge].
      * cbn [fst]. split; [discriminate |].
        intros [_ H]. apply Forall_inv in H. lia.
      * rewrite IH. split.
        -- intros [Hlen Hall]. split; [lia |].
           apply Forall_cons; [lia | exact Hall].
        -- intros [Hlen Hall]. split; [lia |].
           exact (Forall_inv_tail Hall).
Qed.

Lemma read_cores_length k :
  forall i lines times,
    List.length (snd (Cpu.read_cores k i lines times)) = List.length times.
Proof.
  induction k as [| k IH]; intros i lines times; [reflexivity |].
  cbn [Cpu.read_cores]. destruct lines as [| line rest]; [reflexivity |].
  destruct (scan_cputime line core_format (nth i times zero_cputime))
    as [n work].
  destruct (n <? 4); cbn [snd]; [| rewrite IH]; apply length_update.
Qed.

(** The loop writes to the records [i], ..., [i + k - 1] only. *)
Lemma read_cores_untouched k :
  forall i lines times j,
    (j < i \/ i + k <= j)%nat ->
    nth j (snd (Cpu.read_cores k i lines times)) zero_cputime
    = nth j times zero_cputime.
Proof.
  induction k as [| k IH]; intros i lines times j Hj; [reflexivity |].
  cbn [Cpu.read_cores]. destruct lines as [| line rest]; [reflexivity |].
  destruct (scan_cputime line core_format (nth i times zero_cputime))
    as [n work].
  destruct (n <? 4); cbn [snd]; [| rewrite IH by lia];
    apply nth_update_other; lia.
Qed.

(** What the loop leaves in the records it has passed. *)
Lemma read_cores_records k :
  forall i lines times j,
    fst (Cpu.read_cores k i lines times) = SUCCESS ->
    (i <= j < i + k)%nat -> (j < List.length times)%nat ->
    nth j (snd (Cpu.read_cores k i lines times)) zero_cputime
    = store cputime_targets
        (snd (sscanf (nth (j - i) lines EmptyString) core_format))
        (nth j times zero_cputime).
Proof.
  induction k as [| k IH]; intros i lines times j Hok Hj Hlen; [lia |].
  cbn [Cpu.read_cores] in *. destruct lines as [| line rest];
    [discriminate Hok |].
  pose proof (scan_cputime_record line core_format
                (nth i times zero_cputime)) as Hrec.
  destruct (scan_cputime line core_format (nth i times zero_cputime))
    as [n work]. cbn [snd] in Hrec.
  destruct (n <? 4); [discriminate Hok |].
  destruct (Nat.eq_dec j i) as [-> | Hne].
  - rewrite read_cores_untouched by lia.
    rewrite nth_update_same by exact Hlen.
    rewrite Nat.sub_diag. cbn [nth]. exact Hrec.
  - rewrite IH; [| exact Hok | lia | now rewrite length_update].
    rewrite nth_update_other by lia.
    replace (j - i)%nat with (S (j - S i)) by lia. reflexivity.
Qed.

Lemma cpup_read_stat_unfold line rest cpu :
  Cpup.read_stat (Some (line :: rest)) cpu
  = let times := repeat zero_cputime (Cpup.cpu_num cpu)
                   ++ skipn (Cpup.cpu_num cpu) (Cpup.times cpu) in
    let scanned := sscanf line aggregate_format in
    let work := store cputime_targets (snd scanned)
                  (nth (Cpup.cpu_num cpu) times zero_cputime) in
    let times := update (Cpup.cpu_num cpu) work times in
    if fst scanned <? 4
    then (FAILURE, Cpup.mk_cpu (Cpup.cpu_num cpu) times (Cpup.procs cpu))
    else if (1 <? Cpup.cpu_num cpu)%nat then
      (fst (Cpu.read_cores (Cpup.cpu_num cpu) 0 rest times),
       Cpup.mk_cpu (Cpup.cpu_num cpu)
         (snd (Cpu.read_cores (Cpup.cpu_num cpu) 0 rest times))
         (Cpup.procs cpu))
    else (SUCCESS, Cpup.mk_cpu (Cpup.cpu_num cpu) times (Cpup.procs cpu)).
Proof.
  unfold Cpup.read_stat, scan_cputime.
  destruct (sscanf line aggregate_format) as [n vs]. cbn [fst snd].
  destruct (n <? 4); [reflexivity |].
  destruct (1 <? Cpup.cpu_num cpu)%nat; [| reflexivity].
  rewrite cpup_read_cores_is_cpu.
  destruct (Cpu.read_cores _ _ _ _). reflexivity.
Qed.

Lemma cpu_read_stat_indep (n : nat) line rest (c1 c2 : Cpu.cpu_t) :
  cpu_buffer n c1 -> cpu_buffer n c2 ->
  Cpu.read_stat (Some (line :: rest)) c1
  = Cpu.read_stat (Some (line :: rest)) c2.
Proof.
  intros [Hn1 Hl1] [Hn2 Hl2].
  rewrite !cpu_read_stat_unfold. cbv zeta.
  rewrite Hn1, Hn2, !skipn_all2 by lia. reflexivity.
Qed.

(** X5.  A read that got a first line leaves nothing of what the buffer
    held before: in cpus.c and in cpu.c the result and the buffer after
    the read are the same whatever the buffer was (for cpu.c, among
    buffers of the same number of cores). *)
Theorem read_stat_forgets_buffer (n : nat) (line : string)
  (rest : list string) :
  (forall c1 c2 : cputime_t,
      Cpus.read_stat (Some (line :: rest)) c1
      = Cpus.read_stat (Some (line :: rest)) c2)
  /\ (forall c1 c2 : Cpu.cpu_t,
         cpu_buffer n c1 -> cpu_buffer n c2 ->
         Cpu.read_stat (Some (line :: rest)) c1
         = Cpu.read_stat (Some (line :: rest)) c2).
Proof.
  split; [intros c1 c2; unfold Cpus.read_stat; cbv zeta; reflexivity |].
  intros c1 c2. apply cpu_read_stat_indep.
Qed.

Lemma read_stat_forgets_buffer_witness :
  let line := ("cpu 1 2 3 4 5" ++ newline)%string in
  let c1 := Cpu.new_cpu_t 1 (fun _ => mk_cputime 9 9 9 9 9 9 9 9 9 9) in
  let c2 := Cpu.new_cpu_t 1 (fun _ => zero_cputime) in
  Cpu.read_stat (Some [line]) c1 = Cpu.read_stat (Some [line]) c2.
Proof.
  intros line c1 c2.
  destruct (read_stat_forgets_buffer 1 line []) as [_ H].
  apply H; split; reflexivity.
Defined.

(** X6.  When [read_stat] of cpu.c and of cpup.c succeeds: never without
    a first line; with one, exactly when that line yields four fields
    and, on a machine with more than one core, there are as many further
    lines as cores and each of the first of them yields four fields.
    Lines behind those are not looked at. *)
Theorem read_stat_success_iff (line : string) (rest : list string) :
  let ok (num : nat) : Prop :=
    4 <= fst (sscanf line aggregate_format)
    /\ ((1 < num)%nat ->
        (num <= List.length rest)%nat
        /\ Forall (fun l => 4 <= core_fields l) (firstn num rest)) in
  (forall cpu : Cpu.cpu_t,
      fst (Cpu.read_stat None cpu) = FAILURE
      /\ fst (Cpu.read_stat (Some []) cpu) = FAILURE
      /\ (fst (Cpu.read_stat (Some (line :: rest)) cpu) = SUCCESS
          <-> ok (Cpu.num cpu)))
  /\ (forall cpu : Cpup.cpu_t,
         fst (Cpup.read_stat None cpu) = FAILURE
         /\ fst (Cpup.read_stat (Some []) cpu) = FAILURE
         /\ (fst (Cpup.read_stat (Some (line :: rest)) cpu) = SUCCESS
             <-> ok (Cpup.cpu_num cpu))).
Proof.
  intros ok.
  assert (Hiff : forall num times,
             (if fst (sscanf line aggregate_format) <? 4 then FAILURE
              else if (1 <? num)%nat
                   then fst (Cpu.read_cores num 0 rest times)
                   else SUCCESS) = SUCCESS <-> ok num).
  { intros num times. unfold ok.
    destruct (Z.ltb_spec (fst (sscanf line aggregate_format)) 4) as [Hlt | Hge].
    - split; [discriminate | intros [H _]; lia].
    - destruct (Nat.ltb_spec 1 num) as [Hnum | Hnum].
      + rewrite read_cores_success. split.
        * intros H. split; [exact Hge | intros _; exact H].
        * intros [_ H]. now apply H.
      + split; [| reflexivity]. intros _. split; [exact Hge | lia]. }
  split; intros cpu; (split; [reflexivity |]); (split; [reflexivity |]).
  - rewrite cpu_read_stat_unfold. cbv zeta.
    rewrite <- (Hiff (Cpu.num cpu)
                  (update (Cpu.num cpu)
                     (store cputime_targets
                        (snd (sscanf line aggregate_format))
                        (nth (Cpu.num cpu)
                           (repeat zero_cputime (Cpu.num cpu + 1)
                            ++ skipn (Cpu.num cpu + 1) (Cpu.times cpu))
                           zero_cputime))
                     (repeat zero_cputime (Cpu.num cpu + 1)
                      ++ skipn (Cpu.num cpu + 1) (Cpu.times cpu)))).
    destruct (_ <? 4); [reflexivity |].
    destruct (1 <? Cpu.num cpu)%nat; reflexivity.
  - rewrite cpup_read_stat_unfold. cbv zeta.
    rewrite <- (Hiff (Cpup.cpu_num cpu)
                  (update (Cpup.cpu_num cpu)
                     (store cputime_targets
                        (snd (sscanf line aggregate_format))
                        (nth (Cpup.cpu_num cpu)
                           (repeat zero_cputime (Cpup.cpu_num cpu)
                            ++ skipn (Cpup.cpu_num cpu) (Cpup.times cpu))
                           zero_cputime))
                     (repeat zero_cputime (Cpup.cpu_num cpu)
                      ++ skipn (Cpup.cpu_num cpu) (Cpup.times cpu)))).
    destruct (_ <? 4); [reflexivity |].
    destruct (1 <? Cpup.cpu_num cpu)%nat; reflexivity.
Qed.

Lemma core_line_values line :
  (List.length (snd (sscanf line core_format)) <= 10)%nat.
Proof.
  apply (sscanf_cputime_count line core_format
           (fst (sscanf line core_format)));
    [apply surjective_pairing | reflexivity].
Qed.

(** After the clearing and the aggregate line, the record of a core is
    cleared. *)
Lemma core_record_cleared (n m j : nat) (w : cputime_t)
  (tail : list cputime_t) :
  (j < n)%nat -> (j <> m)%nat ->
  nth j (update m w (repeat zero_cputime n ++ tail)) zero_cputime
  = zero_cputime.
Proof.
  intros Hj Hne. rewrite nth_update_other by lia.
  rewrite app_nth1 by (rewrite repeat_length; lia). apply nth_repeat.
Qed.

(** X7.  After a successful read on a machine with more than one core,
    in cpu.c and in cpup.c, the record of core [i] holds the values of
    the [i]-th line behind the aggregate line, in the order of the file,
    with 0 in the fields the line does not have; the buffer keeps its
    number of cores and of records. *)
Theorem read_stat_core_records (line : string) (rest : list string)
  (i : nat) :
  (forall cpu cpu' : Cpu.cpu_t,
      cpu_buffer (Cpu.num cpu) cpu ->
      Cpu.read_stat (Some (line :: rest)) cpu = (SUCCESS, cpu') ->
      (1 < Cpu.num cpu)%nat -> (i < Cpu.num cpu)%nat ->
      cpu_buffer (Cpu.num cpu) cpu'
      /\ 4 <= core_fields (nth i rest EmptyString)
      /\ fields (nth i (Cpu.times cpu') zero_cputime)
         = fields_of_line (nth i rest EmptyString) core_format)
  /\ (forall cpu cpu' : Cpup.cpu_t,
         List.length (Cpup.times cpu) = (Cpup.cpu_num cpu + 1)%nat ->
         Cpup.read_stat (Some (line :: rest)) cpu = (SUCCESS, cpu') ->
         (1 < Cpup.cpu_num cpu)%nat -> (i < Cpup.cpu_num cpu)%nat ->
         Cpup.cpu_num cpu' = Cpup.cpu_num cpu
         /\ List.length (Cpup.times cpu') = (Cpup.cpu_num cpu + 1)%nat
         /\ Cpup.procs cpu' = Cpup.procs cpu
         /\ 4 <= core_fields (nth i rest EmptyString)
         /\ fields (nth i (Cpup.times cpu') zero_cputime)
            = fields_of_line (nth i rest EmptyString) core_format).
Proof.
  assert (Hcore : forall num times,
             (i < num)%nat -> (num < List.length times)%nat ->
             nth i times zero_cputime = zero_cputime ->
             fst (Cpu.read_cores num 0 rest times) = SUCCESS ->
             4 <= core_fields (nth i rest EmptyString)
             /\ fields (nth i (snd (Cpu.read_cores num 0 rest times))
                          zero_cputime)
                = fields_of_line (nth i rest EmptyString) core_format).
  { intros num times Hi Hlen Hzero Hok. split.
    - apply read_cores_success in Hok. destruct Hok as [Hn Hall].
      rewrite Forall_forall in Hall. apply Hall.
      rewrite <- (firstn_skipn num rest) at 1.
      rewrite app_nth1 by (rewrite length_firstn; lia).
      apply nth_In. rewrite length_firstn. lia.
    - rewrite read_cores_records by (try exact Hok; lia).
      rewrite Nat.sub_0_r, Hzero. unfold fields_of_line.
      apply store_into_zero, core_line_values. }
  split.
  - intros cpu cpu' [_ Hlen] Hread Hnum Hi.
    rewrite cpu_read_stat_unfold in Hread. cbv zeta in Hread.
    rewrite skipn_all2, app_nil_r in Hread by lia.
    destruct (_ <? 4); [discriminate Hread |].
    destruct (Nat.ltb_spec 1 (Cpu.num cpu)) as [_ | Hle]; [| lia].
    assert (Hcpu' : cpu' = Cpu.mk_cpu (Cpu.num cpu)
                             (snd (Cpu.read_cores (Cpu.num cpu) 0 rest
                                     (update (Cpu.num cpu)
                                        (store cputime_targets
                                           (snd (sscanf line aggregate_format))
                                           (nth (Cpu.num cpu)
                                              (repeat zero_cputime
                                                 (Cpu.num cpu + 1))
                                              zero_cputime))
                                        (repeat zero_cputime
                                           (Cpu.num cpu + 1))))))
      by congruence.
    assert (Hok : fst (Cpu.read_cores (Cpu.num cpu) 0 rest
                         (update (Cpu.num cpu)
                            (store cputime_targets
                               (snd (sscanf line aggregate_format))
                               (nth (Cpu.num cpu)
                                  (repeat zero_cputime (Cpu.num cpu + 1))
                                  zero_cputime))
                            (repeat zero_cputime (Cpu.num cpu + 1))))
                  = SUCCESS) by congruence.
    clear Hread. subst cpu'. cbn [Cpu.times Cpu.num]. split.
    + split; [reflexivity |]. cbn [Cpu.times].
      rewrite read_cores_length, length_update, repeat_length. reflexivity.
    + apply Hcore; [exact Hi | | | exact Hok].
      * rewrite length_update, repeat_length. lia.
      * rewrite <- (app_nil_r (repeat zero_cputime (Cpu.num cpu + 1))).
        apply core_record_cleared; lia.
  - intros cpu cpu' Hlen Hread Hnum Hi.
    rewrite cpup_read_stat_unfold in Hread. cbv zeta in Hread.
    destruct (_ <? 4); [discriminate Hread |].
    destruct (Nat.ltb_spec 1 (Cpup.cpu_num cpu)) as [_ | Hle]; [| lia].
    set (times1 := update (Cpup.cpu_num cpu)
                     (store cputime_targets
                        (snd (sscanf line aggregate_format))
                        (nth (Cpup.cpu_num cpu)
                           (repeat zero_cputime (Cpup.cpu_num cpu)
                            ++ skipn (Cpup.cpu_num cpu) (Cpup.times cpu))
                           zero_cputime))
                     (repeat zero_cputime (Cpup.cpu_num cpu)
                      ++ skipn (Cpup.cpu_num cpu) (Cpup.times cpu)))
      in Hread.
    assert (Hcpu' : cpu' = Cpup.mk_cpu (Cpup.cpu_num cpu)
                             (snd (Cpu.read_cores (Cpup.cpu_num cpu) 0 rest
                                     times1))
                             (Cpup.procs cpu)) by congruence.
    assert (Hok : fst (Cpu.read_cores (Cpup.cpu_num cpu) 0 rest times1)
                  = SUCCESS) by congruence.
    clear Hread. subst cpu'. cbn [Cpup.times Cpup.cpu_num Cpup.procs].
    assert (Hlen1 : List.length times1 = (Cpup.cpu_num cpu + 1)%nat).
    { unfold times1.
      rewrite length_update, length_app, repeat_length, length_skipn. lia. }
    split; [reflexivity |]. split; [now rewrite read_cores_length |].
    split; [reflexivity |].
    apply Hcore; [exact Hi | lia | | exact Hok].
    unfold times1. apply core_record_cleared; lia.
Qed.

Lemma read_stat_core_records_witness :
  let line := ("cpu 3 3 3 3" ++ newline)%string in
  let rest := [("cpu0 1 1 1 1 1" ++ newline)%string;
               ("cpu1 2 2 2 2" ++ newline)%string] in
  let cpu := Cpu.new_cpu_t 2 (fun _ => mk_cputime 9 9 9 9 9 9 9 9 9 9) in
  let cpu' := snd (Cpu.read_stat (Some (line :: rest)) cpu) in
  fields (nth 0 (Cpu.times cpu') zero_cputime) = [1; 1; 1; 1; 1; 0; 0; 0; 0; 0]
  /\ fields (nth 1 (Cpu.times cpu') zero_cputime)
     = [2; 2; 2; 2; 0; 0; 0; 0; 0; 0].
Proof.
  intros line rest cpu cpu'.
  split; [vm_compute; reflexivity |].
  destruct (read_stat_core_records line rest 1) as [H _].
  destruct (H cpu cpu') as (_ & _ & Hf).
  - split; reflexivity.
  - vm_compute. reflexivity.
  - vm_compute. repeat constructor.
  - vm_compute. repeat constructor.
  - rewrite Hf. vm_compute. reflexivity.
Defined.

(** ** The run of cpu.c *)

Lemma new_cpu_t_buffer num uninit : cpu_buffer num (Cpu.new_cpu_t num uninit).
Proof.
  split; [reflexivity |]. unfold Cpu.new_cpu_t. cbn [Cpu.times].
  now rewrite length_map, length_seq.
Qed.

Lemma cpu_read_stat_buffer n f cpu :
  cpu_buffer n cpu -> cpu_buffer n (snd (Cpu.read_stat f cpu)).
Proof.
  intros [Hn Hl]. destruct f as [[| line rest] |]; try (split; assumption).
  rewrite cpu_read_stat_unfold. cbv zeta.
  rewrite skipn_all2, app_nil_r by lia.
  destruct (_ <? 4); [| destruct (1 <? Cpu.num cpu)%nat]; cbn [snd];
    (split; [exact Hn |]); cbn [Cpu.times];
    rewrite ?read_cores_length, length_update, repeat_length; lia.
Qed.

(** In a buffer for [n] cores, [read_stat] does what it does in a
    cleared one, as far as the result goes, and when it succeeds also as
    far as the buffer goes. *)
Lemma cpu_read_stat_canonical n f cpu :
  cpu_buffer n cpu ->
  fst (Cpu.read_stat f cpu) = fst (cpu_read n f)
  /\ (fst (cpu_read n f) = SUCCESS -> Cpu.read_stat f cpu = cpu_read n f).
Proof.
  intros Hb. unfold cpu_read.
  destruct f as [[| line rest] |].
  - split; [reflexivity | discriminate].
  - rewrite (cpu_read_stat_indep n line rest cpu
               (Cpu.new_cpu_t n (fun _ => zero_cputime)) Hb
               (new_cpu_t_buffer n _)).
    split; [reflexivity | intros _; reflexivity].
  - split; [reflexivity | discriminate].
Qed.

Lemma cpu_main_loop_trace n good :
  forall unread before after printed,
    cpu_buffer n before -> cpu_buffer n after ->
    Forall (cpu_readable n) good -> stops_at n unread ->
    Cpu.main_loop before after (good ++ unread) printed
    = run_end unread
        (printed ++ consecutive Cpu.show_result
                      (before :: map (cpu_snapshot n) good)).
Proof.
  induction good as [| g good IH];
    intros unread before after printed Hb Ha Hgood Hstop.
  - cbn [app map consecutive]. rewrite app_nil_r.
    destruct unread as [| f rest]; [reflexivity |].
    cbn [Cpu.main_loop run_end]. cbn [stops_at] in Hstop.
    destruct (cpu_read_stat_canonical n f after Ha) as [Hfst _].
    destruct (Cpu.read_stat f after) as [[|] c]; cbn [fst] in Hfst;
      [congruence | reflexivity].
  - cbn [app map Cpu.main_loop].
    pose proof (Forall_inv Hgood) as Hg. unfold cpu_readable in Hg.
    destruct (cpu_read_stat_canonical n g after Ha) as [_ Hsame].
    rewrite (Hsame Hg).
    pose proof (cpu_read_stat_buffer n g
                  (Cpu.new_cpu_t n (fun _ => zero_cputime))
                  (new_cpu_t_buffer n _)) as Hs.
    fold (cpu_read n g) in Hs. fold (cpu_snapshot n g) in Hs.
    rewrite (surjective_pairing (cpu_read n g)), Hg.
    fold (cpu_snapshot n g).
    rewrite (IH unread (cpu_snapshot n g) before _ Hs Hb
               (Forall_inv_tail Hgood) Hstop).
    rewrite <- app_assoc. reflexivity.
Qed.

(** X8.  What a run of cpu.c prints.  As long as the samples can be
    read, every cycle prints one line that compares the sample of the
    cycle with the sample of the cycle before, not with an older one (the
    two buffers change places), whatever the buffers held at first; the
    first sample that cannot be read ends the run with EXIT_FAILURE
    after the lines printed so far. *)
Theorem cpu_main_trace (num : nat) (uninit_after uninit_before : nat -> cputime_t)
  (good unread : list file) :
  Forall (cpu_readable num) good -> stops_at num unread ->
  Cpu.main num uninit_after uninit_before (good ++ unread)
  = run_end unread
      (consecutive Cpu.show_result (map (cpu_snapshot num) good)).
Proof.
  intros Hgood Hstop. unfold Cpu.main.
  pose proof (new_cpu_t_buffer num uninit_after) as Ha.
  pose proof (new_cpu_t_buffer num uninit_before) as Hb.
  destruct good as [| g good].
  - cbn [app map consecutive].
    destruct unread as [| f rest]; [reflexivity |].
    cbn [stops_at run_end] in *.
    destruct (cpu_read_stat_canonical num f _ Hb) as [Hfst _].
    destruct (Cpu.read_stat f _) as [[|] c]; cbn [fst] in Hfst;
      [congruence | reflexivity].
  - cbn [app map].
    pose proof (Forall_inv Hgood) as Hg. unfold cpu_readable in Hg.
    destruct (cpu_read_stat_canonical num g _ Hb) as [_ Hsame].
    rewrite (Hsame Hg).
    pose proof (cpu_read_stat_buffer num g
                  (Cpu.new_cpu_t num (fun _ => zero_cputime))
                  (new_cpu_t_buffer num _)) as Hs.
    fold (cpu_read num g) in Hs. fold (cpu_snapshot num g) in Hs.
    rewrite (surjective_pairing (cpu_read num g)), Hg.
    fold (cpu_snapshot num g).
    apply (cpu_main_loop_trace num good unread (cpu_snapshot num g) _ []
             Hs Ha (Forall_inv_tail Hgood) Hstop).
Qed.

Lemma cpu_main_trace_witness :
  let s1 := Some [("cpu 100 0 50 800 20 5 0 0 0 0" ++ newline)%string] in
  let s2 := Some [("cpu 120 0 60 820 20 5 0 0 0 0" ++ newline)%string] in
  let s3 := Some [("cpu 130 0 60 850 20 5 0 0 0 0" ++ newline)%string] in
  let junk := fun _ : nat => mk_cputime 9 9 9 9 9 9 9 9 9 9 in
  exists l1 l2,
    Cpu.main 1 junk junk [s1; s2; s3; None; s1]
    = Exited EXIT_FAILURE [l1; l2]
    /\ r_total (fst l1) = 50 /\ numerator (r_usage (fst l1)) = 30
    /\ r_total (fst l2) = 40 /\ numerator (r_usage (fst l2)) = 10.
Proof.
  intros s1 s2 s3 junk.
  eexists _, _. split.
  - apply (cpu_main_trace 1 junk junk [s1; s2; s3] [None; s1]).
    + repeat (apply Forall_cons; [vm_compute; reflexivity |]).
      apply Forall_nil.
    + reflexivity.
  - vm_compute. repeat split.
Defined.

(** ** The run of cpus.c *)

Lemma cpus_main_loop_records samples :
  forall before after printed,
    Cpus.main_loop before after samples printed
    = Running (printed ++ consecutive Cpus.show_result
                            (before :: cpus_records after samples)).
Proof.
  induction samples as [| f rest IH]; intros before after printed.
  - cbn [Cpus.main_loop cpus_records consecutive]. now rewrite app_nil_r.
  - cbn [Cpus.main_loop cpus_records].
    rewrite (surjective_pairing (Cpus.read_stat f after)).
    rewrite IH, <- app_assoc. reflexivity.
Qed.

Lemma cpus_read_stat_has_line f c :
  has_line f -> snd (Cpus.read_stat f c) = cpus_snapshot f.
Proof.
  intros (line & rest & ->). unfold cpus_snapshot, Cpus.read_stat.
  cbv zeta. reflexivity.
Qed.

Lemma cpus_records_have_lines samples :
  Forall has_line samples ->
  forall after, cpus_records after samples = map cpus_snapshot samples.
Proof.
  induction 1 as [| f rest Hf _ IH]; intros after; [reflexivity |].
  cbn [cpus_records map]. rewrite (cpus_read_stat_has_line f after Hf).
  now rewrite IH.
Qed.

(** X9.  What a run of cpus.c prints when every sample has a first line:
    one line per cycle that compares the record of the cycle's sample
    with the record of the sample before, whatever the two uninitialised
    locals held, and whether or not the lines could be parsed. *)
Theorem cpus_main_trace (before after : cputime_t) (samples : list file) :
  Forall has_line samples ->
  Cpus.main before after samples
  = Running (consecutive Cpus.show_result (map cpus_snapshot samples)).
Proof.
  intros Hall. unfold Cpus.main.
  destruct samples as [| f rest]; [reflexivity |].
  rewrite (surjective_pairing (Cpus.read_stat f before)).
  rewrite cpus_main_loop_records. cbn [app map].
  rewrite (cpus_read_stat_has_line f before (Forall_inv Hall)).
  now rewrite (cpus_records_have_lines rest (Forall_inv_tail Hall)).
Qed.

Lemma cpus_main_trace_witness :
  let s1 := Some [("cpu 100 0 50 800 20 0 0 0 0 0" ++ newline)%string] in
  let s2 := Some [("cpu 120 0 60" ++ newline)%string] in
  let junk := mk_cputime 9 9 9 9 9 9 9 9 9 9 in
  exists l,
    Cpus.main junk junk [s1; s2] = Running [l]
    /\ fst (Cpus.read_stat s2 junk) = FAILURE
    /\ numerator (r_usage l) = 30 /\ r_idle l = 2 ^ 64 - 820.
Proof.
  intros s1 s2 junk. eexists. split.
  - apply (cpus_main_trace junk junk [s1; s2]).
    repeat (apply Forall_cons; [eexists _, _; reflexivity |]).
    apply Forall_nil.
  - vm_compute. repeat split.
Defined.

Lemma consecutive_middle {A B : Type} (g : A -> A -> B) l1 x y l2 :
  nth_error (consecutive g (l1 ++ x :: y :: l2)) (List.length l1)
  = Some (g x y).
Proof.
  induction l1 as [| z l1 IH]; [reflexivity |].
  cbn [app List.length]. destruct l1 as [| w l1]; cbn [app consecutive nth_error] in *;
    exact IH.
Qed.

Lemma cpus_read_stat_no_line f c : no_line f -> snd (Cpus.read_stat f c) = c.
Proof. intros [-> | ->]; reflexivity. Qed.

(** The records of a run up to a sample without a line, which repeats
    the record before it. *)
Lemma cpus_records_repeat s1 :
  forall after f s2,
    s1 <> [] -> no_line f ->
    exists R1 r R2,
      cpus_records after (s1 ++ f :: s2) = R1 ++ r :: r :: R2
      /\ S (List.length R1) = List.length s1.
Proof.
  induction s1 as [| g s1 IH]; intros after f s2 Hne Hf; [easy |].
  cbn [app cpus_records].
  destruct s1 as [| g' s1'].
  - exists [], (snd (Cpus.read_stat g after)), (cpus_records (snd (Cpus.read_stat g after)) s2).
    cbn [app cpus_records].
    rewrite (cpus_read_stat_no_line f _ Hf). split; reflexivity.
  - destruct (IH (snd (Cpus.read_stat g after)) f s2 ltac:(discriminate) Hf)
      as (R1 & r & R2 & Heq & Hlen).
    exists (snd (Cpus.read_stat g after) :: R1), r, R2.
    rewrite Heq. split; [reflexivity |]. cbn [List.length] in *. lia.
Qed.

(** X10.  From the second cycle on, a cycle of cpus.c whose sample
    cannot be opened, or is empty, prints the idle line (usage 0, T:1, 0
    in every category): the failed read leaves the record as it was, and
    the record is compared with itself. *)
Theorem cpus_failed_read_prints_idle (before after : cputime_t)
  (earlier later : list file) (f : file) :
  (2 <= List.length earlier)%nat -> no_line f ->
  exists printed,
    Cpus.main before after (earlier ++ f :: later) = Running printed
    /\ nth_error printed (List.length earlier - 1) = Some idle_report.
Proof.
  intros Hlen Hf.
  destruct earlier as [| f0 s1]; [cbn in Hlen; lia |].
  assert (Hne : s1 <> []) by (destruct s1; [cbn in Hlen; lia | discriminate]).
  unfold Cpus.main. cbn [app].
  rewrite (surjective_pairing (Cpus.read_stat f0 before)).
  rewrite cpus_main_loop_records. cbn [app].
  destruct (cpus_records_repeat s1 after f later Hne Hf)
    as (R1 & r & R2 & Heq & HlenR).
  rewrite Heq. eexists. split; [reflexivity |].
  replace (List.length (f0 :: s1) - 1)%nat
    with (List.length (snd (Cpus.read_stat f0 before) :: R1))
    by (cbn [List.length]; lia).
  rewrite app_comm_cons.
  rewrite (consecutive_middle Cpus.show_result
             (snd (Cpus.read_stat f0 before) :: R1) r r R2).
  now rewrite cpus_show_result_self.
Qed.

Lemma cpus_failed_read_prints_idle_witness :
  let s1 := Some [("cpu 100 0 50 800 20 5 0 0 0 0" ++ newline)%string] in
  let s2 := Some [("cpu 120 0 60 820 20 5 0 0 0 0" ++ newline)%string] in
  exists printed,
    Cpus.main zero_cputime zero_cputime ([s1; s2] ++ None :: [s1])
    = Running printed
    /\ nth_error printed (List.length [s1; s2] - 1) = Some idle_report.
Proof.
  intros s1 s2. apply cpus_failed_read_prints_idle; [cbn; lia | now left].
Defined.

(** ** The process table *)

Lemma pid_sorted_by_pids l l' :
  map Cpup.pid l = map Cpup.pid l' -> pid_sorted l -> pid_sorted l'.
Proof.
  unfold pid_sorted. revert l'.
  induction l as [| x l IH]; intros [| y l'] Heq Hs; try discriminate;
    [constructor |].
  cbn [map] in Heq. injection Heq as Hxy Hrest.
  inversion Hs as [| ? ? Hsl Hall]; subst.
  constructor; [now apply IH |].
  rewrite Forall_forall in *. intros z Hz.
  apply (in_map Cpup.pid) in Hz. rewrite <- Hrest in Hz.
  apply in_map_iff in Hz. destruct Hz as (w & Hw & Hin).
  specialize (Hall w Hin). lia.
Qed.

Lemma show_result_process_after (Q : Qsort) total before after :
  snd (Cpup.show_result_process total before after)
  = Cpup.mk_cpu (Cpup.cpu_num after) (Cpup.times after)
      (Cpup.load_loop (Cpup.procs before) (Cpup.procs after)).
Proof. reflexivity. Qed.

Lemma show_result_after (Q : Qsort) before after :
  snd (Cpup.show_result before after)
  = Cpup.mk_cpu (Cpup.cpu_num after) (Cpup.times after)
      (Cpup.load_loop (Cpup.procs before) (Cpup.procs after)).
Proof.
  unfold Cpup.show_result.
  rewrite (surjective_pairing (Cpup.show_result_process _ before after)).
  cbn [snd]. apply show_result_process_after.
Qed.

(** X11.  Printing a cycle changes the snapshot [after] in the loads of
    its samples and in nothing else: the counters, the samples, their
    other fields and their order stay, so a snapshot sorted by process
    id is still sorted when it becomes [before], although the table was
    sorted by load. *)
Theorem show_result_changes_loads_only (Q : Qsort)
  (before after : Cpup.cpu_t) :
  let after' := snd (Cpup.show_result before after) in
  Cpup.cpu_num after' = Cpup.cpu_num after
  /\ Cpup.times after' = Cpup.times after
  /\ map without_load (Cpup.procs after')
     = map without_load (Cpup.procs after)
  /\ (pid_sorted (Cpup.procs after) -> pid_sorted (Cpup.procs after')).
Proof.
  intros after'. unfold after'. rewrite show_result_after.
  cbn [Cpup.cpu_num Cpup.times Cpup.procs].
  split; [reflexivity |]. split; [reflexivity |].
  split; [apply load_loop_keeps_samples |].
  apply pid_sorted_by_pids. symmetry. apply load_loop_pids.
Qed.

Lemma show_result_changes_loads_only_witness :
  let before := snapshot_of [sample_process 10 3 2] in
  let after := snapshot_of [sample_process 10 20 5; sample_process 11 30 10] in
  let after' := snd (@Cpup.show_result stable_qsort before after) in
  map Cpup.pid (Cpup.procs after') = [10; 11]
  /\ map Cpup.load (Cpup.procs after') = [20; 40]
  /\ pid_sorted (Cpup.procs after').
Proof.
  intros before after after'.
  destruct (show_result_changes_loads_only stable_qsort before after)
    as (_ & _ & _ & Hsorted).
  split; [vm_compute; reflexivity |]. split; [vm_compute; reflexivity |].
  apply Hsorted. unfold after, snapshot_of, pid_sorted. cbn [Cpup.procs].
  repeat constructor. vm_compute. discriminate.
Defined.

Lemma table_rows (Q : Qsort) total before after :
  snd (fst (Cpup.show_result_process total before after))
  = map (Cpup.show_row total)
      (firstn (Nat.min 10 (List.length (Cpup.procs after)))
         (qsort Cpup.comp_load
            (Cpup.load_loop (Cpup.procs before) (Cpup.procs after)))).
Proof.
  unfold Cpup.show_result_process, Cpup.proc_num, Cpup.DISPLAY_PROCESS_NUM.
  cbn [fst snd].
  destruct (Nat.ltb_spec (List.length (Cpup.procs after)) 10);
    do 2 f_equal; lia.
Qed.

Lemma NoDup_firstn {A : Type} (n : nat) (l : list A) :
  NoDup l -> NoDup (firstn n l).
Proof.
  intros H. revert n. induction H as [| x l Hx Hl IH]; intros [| n];
    cbn [firstn]; try constructor; auto.
  intros Hin. apply Hx. eapply firstn_In, Hin.
Qed.

(** X12.  The table is made of processes of [after]: the count printed
    above it is the number of samples in [after]; every row carries the
    process id of one of them, so a process that is in [before] only is
    never shown; and when no process id is twice in [after], none is
    twice in the table. *)
Theorem table_shows_after_processes (Q : Qsort) (total : Z)
  (before after : Cpup.cpu_t) :
  let out := fst (Cpup.show_result_process total before after) in
  fst out = List.length (Cpup.procs after)
  /\ incl (map Cpup.row_pid (snd out)) (map Cpup.pid (Cpup.procs after))
  /\ (NoDup (map Cpup.pid (Cpup.procs after)) ->
      NoDup (map Cpup.row_pid (snd out))).
Proof.
  intros out. unfold out.
  split; [reflexivity |].
  rewrite table_rows, map_map.
  rewrite (map_ext (fun p => Cpup.row_pid (Cpup.show_row total p)) Cpup.pid)
    by reflexivity.
  rewrite <- firstn_map.
  pose proof (qsort_permutes _ Cpup.comp_load
                (Cpup.load_loop (Cpup.procs before) (Cpup.procs after)))
    as Hperm.
  apply (Permutation_map Cpup.pid) in Hperm.
  rewrite load_loop_pids in Hperm.
  split.
  - intros v Hv. apply firstn_In in Hv.
    apply (Permutation_in _ (Permutation_sym Hperm)), Hv.
  - intros Hnd. apply NoDup_firstn.
    apply (Permutation_NoDup Hperm), Hnd.
Qed.

Lemma table_shows_after_processes_witness :
  let before := snapshot_of [sample_process 9 1 1; sample_process 10 3 2] in
  let after := snapshot_of [sample_process 10 20 5; sample_process 11 30 10] in
  let out := fst (@Cpup.show_result_process stable_qsort 50 before after) in
  fst out = 2%nat /\ map Cpup.row_pid (snd out) = [11; 10]
  /\ NoDup (map Cpup.row_pid (snd out)).
Proof.
  intros before after out.
  destruct (table_shows_after_processes stable_qsort 50 before after)
    as (Hcount & _ & Hnodup).
  split; [exact Hcount |]. split; [vm_compute; reflexivity |].
  apply Hnodup. unfold after, snapshot_of. cbn [Cpup.procs map].
  repeat constructor; cbn [In Cpup.pid sample_process]; intros H;
    repeat (destruct H as [H | H]; [discriminate H |]); exact H.
Defined.

(** ** Parsing /proc/<pid>/stat *)

Lemma after_first_app c pre x :
  has_char c pre = false ->
  Cpup.after_first c (pre ++ String c x) = Some x.
Proof.
  induction pre as [| c' pre IH]; cbn [has_char append Cpup.after_first].
  - intros _. now rewrite Ascii.eqb_refl.
  - intros H. apply orb_false_iff in H. destruct H as [Hc Hpre].
    rewrite Hc. now apply IH.
Qed.

Lemma last_offset_none c s :
  has_char c s = false -> Cpup.last_offset c s = None.
Proof.
  induction s as [| c' s IH]; cbn [has_char Cpup.last_offset];
    [reflexivity |].
  intros H. apply orb_false_iff in H. destruct H as [Hc Hs].
  now rewrite (IH Hs), Hc.
Qed.

Lemma last_offset_app c cm tail :
  has_char c tail = false ->
  Cpup.last_offset c (cm ++ String c tail) = Some (String.length cm).
Proof.
  intros Htail. induction cm as [| c' cm IH];
    cbn [append Cpup.last_offset String.length].
  - now rewrite (last_offset_none c tail Htail), Ascii.eqb_refl.
  - now rewrite IH.
Qed.

Lemma advance_app s x : Cpup.advance (String.length s) (s ++ x) = x.
Proof.
  induction s as [| c s IH]; cbn [String.length append Cpup.advance].
  - destruct x; reflexivity.
  - exact IH.
Qed.

Lemma advance_add n m s :
  Cpup.advance (n + m) s = Cpup.advance m (Cpup.advance n s).
Proof.
  revert s. induction n as [| n IH]; intros s; cbn [Nat.add Cpup.advance].
  - destruct m, s; reflexivity.
  - destruct s as [| c s]; [| apply IH].
    destruct m; reflexivity.
Qed.

Lemma prefix_app n s x :
  (n <= String.length s)%nat -> prefix n (s ++ x) = prefix n s.
Proof.
  unfold prefix. revert s. induction n as [| n IH]; intros s Hn.
  - destruct s, x; reflexivity.
  - destruct s as [| c s]; cbn [String.length] in Hn; [lia |].
    cbn [append substring]. f_equal. apply IH. lia.
Qed.

Lemma prefix_length n s : (String.length (prefix n s) <= n)%nat.
Proof.
  unfold prefix. revert s. induction n as [| n IH]; intros s.
  - destruct s; cbn; lia.
  - destruct s as [| c s]; cbn [substring String.length]; [lia |].
    specialize (IH s). lia.
Qed.

Lemma length_append s x :
  String.length (s ++ x) = (String.length s + String.length x)%nat.
Proof.
  induction s as [| c s IH]; cbn [append String.length]; [reflexivity |].
  now rewrite IH.
Qed.

Lemma parse_stat_unfold line proc :
  Cpup.parse_stat line proc
  = match Cpup.after_first "(" line with
    | None => Undefined_behaviour
    | Some l =>
        match Cpup.last_offset ")" l with
        | None => Undefined_behaviour
        | Some tmp =>
            let len := if (Cpup.PR_NAME_LEN <=? tmp)%nat
                       then (Cpup.PR_NAME_LEN - 1)%nat else tmp in
            if (String.length l <? tmp + 2)%nat then Undefined_behaviour
            else
              let scanned :=
                sscanf (Cpup.advance (tmp + 2) l) Cpup.process_format in
              Returns (if negb (fst scanned =? 7) then FAILURE else SUCCESS,
                       store Cpup.process_targets (snd scanned)
                         (Cpup.set_comm (prefix len l) proc))
        end
    end.
Proof.
  unfold Cpup.parse_stat, prefix.
  destruct (Cpup.after_first "(" line) as [l |]; [| reflexivity].
  destruct (Cpup.last_offset ")" l) as [tmp |]; [| reflexivity].
  cbv zeta. destruct (_ <? _)%nat; [reflexivity |].
  destruct (sscanf _ Cpup.process_format) as [n vs]. cbn [fst snd].
  destruct (negb (n =? 7)); reflexivity.
Qed.

(** X13.  The command name is the text between the first opening and the
    last closing parenthesis of the line, cut to 15 characters, also when
    it holds parentheses or blanks itself; the fields are scanned behind
    the closing parenthesis and the one character that follows it, and
    the sample is accepted exactly when seven of them are stored. *)
Theorem parse_stat_well_formed (pre comm : string) (sep : ascii)
  (tail : string) (proc : Cpup.process_t) :
  has_char "(" pre = false ->
  has_char ")" (String sep tail) = false ->
  let scanned := sscanf tail Cpup.process_format in
  Cpup.parse_stat (stat_record pre comm sep tail) proc
  = Returns
      (if fst scanned =? 7 then SUCCESS else FAILURE,
       store Cpup.process_targets (snd scanned)
         (Cpup.set_comm (prefix (Nat.min (String.length comm) 15) comm)
            proc)).
Proof.
  intros Hpre Htail scanned. rewrite parse_stat_unfold. unfold stat_record.
  rewrite (after_first_app "(" pre _ Hpre).
  rewrite (last_offset_app ")" comm _ Htail).
  cbv zeta.
  assert (Hlen : String.length (comm ++ String ")" (String sep tail))
                 = (String.length comm + 2 + String.length tail)%nat).
  { rewrite length_append. cbn [String.length]. lia. }
  destruct (Nat.ltb_spec
              (String.length (comm ++ String ")" (String sep tail)))
              (String.length comm + 2)) as [Hlt | _]; [lia |].
  rewrite advance_add, advance_app. cbn [Cpup.advance]. fold scanned.
  f_equal. f_equal.
  - destruct (fst scanned =? 7); reflexivity.
  - f_equal. f_equal. unfold Cpup.PR_NAME_LEN.
    destruct (Nat.leb_spec 16 (String.length comm)) as [Hbig | Hsmall].
    + rewrite Nat.min_r by lia. apply prefix_app. lia.
    + rewrite Nat.min_l by lia. apply prefix_app. lia.
Qed.

Lemma parse_stat_well_formed_witness :
  let tail := "S 1 2 3 0 -1 4 5 6 7 8 11 12 13 14 20 -5 1"%string in
  let line := stat_record "77 " "a (very) long command)) name" " " tail in
  exists p,
    Cpup.parse_stat line (Cpup.set_pid 77 Cpup.zero_process)
    = Returns (SUCCESS, p)
    /\ Cpup.comm p = "a (very) long c"%string
    /\ (Cpup.utime p, Cpup.stime p, Cpup.priority p, Cpup.nice p)
       = (11, 12, 20, -5).
Proof.
  intros tail line. eexists. split.
  - unfold line. rewrite parse_stat_well_formed by reflexivity.
    vm_compute. reflexivity.
  - split; reflexivity.
Defined.

Lemma store_keeps_comm vs p :
  Cpup.comm (store Cpup.process_targets vs p) = Cpup.comm p.
Proof.
  unfold Cpup.process_targets.
  do 8 (destruct vs as [| ? vs]; [destruct p; reflexivity |]).
  destruct p; reflexivity.
Qed.

(** X14.  Whatever the line is, a sample that [parse_stat] returns has a
    command name of at most 15 characters: the 16 bytes of [comm] are
    never overrun. *)
Theorem parse_stat_comm_fits (line : string) (proc : Cpup.process_t)
  (r : result_t) (proc' : Cpup.process_t) :
  Cpup.parse_stat line proc = Returns (r, proc') ->
  (String.length (Cpup.comm proc') <= 15)%nat.
Proof.
  rewrite parse_stat_unfold.
  destruct (Cpup.after_first "(" line) as [l |]; [| discriminate].
  destruct (Cpup.last_offset ")" l) as [tmp |]; [| discriminate].
  cbv zeta. destruct (_ <? _)%nat; [discriminate |].
  intros H.
  assert (E : proc'
              = store Cpup.process_targets
                  (snd (sscanf (Cpup.advance (tmp + 2) l)
                          Cpup.process_format))
                  (Cpup.set_comm
                     (prefix (if (Cpup.PR_NAME_LEN <=? tmp)%nat
                              then (Cpup.PR_NAME_LEN - 1)%nat else tmp) l)
                     proc)) by congruence.
  rewrite E, store_keeps_comm.
  replace (Cpup.comm (Cpup.set_comm _ proc)) with
    (prefix (if (Cpup.PR_NAME_LEN <=? tmp)%nat
             then (Cpup.PR_NAME_LEN - 1)%nat else tmp) l)
    by (destruct proc; reflexivity).
  pose proof (prefix_length
                (if (Cpup.PR_NAME_LEN <=? tmp)%nat
                 then (Cpup.PR_NAME_LEN - 1)%nat else tmp) l) as Hp.
  unfold Cpup.PR_NAME_LEN in *.
  destruct (Nat.leb_spec 16 tmp); cbn [Nat.sub] in *; lia.
Qed.

Lemma parse_stat_comm_fits_witness :
  let line :=
    stat_line "5" "0123456789abcdefghij" "R 1 2 3 0 -1 4 5 6 7 8 1 1 0 0 20 0" in
  exists p,
    Cpup.parse_stat line Cpup.zero_process = Returns (SUCCESS, p)
    /\ Cpup.comm p = "0123456789abcde"%string
    /\ (String.length (Cpup.comm p) <= 15)%nat.
Proof.
  intros line. eexists. split; [vm_compute; reflexivity |].
  split; [reflexivity |].
  apply (parse_stat_comm_fits line Cpup.zero_process SUCCESS).
  vm_compute. reflexivity.
Defined.

(** ** Collecting the processes, all of it *)

Lemma read_entries_collected fs names :
  forall procs procs',
    Cpup.read_entries fs names procs = Returns procs' ->
    procs' = procs ++ collected fs names.
Proof.
  induction names as [| name rest IH]; intros procs procs' H;
    cbn [Cpup.read_entries] in H.
  - injection H as <-. cbn. now rewrite app_nil_r.
  - unfold collected. cbn [flat_map]. fold (collected fs rest).
    unfold collected_from.
    destruct (Cpup.starts_with_digit name).
    + destruct (Cpup.read_pid_stat fs Cpup.zero_process (Cpup.atoi name))
        as [[[|] q] |]; [| | discriminate].
      * rewrite (IH _ _ H), <- app_assoc. reflexivity.
      * apply (IH _ _ H).
    + apply (IH _ _ H).
Qed.

Lemma read_entries_returns_iff fs names :
  forall procs,
    (exists procs', Cpup.read_entries fs names procs = Returns procs')
    <-> all_readable fs names.
Proof.
  unfold all_readable.
  induction names as [| name rest IH]; intros procs;
    cbn [Cpup.read_entries].
  - split; [constructor | eauto].
  - destruct (Cpup.starts_with_digit name) eqn:Hd.
    + unfold record_readable at 1.
      destruct (Cpup.read_pid_stat fs Cpup.zero_process (Cpup.atoi name))
        as [[r q] |] eqn:Hq.
      * assert (Hstep : forall l,
                   (exists procs', Cpup.read_entries fs rest l = Returns procs')
                   <-> Forall (fun n => Cpup.starts_with_digit n = true ->
                                        record_readable fs (Cpup.atoi n))
                         (name :: rest)).
        { intros l. rewrite (IH l). split.
          - intros H. constructor; [| exact H].
            intros _. unfold record_readable. rewrite Hq. eauto.
          - intros H. exact (Forall_inv_tail H). }
        destruct r; apply Hstep.
      * split; [intros [p Hp]; discriminate |].
        intros H. apply Forall_inv in H. destruct (H Hd) as (r & p & Hrp).
        congruence.
    + rewrite (IH procs). split.
      * intros H. constructor; [intros Hd'; congruence | exact H].
      * intros H. exact (Forall_inv_tail H).
Qed.

Lemma read_process_unfold (Q : Qsort) fs cpu :
  Cpup.read_process fs cpu
  = match Cpup.proc_dir fs with
    | None =>
        Returns (FAILURE, Cpup.mk_cpu (Cpup.cpu_num cpu) (Cpup.times cpu) [])
    | Some names =>
        match Cpup.read_entries fs names [] with
        | Undefined_behaviour => Undefined_behaviour
        | Returns procs =>
            Returns (SUCCESS,
                     Cpup.mk_cpu (Cpup.cpu_num cpu) (Cpup.times cpu)
                       (qsort Cpup.comp_pid procs))
        end
    end.
Proof. reflexivity. Qed.



Lemma NoDup_map_eq {A B : Type} (f : A -> B) (l : list A) a b :
  NoDup (map f l) -> In a l -> In b l -> f a = f b -> a = b.
Proof.
  induction l as [| x l IH]; cbn [map In]; [easy |].
  intros Hnd Ha Hb Hf. inversion Hnd as [| ? ? Hx Hl]; subst.
  destruct Ha as [-> | Ha], Hb as [-> | Hb]; auto.
  - exfalso. apply Hx. rewrite Hf. now apply in_map.
  - exfalso. apply Hx. rewrite <- Hf. now apply in_map.
Qed.

(** Two snapshots sorted by process id that hold the same samples, no
    process id twice, are the same list. *)
Lemma pid_sorted_unique l1 :
  forall l2,
    pid_sorted l1 -> pid_sorted l2 -> Permutation l1 l2 ->
    NoDup (map Cpup.pid l1) -> l1 = l2.
Proof.
  unfold pid_sorted.
  induction l1 as [| x t1 IH]; intros l2 H1 H2 Hp Hnd.
  - apply Permutation_nil in Hp. now subst.
  - destruct l2 as [| y t2];
      [apply Permutation_sym, Permutation_nil in Hp; discriminate |].
    inversion H1 as [| ? ? Hs1 Hall1]; subst.
    inversion H2 as [| ? ? Hs2 Hall2]; subst.
    rewrite Forall_forall in Hall1, Hall2.
    assert (Hy : In y (x :: t1)).
    { apply (Permutation_in _ (Permutation_sym Hp)). now left. }
    assert (Hx : In x (y :: t2)).
    { apply (Permutation_in _ Hp). now left. }
    assert (Hxy : Cpup.pid x <= Cpup.pid y).
    { destruct Hy as [-> | Hy]; [lia | now apply Hall1]. }
    assert (Hyx : Cpup.pid y <= Cpup.pid x).
    { destruct Hx as [-> | Hx]; [lia | now apply Hall2]. }
    assert (Heq : x = y).
    { apply (NoDup_map_eq Cpup.pid (x :: t1)); auto; [now left | lia]. }
    subst y. f_equal. apply IH; auto.
    + now apply Permutation_cons_inv in Hp.
    + cbn [map] in Hnd. now inversion Hnd.
Qed.

Lemma names_are_pids_perm names names' :
  Permutation names names' -> names_are_pids names -> names_are_pids names'.
Proof. unfold names_are_pids. intros Hp. now apply Permutation_Forall. Qed.

Lemma collected_pids fs names p :
  In p (collected fs names) ->
  exists name, In name names
               /\ Cpup.starts_with_digit name = true
               /\ Cpup.pid p = Cpup.atoi name.
Proof.
  unfold collected. rewrite in_flat_map. intros (name & Hin & Hp).
  exists name. split; [exact Hin |]. unfold collected_from in Hp.
  destruct (Cpup.starts_with_digit name) eqn:Hd; [| destruct Hp].
  split; [reflexivity |].
  destruct (Cpup.read_pid_stat fs Cpup.zero_process (Cpup.atoi name))
    as [[[|] q] |] eqn:Hq; try (destruct Hp; fail).
  destruct Hp as [<- | []].
  now apply read_pid_stat_pid in Hq.
Qed.

Lemma read_entries_result fs names :
  Cpup.read_entries fs names []
  = Returns (collected fs names)
  \/ (Cpup.read_entries fs names [] = Undefined_behaviour
      /\ ~ all_readable fs names).
Proof.
  destruct (Cpup.read_entries fs names []) as [procs |] eqn:Hread.
  - left. now rewrite (read_entries_collected fs names [] procs Hread).
  - right. split; [reflexivity |]. intros Hall.
    apply (read_entries_returns_iff fs names []) in Hall.
    destruct Hall as [p Hp]. congruence.
Qed.

(** The loop looks at the records only, not at the listing. *)
Lemma read_entries_same_records fs fs' :
  Cpup.pid_stat fs = Cpup.pid_stat fs' ->
  forall names procs,
    Cpup.read_entries fs names procs = Cpup.read_entries fs' names procs.
Proof.
  intros Hstat. induction names as [| name rest IH]; intros procs;
    [reflexivity |].
  cbn [Cpup.read_entries]. unfold Cpup.read_pid_stat. rewrite Hstat.
  destruct (Cpup.starts_with_digit name); [| apply IH].
  destruct (Cpup.pid_stat fs' (Cpup.atoi name)) as [[| line more] |];
    try reflexivity; [apply IH |].
  destruct (Cpup.parse_stat line _) as [[[|] q] |]; try reflexivity; apply IH.
Qed.

(** X16.  The snapshot does not depend on the order in which [readdir]
    yields the entries: for two listings that are permutations of each
    other over the same records, with names that are process ids and no
    process id twice, [read_process] gives the same outcome, sample for
    sample, under every qsort. *)
Theorem read_process_order_independent (Q : Qsort) (stat : Z -> file)
  (names names' : list string) (cpu : Cpup.cpu_t) :
  Permutation names names' ->
  names_are_pids names ->
  NoDup (map Cpup.pid (collected (Cpup.mk_proc_fs (Some names) stat) names)) ->
  Cpup.read_process (Cpup.mk_proc_fs (Some names) stat) cpu
  = Cpup.read_process (Cpup.mk_proc_fs (Some names') stat) cpu.
Proof.
  intros Hperm Hpids Hnd.
  set (fs := Cpup.mk_proc_fs (Some names) stat) in *.
  set (fs' := Cpup.mk_proc_fs (Some names') stat).
  assert (Hsame : forall l, collected fs' l = collected fs l) by reflexivity.
  assert (Hread : forall l, all_readable fs' l <-> all_readable fs l)
    by (intros l; reflexivity).
  rewrite !read_process_unfold. cbn [Cpup.proc_dir fs fs'].
  assert (Hentries : forall l, Cpup.read_entries fs' l []
                               = Cpup.read_entries fs l []).
  { intros l. now apply read_entries_same_records. }
  rewrite Hentries.
  assert (Hreadable : forall l,
             Cpup.read_entries fs l [] = Returns (collected fs l) ->
             all_readable fs l).
  { intros l H. apply (read_entries_returns_iff fs l []). eauto. }
  destruct (read_entries_result fs names) as [H1 | [H1 Hbad]];
    destruct (read_entries_result fs names') as [H2 | [H2 Hbad']];
    rewrite H1, H2; try reflexivity.
  - f_equal. f_equal. f_equal.
    assert (Hcol : Permutation (collected fs names) (collected fs names'))
      by (apply Permutation_flat_map, Hperm).
    apply pid_sorted_unique.
    + apply (read_process_pid_sorted Q names); [exact Hpids |].
      apply collected_pids.
    + apply (read_process_pid_sorted Q names');
        [now apply (names_are_pids_perm names) | apply collected_pids].
    + rewrite <- (qsort_permutes _ Cpup.comp_pid (collected fs names)).
      rewrite <- (qsort_permutes _ Cpup.comp_pid (collected fs names')).
      exact Hcol.
    + apply (Permutation_NoDup
               (Permutation_map Cpup.pid
                  (qsort_permutes _ Cpup.comp_pid (collected fs names)))).
      exact Hnd.
  - exfalso. apply Hbad'. unfold all_readable.
    apply (Permutation_Forall Hperm). now apply Hreadable.
  - exfalso. apply Hbad. unfold all_readable.
    apply (Permutation_Forall (Permutation_sym Hperm)). now apply Hreadable.
Qed.

Lemma read_process_order_independent_witness :
  let stat := fun pid : Z =>
    if pid =? 30
    then Some [stat_line "30" "sh"
                 "S 1 30 30 0 -1 4194304 10 0 0 0 5 6 0 0 20 0 1"]
    else Some [stat_line "1" "init"
                 "S 0 1 1 0 -1 4194560 1 2 3 4 10 20 0 0 20 0 1"] in
  let cpu := snapshot_of [] in
  @Cpup.read_process stable_qsort
    (Cpup.mk_proc_fs (Some ["30"; "1"; "net"]%string) stat) cpu
  = @Cpup.read_process stable_qsort
      (Cpup.mk_proc_fs (Some ["net"; "1"; "30"]%string) stat) cpu.
Proof.
  intros stat cpu. apply read_process_order_independent.
  - apply perm_trans with (l' := ["net"; "30"; "1"]%string).
    + apply Permutation_sym. apply (Permutation_cons_append ["30"; "1"]%string).
    + apply perm_skip, perm_swap.
  - unfold names_are_pids.
    repeat (apply Forall_cons; [intros _; vm_compute; discriminate |]).
    apply Forall_nil.
  - vm_compute. repeat constructor; cbn [In]; intros H;
      repeat (destruct H as [H | H]; [discriminate H |]); exact H.
Defined.

(** ** The comparators *)

(** X17.  The two comparators do what their comments say, on the values
    the program meets: [comp_pid] is negative, zero or positive as the
    first process id is below, equal to or above the second, for process
    ids that are non-negative ints; [comp_load] is negative, zero or
    positive as the first load is above, equal to or below the second,
    for loads below 2^31. *)
Theorem comparators_keep_their_contract (a b : Cpup.process_t) :
  (0 <= Cpup.pid a < 2 ^ 31 -> 0 <= Cpup.pid b < 2 ^ 31 ->
   (Cpup.comp_pid a b < 0 <-> Cpup.pid a < Cpup.pid b)
   /\ (Cpup.comp_pid a b = 0 <-> Cpup.pid a = Cpup.pid b)
   /\ (0 < Cpup.comp_pid a b <-> Cpup.pid b < Cpup.pid a))
  /\ (0 <= Cpup.load a < 2 ^ 31 -> 0 <= Cpup.load b < 2 ^ 31 ->
      (Cpup.comp_load a b < 0 <-> Cpup.load b < Cpup.load a)
      /\ (Cpup.comp_load a b = 0 <-> Cpup.load a = Cpup.load b)
      /\ (0 < Cpup.comp_load a b <-> Cpup.load a < Cpup.load b)).
Proof.
  split; intros Ha Hb.
  - rewrite (comp_pid_small a b Ha Hb). lia.
  - rewrite (comp_load_small a b Ha Hb). lia.
Qed.

Lemma comparators_keep_their_contract_witness :
  let a := Cpup.set_load 40 (sample_process 11 30 10) in
  let b := Cpup.set_load 20 (sample_process 10 20 5) in
  Cpup.comp_pid a b = 1 /\ 0 < Cpup.comp_pid a b
  /\ Cpup.comp_load a b = -20 /\ Cpup.comp_load a b < 0.
Proof.
  intros a b.
  destruct (comparators_keep_their_contract a b) as [Hpid Hload].
  destruct Hpid as (_ & _ & Hpos); [vm_compute; split; congruence ..|].
  destruct Hload as (Hneg & _ & _); [vm_compute; split; congruence ..|].
  split; [vm_compute; reflexivity |].
  split; [apply Hpos; vm_compute; reflexivity |].
  split; [vm_compute; reflexivity |].
  apply Hneg. vm_compute. reflexivity.
Defined.

(** ** From the reader to the ranker *)

Lemma read_process_returns_sorted (Q : Qsort) fs cpu r cpu' :
  (forall names, Cpup.proc_dir fs = Some names -> names_are_pids names) ->
  Cpup.read_process fs cpu = Returns (r, cpu') ->
  pid_sorted (Cpup.procs cpu').
Proof.
  intros Hnames. rewrite read_process_unfold.
  destruct (Cpup.proc_dir fs) as [names |].
  - destruct (Cpup.read_entries fs names []) as [procs |] eqn:Hread;
      [| discriminate].
    intros H. injection H as _ <-. cbn [Cpup.procs].
    apply (read_process_pid_sorted Q names); [now apply Hnames |].
    intros p Hp.
    destruct (read_entries_pids fs names [] procs Hread p Hp) as [[] | H].
    exact H.
  - intros H. injection H as _ <-. constructor.
Qed.

Lemma read_both_sorted (Q : Qsort) s cpu r cpu' :
  listing_is_pids s ->
  Cpup.read_both s cpu = Returns (r, cpu') ->
  r = SUCCESS -> pid_sorted (Cpup.procs cpu').
Proof.
  intros Hnames. unfold Cpup.read_both.
  destruct (Cpup.read_stat (Cpup.stat s) cpu) as [[|] c].
  - intros H _.
    exact (read_process_returns_sorted Q (Cpup.processes s) c r cpu' Hnames H).
  - intros H Hr. congruence.
Qed.

Lemma find_pid_without_load v l l' :
  map without_load l = map without_load l' ->
  match find_pid v l, find_pid v l' with
  | Some b, Some b' => without_load b = without_load b'
  | None, None => True
  | _, _ => False
  end.
Proof.
  revert l'. induction l as [| x l IH]; intros [| y l'] H;
    try discriminate; [exact I |].
  pose proof (f_equal (hd (without_load x)) H) as Hxy.
  pose proof (f_equal (@tl _) H) as Hrest.
  cbn [map hd tl] in Hxy, Hrest.
  unfold find_pid. cbn [find].
  assert (Hpid : Cpup.pid x = Cpup.pid y).
  { rewrite <- (without_load_pid x), Hxy. apply without_load_pid. }
  rewrite Hpid. destruct (Cpup.pid y =? v); [exact Hxy |].
  apply (IH l' Hrest).
Qed.

Lemma without_load_basis p q :
  without_load p = without_load q -> basis p = basis q.
Proof.
  destruct p, q. unfold without_load, Cpup.set_load, basis.
  cbn [Cpup.pid Cpup.comm Cpup.state Cpup.utime Cpup.stime Cpup.cutime
         Cpup.cstime Cpup.priority Cpup.nice].
  intros H. injection H as _ _ _ -> -> _ _ _ _. reflexivity.
Qed.

Lemma walked_load_without_load l l' p :
  map without_load l = map without_load l' ->
  walked_load l p = walked_load l' p.
Proof.
  intros H. unfold walked_load.
  pose proof (find_pid_without_load (Cpup.pid p) l l' H) as Hf.
  destruct (find_pid (Cpup.pid p) l) as [b |],
           (find_pid (Cpup.pid p) l') as [b' |]; try easy.
  now rewrite (without_load_basis b b' Hf).
Qed.

(** X18.  The reader and the ranker fit together over the change of
    buffers.  When two samples whose listings are process ids were read
    with success, and the first snapshot has been printed in a cycle of
    its own, the next cycle gives every process of the second snapshot
    the load of C2 against the first: the loads written into the first
    snapshot and the sorting of its table have not disturbed the walk. *)
Theorem cycle_loads_after_swap (Q : Qsort) (s1 s2 : Cpup.sample)
  (c0 c1 c2 before after : Cpup.cpu_t) :
  listing_is_pids s1 -> listing_is_pids s2 ->
  Cpup.read_both s1 c1 = Returns (SUCCESS, before) ->
  Cpup.read_both s2 c2 = Returns (SUCCESS, after) ->
  let shown := snd (Cpup.show_result c0 before) in
  Cpup.procs (snd (Cpup.show_result shown after))
  = map (fun a => Cpup.set_load (walked_load (Cpup.procs before) a) a)
      (Cpup.procs after).
Proof.
  intros H1 H2 Hb Ha shown.
  pose proof (read_both_sorted Q s1 c1 SUCCESS before H1 Hb eq_refl) as Hsb.
  pose proof (read_both_sorted Q s2 c2 SUCCESS after H2 Ha eq_refl) as Hsa.
  unfold shown. rewrite !show_result_after. cbn [Cpup.procs].
  assert (Hkeep : map without_load
                    (Cpup.load_loop (Cpup.procs c0) (Cpup.procs before))
                  = map without_load (Cpup.procs before))
    by apply load_loop_keeps_samples.
  rewrite (load_loop_from [] (Cpup.procs after)
             (Cpup.load_loop (Cpup.procs c0) (Cpup.procs before))).
  - cbn [app]. apply map_ext. intros a.
    now rewrite (walked_load_without_load _ _ a Hkeep).
  - cbn [app]. apply (pid_sorted_by_pids (Cpup.procs before)); [| exact Hsb].
    symmetry. apply load_loop_pids.
  - exact Hsa.
  - intros b a [].
Qed.

Lemma cycle_loads_after_swap_witness :
  let stat1 := Some [("cpu 100 0 50 800" ++ newline)%string] in
  let stat2 := Some [("cpu 130 0 60 850" ++ newline)%string] in
  let dir1 := Cpup.mk_proc_fs (Some ["10"]%string)
    (fun _ => Some [stat_line "10" "sh"
                      "S 1 10 10 0 -1 4194304 10 0 0 0 3 2 0 0 20 0 1"]) in
  let dir2 := Cpup.mk_proc_fs (Some ["11"; "10"]%string)
    (fun pid =>
       if pid =? 10
       then Some [stat_line "10" "sh"
                    "S 1 10 10 0 -1 4194304 10 0 0 0 20 5 0 0 20 0 1"]
       else Some [stat_line "11" "cc"
                    "R 10 11 10 0 -1 4194304 10 0 0 0 30 10 0 0 20 0 1"]) in
  let c := Cpup.new_cpu_t 1 (fun _ => zero_cputime) in
  exists before after,
    @Cpup.read_both stable_qsort (Cpup.mk_sample stat1 dir1) c
    = Returns (SUCCESS, before)
    /\ @Cpup.read_both stable_qsort (Cpup.mk_sample stat2 dir2) c
       = Returns (SUCCESS, after)
    /\ map (fun p => (Cpup.pid p, Cpup.load p))
         (Cpup.procs
            (snd (@Cpup.show_result stable_qsort
                    (snd (@Cpup.show_result stable_qsort c before)) after)))
       = [(10, 20); (11, 40)].
Proof.
  intros stat1 stat2 dir1 dir2 c.
  eexists _, _. split; [vm_compute; reflexivity |].
  split; [vm_compute; reflexivity |].
  erewrite (cycle_loads_after_swap stable_qsort
              (Cpup.mk_sample stat1 dir1) (Cpup.mk_sample stat2 dir2)
              c c c).
  - vm_compute. reflexivity.
  - intros names H. injection H as <-. unfold names_are_pids.
    repeat (apply Forall_cons; [intros _; vm_compute; discriminate |]).
    apply Forall_nil.
  - intros names H. injection H as <-. unfold names_are_pids.
    repeat (apply Forall_cons; [intros _; vm_compute; discriminate |]).
    apply Forall_nil.
  - vm_compute. reflexivity.
  - vm_compute. reflexivity.
Defined.

(** ** The title of cpu.c *)

Lemma cpu_show_result_columns (before after : Cpu.cpu_t) :
  List.length (snd (Cpu.show_result before after))
  = List.length (show_title (Cpu.num before)).
Proof.
  unfold show_title, Cpu.show_result. cbn [snd].
  destruct (1 <? Cpu.num before)%nat; [| reflexivity].
  now rewrite length_map.
Qed.

Lemma cpu_main_loop_columns n samples :
  forall before after printed,
    cpu_buffer n before -> cpu_buffer n after ->
    Forall (fun line => List.length (snd line) = List.length (show_title n))
      printed ->
    Forall (fun line => List.length (snd line) = List.length (show_title n))
      (printed_lines (Cpu.main_loop before after samples printed)).
Proof.
  induction samples as [| f rest IH]; intros before after printed Hb Ha Hp.
  - exact Hp.
  - cbn [Cpu.main_loop].
    pose proof (cpu_read_stat_buffer n f after Ha) as Hs.
    destruct (Cpu.read_stat f after) as [[|] after']; cbn [snd] in Hs.
    + apply IH; [exact Hs | exact Hb |].
      apply Forall_app. split; [exact Hp |].
      apply Forall_cons; [| apply Forall_nil].
      rewrite cpu_show_result_columns. now destruct Hb as [-> _].
    + exact Hp.
Qed.

(** X19.  The title of cpu.c and the lines under it have the same
    columns: whatever the samples are, and however the run ends, every
    line a run prints has one core figure for each column  cpu<i>  of the
    title that was printed at its start, none on a machine with one
    core.  The number of cores of the two buffers is never changed by a
    read or by the change of buffers. *)
Theorem title_matches_lines (num : nat)
  (uninit_after uninit_before : nat -> cputime_t) (samples : list file) :
  Forall (fun line => List.length (snd line) = List.length (show_title num))
    (printed_lines (Cpu.main num uninit_after uninit_before samples))
  /\ List.length (show_title num) = (if (1 <? num)%nat then num else 0%nat).
Proof.
  split.
  - unfold Cpu.main. destruct samples as [| f rest]; [apply Forall_nil |].
    pose proof (cpu_read_stat_buffer num f _
                  (new_cpu_t_buffer num uninit_before)) as Hs.
    destruct (Cpu.read_stat f (Cpu.new_cpu_t num uninit_before))
      as [[|] before']; cbn [snd] in Hs.
    + apply cpu_main_loop_columns;
        [exact Hs | apply new_cpu_t_buffer | apply Forall_nil].
    + apply Forall_nil.
  - unfold show_title. destruct (1 <? num)%nat; [| reflexivity].
    apply length_seq.
Qed.

(** ** Reading back what the kernel prints *)

Lemma string_app_assoc (a b c : string) :
  ((a ++ b) ++ c = a ++ (b ++ c))%string.
Proof.
  induction a as [| x a IH]; cbn [append]; [reflexivity | now rewrite IH].
Qed.

Lemma read_digits_uint (d : Decimal.uint) :
  forall t acc,
    no_digit_ahead t ->
    read_digits (DecimalString.NilEmpty.string_of_uint d ++ t) acc
    = (horner d acc, t).
Proof.
  induction d; intros t acc Ht;
    cbn [DecimalString.NilEmpty.string_of_uint append horner read_digits];
    try (apply IHd; exact Ht).
  destruct t as [| c r]; [reflexivity |].
  cbn [read_digits]. cbn [no_digit_ahead] in Ht. unfold is_digit in Ht.
  destruct (digit_of c); [discriminate | reflexivity].
Qed.

Lemma horner_of_uint_acc (d : Decimal.uint) :
  forall acc : positive,
    horner d (Z.pos acc) = Z.pos (Pos.of_uint_acc d acc).
Proof.
  induction d; intros acc; cbn [horner Pos.of_uint_acc];
    try reflexivity; rewrite <- IHd; f_equal; lia.
Qed.

Lemma horner_of_uint (d : Decimal.uint) :
  horner d 0 = Z.of_N (N.of_uint d).
Proof.
  unfold N.of_uint.
  induction d; cbn [horner Pos.of_uint Z.of_N]; try reflexivity;
    try (rewrite <- horner_of_uint_acc; reflexivity).
  exact IHd.
Qed.

Lemma horner_decimal (n : N) : horner (N.to_uint n) 0 = Z.of_N n.
Proof. now rewrite horner_of_uint, DecimalN.Unsigned.of_to. Qed.

(** A numeral is not empty and starts with a digit. *)
Lemma uint_starts_with_digit (p : positive) :
  exists c r,
    DecimalString.NilEmpty.string_of_uint (Pos.to_uint p) = String c r
    /\ is_digit c = true.
Proof.
  pose proof (DecimalPos.Unsigned.to_uint_nonnil p) as Hnil.
  destruct (Pos.to_uint p); [congruence | ..];
    cbn [DecimalString.NilEmpty.string_of_uint];
    eexists; eexists; (split; [reflexivity | reflexivity]).
Qed.

Lemma decimal_starts_with_digit (n : N) :
  exists c r, decimal n = String c r /\ is_digit c = true.
Proof.
  destruct n as [| p]; [exists "0"%char, EmptyString; split; reflexivity |].
  apply uint_starts_with_digit.
Qed.

Lemma digit_not_space c : is_digit c = true -> is_space c = false.
Proof.
  unfold is_digit, digit_of, is_space.
  destruct ((48 <=? Z.of_N (N_of_ascii c)) && (Z.of_N (N_of_ascii c) <=? 57))
    eqn:E; [| discriminate].
  intros _. apply andb_true_iff in E. destruct E as [E1 E2].
  apply Z.leb_le in E1. apply Z.leb_le in E2.
  destruct (N.eqb_spec (N_of_ascii c) 32) as [H | _]; [lia |].
  destruct (N.leb_spec (N_of_ascii c) 13) as [H | _]; [lia |].
  now rewrite andb_false_r.
Qed.

Lemma digit_not_sign c :
  is_digit c = true -> Ascii.eqb c "-" = false /\ Ascii.eqb c "+" = false.
Proof.
  intros H. split; apply Ascii.eqb_neq; intros ->; vm_compute in H;
    discriminate.
Qed.

(** The subject sequence of an integer conversion on a numeral that is
    followed by something else than a digit. *)
Lemma scan_integer_decimal (n : N) (t : string) :
  no_digit_ahead t ->
  scan_integer (decimal n ++ t) = Int_found false (Z.of_N n) t.
Proof.
  intros Ht. pose proof (read_digits_uint (N.to_uint n) t 0 Ht) as Hread.
  fold (decimal n) in Hread. rewrite horner_decimal in Hread.
  destruct (decimal_starts_with_digit n) as (c & r & E & Hc).
  rewrite E in *. cbn [append] in *.
  unfold scan_integer. cbn [skip_space].
  rewrite (digit_not_space c Hc).
  destruct (digit_not_sign c Hc) as [-> ->].
  rewrite Hc, Hread. reflexivity.
Qed.

Lemma skip_space_blank (s : string) :
  skip_space (String " " s) = skip_space s.
Proof. reflexivity. Qed.

Lemma skip_space_decimal (n : N) (t : string) :
  skip_space (decimal n ++ t) = (decimal n ++ t)%string.
Proof.
  destruct (decimal_starts_with_digit n) as (c & r & E & Hc).
  rewrite E. cbn [append skip_space]. now rewrite (digit_not_space c Hc).
Qed.

Lemma scan_integer_blank (s : string) :
  scan_integer (String " " s) = scan_integer s.
Proof. reflexivity. Qed.

Lemma no_digit_ahead_numerals (vs : list N) :
  no_digit_ahead (numerals vs ++ newline).
Proof. destruct vs; reflexivity. Qed.

Lemma ulong_of_counter (v : N) :
  (v < 2 ^ 64)%N -> ulong_of false (Z.of_N v) = Z.of_N v.
Proof.
  intros H. unfold ulong_of, ULONG_MAX.
  destruct (Z.gtb_spec (Z.of_N v) (2 ^ 64 - 1)) as [Hgt | _]; [| reflexivity].
  change (2 ^ 64)%N with (Z.to_N (2 ^ 64)) in H. lia.
Qed.

(** [n] directives  white space, %lu  on a row of counters that ends the
    line: as many values as there are of both are stored, in order. *)
Lemma sscanf_numerals (n : nat) :
  forall (vs : list N) (stored : list Z),
    Forall (fun v => (v < 2 ^ 64)%N) vs ->
    stored <> [] \/ vs <> [] \/ n = O ->
    sscanf_from (lu_fields n) (numerals vs ++ newline) stored
    = (Z.of_nat (List.length (stored ++ map Z.of_N (firstn n vs))),
       stored ++ map Z.of_N (firstn n vs)).
Proof.
  induction n as [| n IH]; intros vs stored Hvs Hne.
  - cbn [lu_fields sscanf_from firstn map]. now rewrite app_nil_r.
  - cbn [lu_fields]. destruct vs as [| v vs].
    + cbn [firstn map numerals append]. rewrite app_nil_r.
      unfold newline. cbn [sscanf_from append].
      change (convert C_lu (skip_space (String "010" EmptyString)))
        with Input_failure. cbv iota.
      destruct stored as [| z stored]; [destruct Hne as [H | [H | H]];
                                         congruence |].
      cbn [List.length]. rewrite Nat2Z.inj_succ.
      destruct (Z.eqb_spec (Z.succ (Z.of_nat (List.length stored))) 0);
        [lia | reflexivity].
    + cbn [numerals firstn map]. cbn [sscanf_from].
      change (" " ++ decimal v ++ numerals vs)%string
        with (String " " (decimal v ++ numerals vs)).
      cbn [append]. rewrite skip_space_blank.
      rewrite string_app_assoc.
      rewrite skip_space_decimal. unfold convert.
      rewrite scan_integer_decimal by apply no_digit_ahead_numerals.
      rewrite ulong_of_counter by exact (Forall_inv Hvs).
      rewrite IH; [| exact (Forall_inv_tail Hvs) | left; now destruct stored].
      rewrite <- app_assoc. reflexivity.
Qed.

Lemma lu_fields_blank (n : nat) (s : string) (stored : list Z) :
  sscanf_from (lu_fields (S n)) (String " " s) stored
  = sscanf_from (lu_fields (S n)) s stored.
Proof. reflexivity. Qed.

Lemma aggregate_directives :
  parse_format aggregate_format
  = Lit "c" :: Lit "p" :: Lit "u" :: lu_fields 10.
Proof. reflexivity. Qed.

Lemma core_directives :
  parse_format core_format
  = Lit "c" :: Lit "p" :: Lit "u" :: Conv C_skip_u :: lu_fields 10.
Proof. reflexivity. Qed.

(** What [sscanf] makes of an aggregate line and of a core line. *)
Lemma sscanf_aggregate_line (vs : list N) :
  vs <> [] -> Forall (fun v => (v < 2 ^ 64)%N) vs ->
  sscanf (aggregate_line vs) aggregate_format
  = (Z.of_nat (Nat.min 10 (List.length vs)), map Z.of_N (firstn 10 vs)).
Proof.
  intros Hne Hvs. unfold sscanf. rewrite aggregate_directives.
  unfold aggregate_line, counters_line.
  change ("cpu " ++ numerals vs ++ newline)%string
    with (String "c" (String "p" (String "u"
            (String " " (numerals vs ++ newline))))).
  cbn [sscanf_from Ascii.eqb Bool.eqb]. cbv iota.
  rewrite lu_fields_blank.
  rewrite sscanf_numerals by (exact Hvs || (right; left; exact Hne)).
  cbn [app]. now rewrite length_map, length_firstn.
Qed.

Lemma sscanf_core_line (i : N) (vs : list N) :
  vs <> [] -> Forall (fun v => (v < 2 ^ 64)%N) vs ->
  sscanf (core_line i vs) core_format
  = (Z.of_nat (Nat.min 10 (List.length vs)), map Z.of_N (firstn 10 vs)).
Proof.
  intros Hne Hvs. unfold sscanf. rewrite core_directives.
  unfold core_line, counters_line.
  change (("cpu" ++ decimal i) ++ numerals vs ++ newline)%string
    with (String "c" (String "p" (String "u"
            (decimal i ++ numerals vs ++ newline)))).
  cbn [sscanf_from Ascii.eqb Bool.eqb]. cbv iota.
  unfold convert at 1.
  rewrite scan_integer_decimal by apply no_digit_ahead_numerals.
  rewrite sscanf_numerals by (exact Hvs || (right; left; exact Hne)).
  cbn [app]. now rewrite length_map, length_firstn.
Qed.

Lemma counter_row_nonempty vs : counter_row vs -> vs <> [].
Proof. intros [H _] ->. cbn in H. lia. Qed.

Lemma counter_row_count vs :
  counter_row vs -> 4 <= Z.of_nat (Nat.min 10 (List.length vs)).
Proof. intros [H _]. lia. Qed.

Lemma counters_length vs :
  (List.length (map Z.of_N (firstn 10 vs)) <= 10)%nat.
Proof. rewrite length_map, length_firstn. lia. Qed.

(** The values stored over a record that was not cleared. *)
Lemma store_over (vs : list Z) (w : cputime_t) :
  (List.length vs <= 10)%nat ->
  fields (store cputime_targets vs w)
  = vs ++ skipn (List.length vs) (fields w).
Proof.
  intros H.
  do 11 (destruct vs as [| ? vs]; [reflexivity |]).
  cbn [List.length] in H. lia.
Qed.

Lemma core_lines_nth (cores : list (list N)) :
  forall (i : N) (j : nat) (vs : list N),
    nth_error cores j = Some vs ->
    nth j (core_lines i cores) EmptyString = core_line (i + N.of_nat j) vs.
Proof.
  induction cores as [| c cores IH]; intros i j vs H.
  - destruct j; discriminate H.
  - destruct j as [| j]; cbn [nth_error] in H; cbn [core_lines nth].
    + injection H as ->. now rewrite N.add_0_r.
    + rewrite (IH _ _ _ H). f_equal. lia.
Qed.

Lemma core_lines_length (cores : list (list N)) :
  forall i, List.length (core_lines i cores) = List.length cores.
Proof.
  induction cores as [| c cores IH]; intros i; cbn [core_lines List.length];
    [reflexivity | now rewrite IH].
Qed.

Lemma core_lines_fields (cores : list (list N)) :
  Forall counter_row cores ->
  forall i, Forall (fun l => 4 <= core_fields l) (core_lines i cores).
Proof.
  induction 1 as [| vs cores Hvs _ IH]; intros i; cbn [core_lines];
    [apply Forall_nil | apply Forall_cons; [| apply IH]].
  unfold core_fields.
  rewrite sscanf_core_line;
    [| now apply counter_row_nonempty | now destruct Hvs].
  cbn [fst]. now apply counter_row_count.
Qed.

(** The loop over the core lines on the lines of the kernel. *)
Lemma read_cores_kernel (cores : list (list N)) (others : list string)
  (times : list cputime_t) :
  Forall counter_row cores ->
  fst (Cpu.read_cores (List.length cores) 0
         (core_lines 0 cores ++ others) times) = SUCCESS.
Proof.
  intros Hc. apply read_cores_success. split.
  - rewrite length_app, core_lines_length. lia.
  - rewrite <- (core_lines_length cores 0), firstn_app, Nat.sub_diag.
    cbn [firstn]. rewrite app_nil_r, firstn_all.
    now apply core_lines_fields.
Qed.

Lemma read_cores_kernel_record (cores : list (list N))
  (others : list string) (times : list cputime_t) (j : nat) (vs : list N) :
  Forall counter_row cores ->
  nth_error cores j = Some vs ->
  (j < List.length times)%nat ->
  nth j times zero_cputime = zero_cputime ->
  fields (nth j (snd (Cpu.read_cores (List.length cores) 0
                        (core_lines 0 cores ++ others) times))
            zero_cputime)
  = counters vs.
Proof.
  intros Hc Hj Hlen Hzero.
  assert (Hlt : (j < List.length cores)%nat)
    by (apply nth_error_Some; congruence).
  rewrite read_cores_records;
    [| now apply read_cores_kernel | lia | exact Hlen].
  rewrite Nat.sub_0_r, app_nth1 by (rewrite core_lines_length; exact Hlt).
  rewrite (core_lines_nth cores 0 j vs Hj), Hzero.
  assert (Hvs : counter_row vs).
  { rewrite Forall_forall in Hc. apply Hc. eapply nth_error_In; eassumption. }
  rewrite sscanf_core_line;
    [| now apply counter_row_nonempty | now destruct Hvs].
  cbn [snd]. rewrite store_into_zero by apply counters_length.
  reflexivity.
Qed.

(** X20.  [read_stat] reads back what the kernel prints.  On a
    /proc/stat of an aggregate line, one line for each core and lines on
    other matters, each line with at least four counters in decimal that
    fit [unsigned long] and short enough for the line buffer, the read
    succeeds in all three variants; the
    aggregate record holds the first ten counters of the aggregate line
    and, on a machine with more than one core, the record of core [i]
    those of the line of core [i], with 0 for the counters an older
    kernel does not print.  In cpup.c the aggregate record is the one
    record that is not cleared: there the fields behind the counters of
    the line keep what they held. *)
Theorem read_stat_reads_kernel_lines (agg : list N) (cores : list (list N))
  (others : list string) :
  counter_row agg -> Forall counter_row cores -> lines_fit agg cores ->
  let f := proc_stat agg cores others in
  let num := List.length cores in
  (forall c : cputime_t,
      exists c',
        Cpus.read_stat f c = (SUCCESS, c') /\ fields c' = counters agg)
  /\ (forall cpu : Cpu.cpu_t,
         cpu_buffer num cpu ->
         exists cpu',
           Cpu.read_stat f cpu = (SUCCESS, cpu')
           /\ fields (nth num (Cpu.times cpu') zero_cputime) = counters agg
           /\ forall i vs,
                (1 < num)%nat -> nth_error cores i = Some vs ->
                fields (nth i (Cpu.times cpu') zero_cputime) = counters vs)
  /\ (forall cpu : Cpup.cpu_t,
         Cpup.cpu_num cpu = num ->
         List.length (Cpup.times cpu) = (num + 1)%nat ->
         exists cpu',
           Cpup.read_stat f cpu = (SUCCESS, cpu')
           /\ fields (nth num (Cpup.times cpu') zero_cputime)
              = map Z.of_N (firstn 10 agg)
                ++ skipn (List.length agg)
                     (fields (nth num (Cpup.times cpu) zero_cputime))
           /\ forall i vs,
                (1 < num)%nat -> nth_error cores i = Some vs ->
                fields (nth i (Cpup.times cpu') zero_cputime) = counters vs).
Proof.
  intros Hagg Hcores _ f num.
  pose proof (sscanf_aggregate_line agg (counter_row_nonempty agg Hagg)
                (proj2 Hagg)) as Hscan.
  pose proof (counter_row_count agg Hagg) as Hcount.
  assert (Hfour : (Z.of_nat (Nat.min 10 (List.length agg)) <? 4) = false)
    by (apply Z.ltb_ge; exact Hcount).
  split; [| split].
  - intros c. unfold f, proc_stat, Cpus.read_stat, scan_cputime.
    rewrite Hscan, Hfour. eexists. split; [reflexivity |].
    apply store_into_zero, counters_length.
  - intros cpu [Hnum Hlen]. unfold f, proc_stat.
    rewrite cpu_read_stat_unfold. cbv zeta.
    rewrite Hscan. cbn [fst snd]. rewrite Hfour, Hnum.
    rewrite skipn_all2, app_nil_r by lia.
    assert (Hwork :
              fields (store cputime_targets (map Z.of_N (firstn 10 agg))
                        (nth num (repeat zero_cputime (num + 1))
                           zero_cputime))
              = counters agg).
    { rewrite nth_repeat. apply store_into_zero, counters_length. }
    destruct (Nat.ltb_spec 1 num) as [Hmany | Hone].
    + eexists. split; [| split].
      * rewrite (surjective_pairing (Cpu.read_cores _ _ _ _)) at 1.
        unfold num at 1.
        rewrite (read_cores_kernel cores others _ Hcores). reflexivity.
      * cbn [Cpu.times]. unfold num at 2.
        rewrite read_cores_untouched by (fold num; lia).
        rewrite nth_update_same by (rewrite repeat_length; lia).
        exact Hwork.
      * intros i vs _ Hi. cbn [Cpu.times].
        assert (Hlt : (i < num)%nat)
          by (apply nth_error_Some; congruence).
        unfold num at 1.
        apply read_cores_kernel_record;
          [exact Hcores | exact Hi
           | rewrite length_update, repeat_length; lia |].
        rewrite nth_update_other by lia. apply nth_repeat.
    + eexists. split; [reflexivity | split].
      * cbn [Cpu.times].
        rewrite nth_update_same by (rewrite repeat_length; lia).
        exact Hwork.
      * intros i vs Hi. lia.
  - intros cpu Hnum Hlen. unfold f, proc_stat.
    rewrite cpup_read_stat_unfold. cbv zeta.
    rewrite Hscan. cbn [fst snd]. rewrite Hfour, Hnum.
    assert (Hold :
              nth num (repeat zero_cputime num ++ skipn num (Cpup.times cpu))
                zero_cputime
              = nth num (Cpup.times cpu) zero_cputime).
    { rewrite app_nth2 by (rewrite repeat_length; lia).
      rewrite repeat_length, Nat.sub_diag, nth_skipn.
      f_equal. lia. }
    assert (Hsize :
              List.length
                (repeat zero_cputime num ++ skipn num (Cpup.times cpu))
              = (num + 1)%nat).
    { rewrite length_app, repeat_length, length_skipn. lia. }
    assert (Hwork :
              fields (store cputime_targets (map Z.of_N (firstn 10 agg))
                        (nth num
                           (repeat zero_cputime num
                            ++ skipn num (Cpup.times cpu)) zero_cputime))
              = map Z.of_N (firstn 10 agg)
                ++ skipn (List.length agg)
                     (fields (nth num (Cpup.times cpu) zero_cputime))).
    { rewrite Hold, store_over by apply counters_length.
      f_equal. rewrite length_map, length_firstn.
      destruct (Nat.le_gt_cases 10 (List.length agg)) as [Hbig | Hsmall].
      - rewrite Nat.min_l by exact Hbig.
        rewrite !skipn_all2; [reflexivity | |]; cbn [fields List.length]; lia.
      - rewrite Nat.min_r by lia. reflexivity. }
    destruct (Nat.ltb_spec 1 num) as [Hmany | Hone].
    + eexists. split; [| split].
      * unfold num at 1.
        rewrite (read_cores_kernel cores others _ Hcores). reflexivity.
      * cbn [Cpup.times]. unfold num at 2.
        rewrite read_cores_untouched by (fold num; lia).
        rewrite nth_update_same by lia.
        exact Hwork.
      * intros i vs _ Hi. cbn [Cpup.times].
        assert (Hlt : (i < num)%nat)
          by (apply nth_error_Some; congruence).
        unfold num at 1.
        apply read_cores_kernel_record;
          [exact Hcores | exact Hi | rewrite length_update; lia |].
        rewrite nth_update_other by lia.
        rewrite app_nth1 by (rewrite repeat_length; lia). apply nth_repeat.
    + eexists. split; [reflexivity | split].
      * cbn [Cpup.times]. rewrite nth_update_same by lia. exact Hwork.
      * intros i vs Hi. lia.
Qed.

Lemma read_stat_reads_kernel_lines_witness :
  let agg := [2255; 34; 2290; 22625563; 6290; 127; 456; 0; 0; 0]%N in
  let cores := [[1132; 34; 1441; 11311718; 3675; 127; 438; 0]%N;
                [1123; 0; 849; 11313845; 2614; 0; 18; 0]%N] in
  let others := [("intr 114930548 113199788" ++ newline)%string] in
  let cpu := Cpu.new_cpu_t 2 (fun _ => mk_cputime 9 9 9 9 9 9 9 9 9 9) in
  proc_stat agg cores others
  = Some [("cpu  2255 34 2290 22625563 6290 127 456 0 0 0" ++ newline)%string;
          ("cpu0 1132 34 1441 11311718 3675 127 438 0" ++ newline)%string;
          ("cpu1 1123 0 849 11313845 2614 0 18 0" ++ newline)%string;
          ("intr 114930548 113199788" ++ newline)%string]
  /\ exists cpu',
       Cpu.read_stat (proc_stat agg cores others) cpu = (SUCCESS, cpu')
       /\ fields (nth 2 (Cpu.times cpu') zero_cputime)
          = [2255; 34; 2290; 22625563; 6290; 127; 456; 0; 0; 0]
       /\ fields (nth 1 (Cpu.times cpu') zero_cputime)
          = [1123; 0; 849; 11313845; 2614; 0; 18; 0; 0; 0].
Proof.
  intros agg cores others cpu.
  split; [vm_compute; reflexivity |].
  assert (Hagg : counter_row agg).
  { split; [cbn; lia |].
    repeat (apply Forall_cons; [reflexivity |]). apply Forall_nil. }
  assert (Hcores : Forall counter_row cores).
  { repeat (apply Forall_cons;
            [split; [cbn; lia |];
             repeat (apply Forall_cons; [reflexivity |]); apply Forall_nil |]).
    apply Forall_nil. }
  assert (Hfit : lines_fit agg cores).
  { repeat (apply Forall_cons; [apply Nat.ltb_lt; vm_compute; reflexivity |]).
    apply Forall_nil. }
  destruct (read_stat_reads_kernel_lines agg cores others Hagg Hcores Hfit)
    as (_ & H & _).
  destruct (H cpu (new_cpu_t_buffer 2 _)) as (cpu' & Hread & Ha & Hc).
  exists cpu'. split; [exact Hread |]. split; [exact Ha |].
  exact (Hc 1%nat _ (Nat.lt_succ_diag_r 1) eq_refl).
Defined.

(** ** Reading back a line of /proc/<pid>/stat *)

Lemma scan_integer_decimal_int (z : Z) (t : string) :
  no_digit_ahead t ->
  scan_integer (decimal_int z ++ t) = Int_found (z <? 0) (Z.abs z) t.
Proof.
  intros Ht. destruct z as [| p | p].
  - exact (scan_integer_decimal 0 t Ht).
  - exact (scan_integer_decimal (N.pos p) t Ht).
  - change (decimal_int (Z.neg p)) with (String "-" (decimal (N.pos p))).
    pose proof (scan_integer_decimal (N.pos p) t Ht) as H.
    destruct (decimal_starts_with_digit (N.pos p)) as (c & r & E & Hc).
    unfold scan_integer in *. rewrite E in *. cbn [append] in *.
    cbn [skip_space] in H. rewrite (digit_not_space c Hc) in H.
    destruct (digit_not_sign c Hc) as [E1 E2]. rewrite E1, E2 in H.
    rewrite Hc in *.
    change (skip_space (String "-" (String c (r ++ t))))
      with (String "-" (String c (r ++ t))).
    cbv iota. change (Ascii.eqb "-" "-") with true. cbv iota.
    rewrite Hc.
    destruct (read_digits (String c (r ++ t)) 0) as [v rest].
    now injection H as -> ->.
Qed.

Lemma no_digit_ahead_signed (zs : list Z) :
  no_digit_ahead (signed_numerals zs ++ newline).
Proof. destruct zs; reflexivity. Qed.

(** An integer conversion on the next field of the line, with or without
    white space before it in the format. *)
Lemma sscanf_field (k : conversion) (fmt : list directive) (z : Z)
  (t : string) (stored : list Z) :
  integer_conversion k = true -> no_digit_ahead t ->
  sscanf_from (Conv k :: fmt) (String " " (decimal_int z ++ t)) stored
  = sscanf_from fmt t (stored ++ stored_value k z).
Proof.
  intros Hk Ht. cbn [sscanf_from].
  assert (E : convert k (String " " (decimal_int z ++ t))
              = match k with
                | C_lu => Got (Some (ulong_of (z <? 0) (Z.abs z))) t
                | C_ld => Got (Some (long_of (z <? 0) (Z.abs z))) t
                | _ => Got None t
                end).
  { destruct k; try discriminate Hk; unfold convert;
      rewrite scan_integer_blank, scan_integer_decimal_int by exact Ht;
      reflexivity. }
  rewrite E. destruct k; try discriminate Hk; cbn [stored_value];
    rewrite ?app_nil_r; reflexivity.
Qed.

Lemma sscanf_space_field (k : conversion) (fmt : list directive) (z : Z)
  (t : string) (stored : list Z) :
  integer_conversion k = true -> no_digit_ahead t ->
  sscanf_from (Space :: Conv k :: fmt) (String " " (decimal_int z ++ t))
    stored
  = sscanf_from fmt t (stored ++ stored_value k z).
Proof.
  intros Hk Ht. rewrite <- (sscanf_field k fmt z t stored Hk Ht).
  cbn [sscanf_from]. rewrite skip_space_blank.
  assert (E : convert k (skip_space (decimal_int z ++ t))
              = convert k (String " " (decimal_int z ++ t))).
  { destruct k; try discriminate Hk; unfold convert;
      rewrite scan_integer_blank; unfold scan_integer;
      now replace (skip_space (skip_space (decimal_int z ++ t)))
        with (skip_space (decimal_int z ++ t))
        by (clear; induction (decimal_int z ++ t)%string as [| c s IH];
            [reflexivity | cbn [skip_space];
                           destruct (is_space c) eqn:E;
                           [exact IH | cbn [skip_space]; now rewrite E]]). }
  now rewrite E.
Qed.

Lemma ulong_of_nonneg (z : Z) :
  0 <= z < 2 ^ 64 -> ulong_of (z <? 0) (Z.abs z) = z.
Proof.
  intros H. unfold ulong_of, ULONG_MAX.
  destruct (Z.ltb_spec z 0) as [Hn | _]; [lia |].
  rewrite Z.abs_eq by lia.
  destruct (Z.gtb_spec z (2 ^ 64 - 1)); [lia | reflexivity].
Qed.

Lemma long_of_in_range (z : Z) :
  LONG_MIN <= z <= LONG_MAX -> long_of (z <? 0) (Z.abs z) = z.
Proof.
  unfold long_of, LONG_MIN, LONG_MAX. intros H.
  destruct (Z.ltb_spec z 0) as [Hn | Hp]; lia.
Qed.

Lemma process_directives :
  parse_format Cpup.process_format
  = Conv C_c :: Conv C_skip_d
    :: Space :: Conv C_skip_d :: Space :: Conv C_skip_d
    :: Space :: Conv C_skip_d :: Space :: Conv C_skip_d
    :: Space :: Conv C_skip_u :: Space :: Conv C_skip_u
    :: Space :: Conv C_skip_u :: Space :: Conv C_skip_u
    :: Space :: Conv C_skip_u
    :: Space :: Conv C_lu :: Space :: Conv C_lu
    :: Space :: Conv C_lu :: Space :: Conv C_lu
    :: Space :: Conv C_ld :: Space :: Conv C_ld :: [Space].
Proof. reflexivity. Qed.

Lemma signed_numerals_cons z zs t :
  (signed_numerals (z :: zs) ++ t)%string
  = String " " (decimal_int z ++ (signed_numerals zs ++ t)).
Proof.
  cbn [signed_numerals]. change (" " ++ ?x)%string with (String " " x).
  cbn [append]. now rewrite string_app_assoc.
Qed.

Lemma sscanf_char (fmt : list directive) (c : ascii) (s : string)
  (stored : list Z) :
  sscanf_from (Conv C_c :: fmt) (String c s) stored
  = sscanf_from fmt s (stored ++ [Z.of_N (N_of_ascii c)]).
Proof. reflexivity. Qed.

Lemma sscanf_trailing_space (s : string) (stored : list Z) :
  sscanf_from [Space] s stored = (Z.of_nat (List.length stored), stored).
Proof. reflexivity. Qed.

(** What [sscanf] makes of the fields behind the command name. *)
Lemma sscanf_stat_fields (state : ascii) (skipped : list Z)
  (utime stime cutime cstime priority nice : Z) (more : list Z) :
  List.length skipped = 10%nat ->
  0 <= utime < 2 ^ 64 -> 0 <= stime < 2 ^ 64 ->
  0 <= cutime < 2 ^ 64 -> 0 <= cstime < 2 ^ 64 ->
  LONG_MIN <= priority <= LONG_MAX -> LONG_MIN <= nice <= LONG_MAX ->
  sscanf (String state
            (signed_numerals
               (stat_values skipped utime stime cutime cstime priority nice
                  more) ++ newline))
    Cpup.process_format
  = (7, [Z.of_N (N_of_ascii state); utime; stime; cutime; cstime;
         priority; nice]).
Proof.
  intros Hlen Hu Hs Hcu Hcs Hp Hn.
  do 10 (destruct skipped as [| ? skipped]; [discriminate Hlen |]).
  destruct skipped; [| discriminate Hlen].
  unfold sscanf, stat_values. rewrite process_directives.
  cbn [app]. rewrite sscanf_char.
  rewrite signed_numerals_cons.
  rewrite sscanf_field by (reflexivity || apply no_digit_ahead_signed).
  do 15 (rewrite signed_numerals_cons;
         rewrite sscanf_space_field
           by (reflexivity || apply no_digit_ahead_signed)).
  rewrite sscanf_trailing_space.
  cbn [stored_value app List.length].
  rewrite !ulong_of_nonneg, !long_of_in_range by assumption.
  reflexivity.
Qed.

Lemma has_char_app c a b :
  has_char c (a ++ b) = has_char c a || has_char c b.
Proof.
  induction a as [| x a IH]; cbn [append has_char]; [reflexivity |].
  now rewrite IH, orb_assoc.
Qed.

Lemma has_char_uint c (d : Decimal.uint) :
  is_digit c = false ->
  has_char c (DecimalString.NilEmpty.string_of_uint d) = false.
Proof.
  intros Hc.
  induction d; cbn [DecimalString.NilEmpty.string_of_uint has_char];
    [reflexivity | ..]; rewrite IHd, orb_false_r;
    apply Ascii.eqb_neq; intros <-; vm_compute in Hc; discriminate Hc.
Qed.

Lemma has_char_decimal_int c z :
  is_digit c = false -> c <> "-"%char -> has_char c (decimal_int z) = false.
Proof.
  intros Hc Hm. destruct z as [| p | p]; unfold decimal_int;
    cbn [Z.to_int DecimalString.NilEmpty.string_of_int has_char];
    rewrite ?has_char_uint by exact Hc; [reflexivity | reflexivity |].
  rewrite orb_false_r. apply Ascii.eqb_neq. congruence.
Qed.

Lemma has_char_signed_numerals c zs :
  is_digit c = false -> c <> "-"%char -> c <> " "%char ->
  has_char c (signed_numerals zs) = false.
Proof.
  intros Hc Hm Hb.
  induction zs as [| z zs IH]; cbn [signed_numerals]; [reflexivity |].
  change (" " ++ ?x)%string with (String " " x). cbn [has_char].
  rewrite has_char_app, has_char_decimal_int, IH by assumption.
  rewrite !orb_false_r. apply Ascii.eqb_neq. congruence.
Qed.

Lemma prefix_all n s : (String.length s <= n)%nat -> prefix n s = s.
Proof.
  unfold prefix. revert n. induction s as [| c s IH]; intros n Hn.
  - destruct n; reflexivity.
  - destruct n as [| n]; cbn [String.length] in Hn; [lia |].
    cbn [substring]. f_equal. apply IH. lia.
Qed.

Lemma ascii_code_back (c : ascii) :
  ascii_of_N (Z.to_N (Z.of_N (N_of_ascii c))) = c.
Proof. rewrite N2Z.id. apply ascii_N_embedding. Qed.

Lemma store_process_fields (c u s cu cs p n : Z) (comm : string)
  (proc : Cpup.process_t) :
  store Cpup.process_targets [c; u; s; cu; cs; p; n]
    (Cpup.set_comm comm proc)
  = Cpup.mk_process (Cpup.pid proc) comm (ascii_of_N (Z.to_N c))
      (Cpup.load proc) u s cu cs p n.
Proof. reflexivity. Qed.

(** [parse_stat] on a line of the kernel. *)
Lemma parse_stat_kernel_line (proc : Cpup.process_t) (printed_pid : N)
  (comm : string) (state : ascii) (skipped : list Z)
  (utime stime cutime cstime priority nice : Z) (more : list Z) :
  state <> ")"%char ->
  List.length skipped = 10%nat ->
  0 <= utime < 2 ^ 64 -> 0 <= stime < 2 ^ 64 ->
  0 <= cutime < 2 ^ 64 -> 0 <= cstime < 2 ^ 64 ->
  LONG_MIN <= priority <= LONG_MAX -> LONG_MIN <= nice <= LONG_MAX ->
  Cpup.parse_stat
    (pid_stat_line printed_pid comm state
       (stat_values skipped utime stime cutime cstime priority nice more))
    proc
  = Returns (SUCCESS,
             Cpup.mk_process (Cpup.pid proc) (prefix 15 comm) state
               (Cpup.load proc) utime stime cutime cstime priority nice).
Proof.
  intros Hstate Hlen Hu Hs Hcu Hcs Hp Hn.
  rewrite parse_stat_unfold. unfold pid_stat_line.
  set (tail := String state
                 (signed_numerals
                    (stat_values skipped utime stime cutime cstime priority
                       nice more) ++ newline)).
  change (decimal printed_pid ++ " (" ++ comm
          ++ String ")" (String " " tail))%string
    with (decimal printed_pid
          ++ String " "
               (String "(" (comm ++ String ")" (String " " tail))))%string.
  replace (decimal printed_pid
           ++ String " "
                (String "(" (comm ++ String ")" (String " " tail))))%string
    with ((decimal printed_pid ++ " ")
          ++ String "(" (comm ++ String ")" (String " " tail)))%string
    by (now rewrite string_app_assoc).
  rewrite after_first_app
    by (rewrite has_char_app; unfold decimal;
        now rewrite has_char_uint by reflexivity).
  assert (Htail : has_char ")" (String " " tail) = false).
  { unfold tail. cbn [has_char]. rewrite has_char_app.
    rewrite has_char_signed_numerals by (reflexivity || discriminate).
    replace (Ascii.eqb state ")") with false
      by (symmetry; now apply Ascii.eqb_neq).
    reflexivity. }
  rewrite (last_offset_app ")" comm _ Htail). cbv zeta.
  assert (Hsize : String.length (comm ++ String ")" (String " " tail))
                  = (String.length comm + 2 + String.length tail)%nat).
  { rewrite length_append. cbn [String.length]. lia. }
  destruct (Nat.ltb_spec
              (String.length (comm ++ String ")" (String " " tail)))
              (String.length comm + 2)) as [Hlt | _]; [lia |].
  rewrite advance_add, advance_app. cbn [Cpup.advance]. unfold tail.
  rewrite sscanf_stat_fields by assumption.
  cbn [fst snd Z.eqb negb Pos.eqb]. f_equal. f_equal.
  assert (Hcomm :
            prefix (if (Cpup.PR_NAME_LEN <=? String.length comm)%nat
                    then (Cpup.PR_NAME_LEN - 1)%nat
                    else String.length comm)
              (comm ++ String ")" (String " " tail))
            = prefix 15 comm).
  { unfold Cpup.PR_NAME_LEN.
    destruct (Nat.leb_spec 16 (String.length comm)) as [Hbig | Hsmall].
    - apply prefix_app. lia.
    - rewrite prefix_app by lia.
      rewrite (prefix_all 15) by lia. apply prefix_all. lia. }
  fold tail. rewrite Hcomm.
  rewrite store_process_fields. now rewrite ascii_code_back.
Qed.

(** What [fgets] returns on a line that fits the buffer. *)
Lemma fgets_line (body : string) :
  forall (room : nat) (rest : string),
    has_char "010" body = false ->
    (String.length body < room)%nat ->
    fgets room (body ++ String "010" rest)
    = ((body ++ newline)%string, rest).
Proof.
  induction body as [| c body IH]; intros room rest Hnl Hroom.
  - destruct room as [| room]; [cbn in Hroom; lia | reflexivity].
  - cbn [String.length] in Hroom.
    destruct room as [| room]; [lia |].
    cbn [has_char] in Hnl. apply orb_false_iff in Hnl.
    destruct Hnl as [Hc Hbody].
    cbn [append fgets]. rewrite Hc.
    rewrite (IH room rest Hbody) by lia. reflexivity.
Qed.

(** A file of one line that fits the buffer is read as that line. *)
Lemma lines_read_line (body : string) :
  has_char "010" body = false ->
  fits_line_buffer (body ++ newline) ->
  lines_read (body ++ newline) = [(body ++ newline)%string].
Proof.
  intros Hnl Hfit. unfold fits_line_buffer, LINE_BUFFER_SIZE in Hfit.
  rewrite length_append in Hfit. cbn [String.length newline] in Hfit.
  unfold lines_read.
  assert (Hchunk : fgets (LINE_BUFFER_SIZE - 1) (body ++ newline)
                   = ((body ++ newline)%string, EmptyString)).
  { unfold newline at 1. apply fgets_line; [exact Hnl |].
    unfold LINE_BUFFER_SIZE. lia. }
  destruct (body ++ newline)%string as [| c r] eqn:E.
  - destruct body; discriminate E.
  - cbn [String.length fgets_all]. rewrite Hchunk.
    destruct (String.length r); reflexivity.
Qed.

(** The record is its text in front of the newline, and that text holds
    no newline when the command name and the state hold none. *)
Lemma pid_stat_line_body (pid : N) (comm : string) (state : ascii)
  (values : list Z) :
  has_char "010" comm = false -> state <> "010"%char ->
  exists body,
    pid_stat_line pid comm state values = (body ++ newline)%string
    /\ has_char "010" body = false.
Proof.
  intros Hcomm Hstate.
  exists (decimal pid ++ " ("
          ++ comm ++ String ")" (String " "
               (String state (signed_numerals values))))%string.
  split.
  - unfold pid_stat_line. rewrite !string_app_assoc. cbn [append].
    reflexivity.
  - rewrite !has_char_app. unfold decimal.
    rewrite has_char_uint by reflexivity. cbn [has_char orb].
    rewrite Hcomm. cbn [orb].
    rewrite has_char_signed_numerals by (reflexivity || discriminate).
    replace (Ascii.eqb state "010") with false
      by (symmetry; now apply Ascii.eqb_neq).
    reflexivity.
Qed.

Lemma lines_read_pid_stat_line (pid : N) (comm : string) (state : ascii)
  (values : list Z) :
  has_char "010" comm = false -> state <> "010"%char ->
  fits_line_buffer (pid_stat_line pid comm state values) ->
  lines_read (pid_stat_line pid comm state values)
  = [pid_stat_line pid comm state values].
Proof.
  intros Hcomm Hstate Hfit.
  destruct (pid_stat_line_body pid comm state values Hcomm Hstate)
    as (body & E & Hbody).
  rewrite E in *. now apply lines_read_line.
Qed.

(** X21.  [read_pid_stat] reads back what the kernel prints.  On a
    /proc/<pid>/stat whose content is one record in the form of proc(5),
    with a command name and a state without newline and NUL, a record
    short enough for the line buffer (so that [fgets] returns it whole),
    a state other than a closing parenthesis, times that fit [unsigned
    long] and a priority and a nice value that fit [long], the sample is
    accepted and holds: the process id that was asked for (the one in
    the record is not read), the command name cut to 15 characters, also
    when it holds parentheses or blanks, the state, the four times,
    priority and nice as printed, and the load 0.  The ten fields from
    ppid to cmajflt and the fields behind nice are passed over, and
    nothing of the record the slot held before is left. *)
Theorem read_pid_stat_reads_kernel_line (fs : Cpup.proc_fs)
  (slot : Cpup.process_t) (pid : Z) (printed_pid : N) (comm : string)
  (state : ascii) (skipped : list Z)
  (utime stime cutime cstime priority nice : Z) (more : list Z) :
  let record :=
    pid_stat_line printed_pid comm state
      (stat_values skipped utime stime cutime cstime priority nice more) in
  Cpup.pid_stat fs pid = Some (lines_read record) ->
  command_name comm ->
  fits_line_buffer record ->
  state_char state ->
  List.length skipped = 10%nat ->
  0 <= utime < 2 ^ 64 -> 0 <= stime < 2 ^ 64 ->
  0 <= cutime < 2 ^ 64 -> 0 <= cstime < 2 ^ 64 ->
  LONG_MIN <= priority <= LONG_MAX -> LONG_MIN <= nice <= LONG_MAX ->
  Cpup.read_pid_stat fs slot pid
  = Returns (SUCCESS,
             Cpup.mk_process pid (prefix 15 comm) state 0
               utime stime cutime cstime priority nice).
Proof.
  intros record Hfile [Hcomm _] Hfit (Hstate & Hnl & _) Hlen Hu Hs Hcu Hcs
    Hp Hn.
  unfold Cpup.read_pid_stat. rewrite Hfile. unfold record.
  rewrite lines_read_pid_stat_line by assumption. cbv zeta.
  now rewrite parse_stat_kernel_line.
Qed.

Lemma read_pid_stat_reads_kernel_line_witness :
  let record :=
    pid_stat_line 1234 "kworker/0:1-events" "I"
      (stat_values [2; 0; 0; 0; -1; 69238880; 0; 0; 0; 0]
         12 345 0 0 20 0 [1; 0; 88]) in
  let fs := Cpup.mk_proc_fs None
              (fun pid =>
                 if pid =? 1234 then Some (lines_read record) else None) in
  record = ("1234 (kworker/0:1-events) I 2 0 0 0 -1 69238880 0 0 0 0"
            ++ " 12 345 0 0 20 0 1 0 88" ++ newline)%string
  /\ Cpup.read_pid_stat fs (sample_process 7 7 7) 1234
     = Returns (SUCCESS,
                Cpup.mk_process 1234 "kworker/0:1-eve" "I" 0
                  12 345 0 0 20 0).
Proof.
  intros record fs. split; [vm_compute; reflexivity |].
  apply (read_pid_stat_reads_kernel_line fs (sample_process 7 7 7) 1234
           1234 "kworker/0:1-events" "I"
           [2; 0; 0; 0; -1; 69238880; 0; 0; 0; 0] 12 345 0 0 20 0
           [1; 0; 88]);
    try reflexivity; try (split; reflexivity);
    try (repeat split; discriminate);
    try (apply Nat.ltb_lt; vm_compute; reflexivity);
    unfold LONG_MIN, LONG_MAX; lia.
Defined.

(** ** Reading back a whole /proc *)











(** ** The process array of cpup.c *)

Lemma nth_update_bool (k i : nat) (l : list bool) :
  (k < List.length l)%nat ->
  nth i (update k true l) false
  = if Nat.eqb i k then true else nth i l false.
Proof.
  intros Hk. destruct (Nat.eqb_spec i k) as [-> | Hne].
  - now apply nth_update_same.
  - apply nth_update_other. lia.
Qed.

Lemma new_cpu_t_in_order : slots_in_order (Slots.new_cpu_t 0).
Proof.
  unfold slots_in_order, Slots.new_cpu_t, Slots.INIT_PROCS, Slots.INT_MAX.
  cbn [Slots.proc_num Slots.alloc_num Slots.array_num Slots.procs].
  rewrite repeat_length.
  repeat split; try lia.
  intros H. rewrite nth_repeat in H. discriminate H.
Qed.

(** [ensure_next_proc] does what its comment says when the bookkeeping
    is in order: behind it the entry at [proc_num] is set. *)
Lemma ensure_next_proc_in_order (cpu : Slots.cpu_t) :
  slots_in_order cpu -> Slots.proc_num cpu < 2 ^ 30 ->
  exists cpu',
    Slots.ensure_next_proc cpu = Returns cpu'
    /\ slots_in_order cpu'
    /\ Slots.proc_num cpu' = Slots.proc_num cpu
    /\ Slots.proc_num cpu' < Slots.alloc_num cpu'.
Proof.
  destruct cpu as [p a n l]. unfold slots_in_order, Slots.ensure_next_proc.
  cbn [Slots.proc_num Slots.alloc_num Slots.array_num Slots.procs].
  unfold Slots.INT_MAX.
  intros (Hpa & Han & Hpos & Hlen & Hset) Hp.
  destruct (Z.eqb_spec n p) as [Hfull | Hroom].
  - assert (Ha : a = p) by lia. subst a.
    destruct (Z.ltb_spec (2 ^ 31 - 1) (n * 2)) as [Hbig | _]; [lia |].
    cbn [Slots.proc_num Slots.alloc_num Slots.array_num Slots.procs].
    rewrite Z.eqb_refl.
    destruct (Z.leb_spec 0 p) as [_ | H]; [| lia].
    destruct (Z.ltb_spec p (n * 2)) as [_ | H]; [| lia].
    cbn [andb]. eexists. split; [reflexivity |].
    cbn [Slots.proc_num Slots.alloc_num Slots.array_num Slots.procs].
    assert (Hk : (Z.to_nat p < List.length
                                 (l ++ repeat false
                                         (Z.to_nat (n * 2) - List.length l)))%nat)
      by (rewrite length_app, repeat_length; lia).
    repeat split; try lia.
    + rewrite length_update, length_app, repeat_length. lia.
    + rewrite nth_update_bool by exact Hk.
      destruct (Nat.eqb_spec i (Z.to_nat p)) as [-> | Hne]; [lia |].
      intros H.
      destruct (Nat.lt_ge_cases i (List.length l)) as [Hin | Hout].
      * rewrite app_nth1 in H by exact Hin. apply Hset in H. lia.
      * rewrite app_nth2 in H by exact Hout. rewrite nth_repeat in H.
        discriminate H.
    + rewrite nth_update_bool by exact Hk.
      destruct (Nat.eqb_spec i (Z.to_nat p)) as [-> | Hne]; [reflexivity |].
      intros H. rewrite app_nth1 by lia. apply Hset. lia.
  - cbn [Slots.proc_num Slots.alloc_num Slots.array_num Slots.procs].
    destruct (Z.eqb_spec a p) as [-> | Hspare].
    + destruct (Z.leb_spec 0 p) as [_ | H]; [| lia].
      destruct (Z.ltb_spec p n) as [_ | H]; [| lia].
      cbn [andb]. eexists. split; [reflexivity |].
      cbn [Slots.proc_num Slots.alloc_num Slots.array_num Slots.procs].
      assert (Hk : (Z.to_nat p < List.length l)%nat) by lia.
      repeat split; try lia.
      * rewrite length_update. lia.
      * rewrite nth_update_bool by exact Hk.
        destruct (Nat.eqb_spec i (Z.to_nat p)) as [-> | Hne]; [lia |].
        intros H. apply Hset in H. lia.
      * rewrite nth_update_bool by exact Hk.
        destruct (Nat.eqb_spec i (Z.to_nat p)) as [-> | Hne];
          [reflexivity |].
        intros H. apply Hset. lia.
    + eexists. split; [reflexivity |].
      cbn [Slots.proc_num Slots.alloc_num Slots.array_num Slots.procs].
      repeat split; try lia; apply Hset.
Qed.

Lemma use_slot_in_order (r : Slots.record) (cpu : Slots.cpu_t) :
  slots_in_order cpu -> Slots.proc_num cpu < Slots.alloc_num cpu ->
  r <> Slots.Unopened ->
  exists cpu',
    Slots.use_slot r cpu = Returns cpu'
    /\ slots_in_order cpu'
    /\ Slots.proc_num cpu <= Slots.proc_num cpu' <= Slots.proc_num cpu + 1.
Proof.
  destruct cpu as [p a n l]. unfold slots_in_order, Slots.use_slot.
  cbn [Slots.proc_num Slots.alloc_num Slots.array_num Slots.procs].
  intros (Hpa & Han & Hpos & Hlen & Hset) Hp Hr.
  destruct (Z.leb_spec 0 p) as [_ | H]; [| lia].
  destruct (Z.ltb_spec p n) as [_ | H]; [| lia].
  cbn [andb negb].
  assert (Hslot : nth (Z.to_nat p) l false = true) by (apply Hset; lia).
  rewrite Hslot.
  destruct r; [congruence | ..]; eexists; (split; [reflexivity |]);
    cbn [Slots.proc_num Slots.alloc_num Slots.array_num Slots.procs];
    repeat split; try lia; apply Hset.
Qed.

Lemma read_entries_in_order (entries : list Slots.entry) :
  forall cpu,
    slots_in_order cpu -> Forall opened entries ->
    Slots.proc_num cpu + Z.of_nat (List.length entries) < 2 ^ 30 ->
    exists cpu',
      Slots.read_entries entries cpu = Returns cpu' /\ slots_in_order cpu'.
Proof.
  induction entries as [| e entries IH]; intros cpu Hin Hop Hcount.
  - now exists cpu.
  - cbn [List.length] in Hcount. rewrite Nat2Z.inj_succ in Hcount.
    pose proof (Forall_inv Hop) as He. unfold opened in He.
    destruct e as [| r]; cbn [Slots.read_entries].
    + apply IH; [exact Hin | exact (Forall_inv_tail Hop) | lia].
    + destruct (ensure_next_proc_in_order cpu Hin)
        as (cpu1 & -> & Hin1 & Hsame & Hslot);
        [destruct Hin as ((H & _) & _); lia |].
      destruct (use_slot_in_order r cpu1 Hin1 Hslot)
        as (cpu2 & -> & Hin2 & Hstep); [congruence |].
      apply IH; [exact Hin2 | exact (Forall_inv_tail Hop) | lia].
Qed.

Lemma read_process_in_order (entries : list Slots.entry) (cpu : Slots.cpu_t) :
  slots_in_order cpu -> countable entries ->
  exists cpu',
    Slots.read_process entries cpu = Returns cpu' /\ slots_in_order cpu'.
Proof.
  intros Hin [Hop Hcount]. unfold Slots.read_process.
  apply read_entries_in_order; [| exact Hop | exact Hcount].
  destruct cpu as [p a n l].
  unfold slots_in_order in *.
  cbn [Slots.proc_num Slots.alloc_num Slots.array_num Slots.procs] in *.
  destruct Hin as (Hpa & Han & Hpos & Hlen & Hset).
  repeat split; try lia; apply Hset.
Qed.

Lemma delete_cpu_t_in_order (cpu : Slots.cpu_t) :
  slots_in_order cpu ->
  Slots.delete_cpu_t cpu = Returns (Slots.alloc_num cpu).
Proof.
  destruct cpu as [p a n l]. unfold slots_in_order, Slots.delete_cpu_t.
  cbn [Slots.proc_num Slots.alloc_num Slots.array_num Slots.procs].
  intros (Hpa & Han & Hpos & Hlen & Hset).
  destruct (Z.leb_spec a 0) as [Hzero | Hsome];
    [f_equal; lia |].
  destruct (Z.leb_spec a n) as [_ | H]; [| lia]. cbn [andb].
  assert (Hall : forallb (fun b : bool => b) (firstn (Z.to_nat a) l) = true).
  { apply forallb_forall. intros b Hb.
    apply In_nth with (d := false) in Hb. destruct Hb as (i & Hi & <-).
    rewrite length_firstn in Hi. rewrite nth_firstn.
    destruct (Nat.ltb_spec i (Z.to_nat a)) as [_ | H]; [| lia].
    apply Hset. lia. }
  now rewrite Hall.
Qed.

(** X23.  The process array of cpup.c is used safely when [alloc_num]
    starts at 0.  Through any number of reads of /proc on one buffer,
    each of fewer than 2^30 entries whose records can be opened,
    whichever records are accepted: [ensure_next_proc] never writes
    outside the array, [read_pid_stat] is never given an entry of the
    array that was not set, no [int] overflows, the entries that are set
    stay the first [alloc_num] of the array (none is set twice), and
    [delete_cpu_t] then frees just these. *)
Theorem process_array_stays_in_order (reads : list (list Slots.entry)) :
  Forall countable reads ->
  exists cpu,
    Slots.read_processes reads (Slots.new_cpu_t 0) = Returns cpu
    /\ slots_in_order cpu
    /\ Slots.delete_cpu_t cpu = Returns (Slots.alloc_num cpu).
Proof.
  intros Hreads.
  assert (H : forall cpu0,
             slots_in_order cpu0 ->
             exists cpu,
               Slots.read_processes reads cpu0 = Returns cpu
               /\ slots_in_order cpu).
  { induction Hreads as [| entries reads Hc _ IH]; intros cpu0 Hin.
    - now exists cpu0.
    - cbn [Slots.read_processes].
      destruct (read_process_in_order entries cpu0 Hin Hc)
        as (cpu1 & -> & Hin1).
      now apply IH. }
  destruct (H _ new_cpu_t_in_order) as (cpu & Hrun & Hin).
  exists cpu. split; [exact Hrun | split; [exact Hin |]].
  now apply delete_cpu_t_in_order.
Qed.

Lemma process_array_stays_in_order_witness :
  let reads :=
    [[Slots.Other_name; Slots.Numeric Slots.Parsable;
      Slots.Numeric Slots.Unparsable; Slots.Numeric Slots.Parsable];
     [Slots.Numeric Slots.Empty; Slots.Numeric Slots.Parsable]] in
  exists cpu,
    Slots.read_processes reads (Slots.new_cpu_t 0) = Returns cpu
    /\ slots_in_order cpu
    /\ Slots.delete_cpu_t cpu = Returns (Slots.alloc_num cpu).
Proof.
  intros reads. apply (process_array_stays_in_order reads).
  repeat (apply Forall_cons;
          [split; [repeat (apply Forall_cons; [discriminate |]);
                   apply Forall_nil
                  | cbn; lia] |]).
  apply Forall_nil.
Defined.

Lemma ensure_next_proc_unset (uninit : Z) :
  uninit <> 0 ->
  Slots.ensure_next_proc (Slots.new_cpu_t uninit)
  = Returns (Slots.new_cpu_t uninit).
Proof.
  intros Hu. unfold Slots.ensure_next_proc, Slots.new_cpu_t.
  cbn [Slots.proc_num Slots.alloc_num Slots.array_num Slots.procs].
  change (Slots.INIT_PROCS =? 0) with false. cbv iota zeta.
  cbn [Slots.proc_num Slots.alloc_num Slots.array_num Slots.procs].
  destruct (Z.eqb_spec uninit 0) as [H | _]; [contradiction | reflexivity].
Qed.

Lemma use_slot_unset (r : Slots.record) (uninit : Z) :
  Slots.use_slot r (Slots.new_cpu_t uninit)
  = match r with
    | Slots.Empty => Returns (Slots.new_cpu_t uninit)
    | _ => Undefined_behaviour
    end.
Proof. destruct r; reflexivity. Qed.

Lemma read_entries_writes_nothing (skipped : list Slots.entry)
  (rest : list Slots.entry) (uninit : Z) :
  uninit <> 0 -> Forall writes_nothing skipped ->
  Slots.read_entries (skipped ++ rest) (Slots.new_cpu_t uninit)
  = Slots.read_entries rest (Slots.new_cpu_t uninit).
Proof.
  intros Hu. induction 1 as [| e skipped He _ IH]; [reflexivity |].
  cbn [app]. destruct He as [-> | ->]; cbn [Slots.read_entries];
    [exact IH |].
  rewrite (ensure_next_proc_unset uninit Hu), use_slot_unset. exact IH.
Qed.

(** X24.  [new_cpu_t] does not set [alloc_num].  When the value that
    [malloc] left there is not 0, the first process of /proc whose
    record has a line makes [read_pid_stat] write through an entry of
    the array that was never set: [ensure_next_proc] has allocated
    nothing for it.  When the value is positive, [delete_cpu_t] on the
    fresh buffer, as on the way out after a failed first read, frees
    pointers that were never set. *)
Theorem unset_alloc_num_breaks_array (uninit : Z)
  (skipped rest : list Slots.entry) (r : Slots.record) :
  uninit <> 0 -> Forall writes_nothing skipped -> r <> Slots.Empty ->
  Slots.read_process (skipped ++ Slots.Numeric r :: rest)
    (Slots.new_cpu_t uninit)
  = Undefined_behaviour
  /\ (0 < uninit ->
      Slots.delete_cpu_t (Slots.new_cpu_t uninit) = Undefined_behaviour).
Proof.
  intros Hu Hskip Hr. split.
  - change (Slots.read_process (skipped ++ Slots.Numeric r :: rest)
              (Slots.new_cpu_t uninit))
      with (Slots.read_entries (skipped ++ Slots.Numeric r :: rest)
              (Slots.new_cpu_t uninit)).
    rewrite (read_entries_writes_nothing skipped _ uninit Hu Hskip).
    cbn [Slots.read_entries].
    rewrite (ensure_next_proc_unset uninit Hu), use_slot_unset.
    destruct r; [reflexivity | congruence | reflexivity | reflexivity].
  - intros Hpos. unfold Slots.delete_cpu_t, Slots.new_cpu_t.
    cbn [Slots.proc_num Slots.alloc_num Slots.array_num Slots.procs].
    destruct (Z.leb_spec uninit 0) as [H | _]; [lia |].
    destruct (Z.to_nat uninit) as [| k] eqn:E; [lia |].
    unfold Slots.INIT_PROCS. change (Z.to_nat 1024) with 1024%nat.
    cbn [repeat firstn forallb andb]. now rewrite andb_false_r.
Qed.

Lemma unset_alloc_num_breaks_array_witness :
  Slots.read_process
    ([Slots.Other_name; Slots.Numeric Slots.Empty]
     ++ Slots.Numeric Slots.Parsable :: [Slots.Numeric Slots.Parsable])
    (Slots.new_cpu_t 3)
  = Undefined_behaviour
  /\ (0 < 3 -> Slots.delete_cpu_t (Slots.new_cpu_t 3) = Undefined_behaviour).
Proof.
  apply unset_alloc_num_breaks_array.
  - discriminate.
  - apply Forall_cons; [now left |].
    apply Forall_cons; [now right | apply Forall_nil].
  - discriminate.
Defined.
